(** * Repo2Doc Agent: the orchestration loop, embedded and verified

    A shallow embedding of the LangGraph workflow of the repository
    ([agent_workflow.py], [state.py], [config_loader.py], [nodes/*.py])
    and of the tools that walk the repository ([tools/file_tools.py],
    [search_code] of [tools/search_tools.py]).

    - Python values decoded from the model's JSON replies are the type [json];
      a Python [str] is a Rocq [string] holding its UTF-8 bytes, and the
      operations that count characters ([len], slicing, iteration) go through
      [py_chars].
    - [json.loads], [json.dumps] and the search for a brace-delimited block
      are written out ([Codec], [search_json_block]), so that a reply can be
      evaluated; what the decoder returns is read back unchanged after it
      is encoded ([json_loads_dumps_loads]), which is how the proposals of
      a verdict travel through the state to the dispatcher.
    - The outside world (file system, language model, tool handlers, the
      interpreter's [repr]) is a record [World]; the model and the handlers
      are indexed by the number of calls made so far, so they may answer
      differently at every call.
    - A node is a function in the monad [M]: it threads the trace of model
      and tool calls and either returns or raises an exception that nothing
      catches.
    - The graph is a transition function over [node]; [run_from] iterates
      it, [invoke] starts it on the initial state, [run] adds the log lines
      that follow.
    - [SaveNode] writes the save node out on a [Host]: the report it
      builds and the files it writes, in order, each write free to fail;
      [SaveNode.hosted] is the world whose save node is that one.
    - [FileTools] and [SearchTools] run on the tree of what is found below
      the repository ([FileTools.entry]), each directory listing its
      entries in the order the operating system gives them; paths are
      joined with a slash, and what the tools take from the interpreter
      ([str.lower], [Path.match], reading a file) is a record [Os].

    Outside the model: CPython resource limits (recursion depth, the digit
    limit of [int]), the step limit of the graph runtime, and a failure
    while building the chat client. A float is kept as the text of its
    literal: two literals of the same number are two values here. *)

From Stdlib Require Import ZArith List String Ascii Bool Lia DecimalString.
From Stdlib Require Import Sorted.
From Stdlib Require DecimalPos DecimalFacts.
Import ListNotations.
Open Scope string_scope.
Open Scope Z_scope.

(* ================================================================== *)
(** * Python strings *)
(* ================================================================== *)

Module PyStr.

Definition nl : string := String "010"%char "".
Definition dquote : ascii := "034"%char.
Definition quoted (s : string) : string :=
  String dquote (s ++ String dquote "").

(** A UTF-8 continuation byte, [10xxxxxx]. *)
Definition is_continuation (c : ascii) : bool :=
  let n := N_of_ascii c in (128 <=? n)%N && (n <? 192)%N.

(** Groups the bytes of [s] into characters; the first component is the run
    of continuation bytes [s] starts with. *)
Fixpoint chars_aux (s : string) : string * list string :=
  match s with
  | EmptyString => (EmptyString, [])
  | String c r =>
      let (p, l) := chars_aux r in
      if is_continuation c then (String c p, l)
      else (EmptyString, String c p :: l)
  end.

(** The characters (code points) of a Python [str]. *)
Definition py_chars (s : string) : list string := snd (chars_aux s).

(** [len(s)] *)
Definition py_len (s : string) : Z := Z.of_nat (List.length (py_chars s)).

(** [l[:k]] on a sequence, with Python's reading of a negative bound. *)
Definition slice_to {A : Type} (k : Z) (l : list A) : list A :=
  if k <? 0 then firstn (Z.to_nat (Z.of_nat (List.length l) + k)) l
  else firstn (Z.to_nat k) l.

(** [s[:k]] on a [str]. *)
Definition py_take (k : Z) (s : string) : string :=
  String.concat "" (slice_to k (py_chars s)).

(** [str(n)] for an [int]. *)
Definition str_of_Z (z : Z) : string := NilZero.string_of_int (Z.to_int z).
Definition str_of_nat (n : nat) : string := str_of_Z (Z.of_nat n).

End PyStr.
Import PyStr.

(* ================================================================== *)
(** * Python values that come out of [json.loads] *)
(* ================================================================== *)

#[warnings="-register-all"]
Inductive json : Type :=
| JNull                                   (* None *)
| JBool (b : bool)
| JInt (z : Z)
| JFloat (lit : string)                   (* a float, as its literal text *)
| JString (s : string)
| JList (l : list json)
| JObject (d : list (string * json)).     (* dict: unique keys, insertion order *)

(** [d.get(k)] *)
Fixpoint dict_get (k : string) (d : list (string * json)) : option json :=
  match d with
  | [] => None
  | (k', v) :: r => if (k' =? k)%string then Some v else dict_get k r
  end.

(** [d[k] = v]: an existing key keeps its place, a new key goes last. *)
Fixpoint dict_set (k : string) (v : json) (d : list (string * json))
  : list (string * json) :=
  match d with
  | [] => [(k, v)]
  | (k', v') :: r =>
      if (k' =? k)%string then (k', v) :: r else (k', v') :: dict_set k v r
  end.

(** [d.get(k, default)] *)
Definition get_default (k : string) (default : json) (d : list (string * json))
  : json :=
  match dict_get k d with Some v => v | None => default end.

Fixpoint any_char (p : ascii -> bool) (s : string) : bool :=
  match s with
  | EmptyString => false
  | String c r => p c || any_char p r
  end.

Definition digit_value (c : ascii) : option Z :=
  let n := N_of_ascii c in
  if (48 <=? n)%N && (n <=? 57)%N then Some (Z.of_N n - 48) else None.

(** The mantissa of a float literal, read up to the exponent mark: its
    digits as one integer [m], the number [k] of digits after the point,
    and the text after the mark. *)
Fixpoint read_mantissa (lit : string) (after_point : bool) (m k : Z)
  : Z * Z * string :=
  match lit with
  | EmptyString => (m, k, EmptyString)
  | String c r =>
      if (c =? "e")%char || (c =? "E")%char then (m, k, r)
      else if (c =? ".")%char then read_mantissa r true m k
      else
        match digit_value c with
        | Some d =>
            read_mantissa r after_point (10 * m + d)
              (if after_point then k + 1 else k)
        | None => read_mantissa r after_point m k
        end
  end.

Fixpoint read_digits (s : string) (acc : Z) : Z :=
  match s with
  | EmptyString => acc
  | String c r =>
      match digit_value c with
      | Some d => read_digits r (10 * acc + d)
      | None => read_digits r acc
      end
  end.

(** The exponent of a float literal, from the text after the mark. *)
Definition read_exponent (s : string) : Z :=
  match s with
  | String "-" r => - read_digits r 0
  | _ => read_digits s 0
  end.

(** [bool(x)] for the float [x] a literal denotes: false when the decimal
    [m * 10 ^ (e - k)] rounds to zero, which it does when it is zero or at
    most half the least positive double, [2 ^ -1075]. *)
Definition float_truthy (lit : string) : bool :=
  if (lit =? "NaN")%string || (lit =? "Infinity")%string
     || (lit =? "-Infinity")%string
  then true
  else
    let '(m, k, rest) := read_mantissa lit false 0 0 in
    let e := read_exponent rest in
    negb ((m =? 0) || ((e <? k) && (m * 2 ^ 1075 <=? 10 ^ (k - e)))).

(** [bool(v)] *)
Definition truthy (v : json) : bool :=
  match v with
  | JNull => false
  | JBool b => b
  | JInt z => negb (z =? 0)
  | JFloat lit => float_truthy lit
  | JString s => negb (s =? "")%string
  | JList l => match l with [] => false | _ => true end
  | JObject d => match d with [] => false | _ => true end
  end.

(** Iterating a value in a [for]: the elements of a list, the characters of
    a [str], the keys of a dict; [None] for a value that is not iterable
    ([TypeError]). *)
Definition py_iter (v : json) : option (list json) :=
  match v with
  | JList l => Some l
  | JString s => Some (map JString (py_chars s))
  | JObject d => Some (map (fun kv => JString (fst kv)) d)
  | _ => None
  end.

(** [v[:k]] followed by iteration: defined on lists and strings only. *)
Definition py_slice_iter (v : json) (k : Z) : option (list json) :=
  match v with
  | JList l => Some (slice_to k l)
  | JString s => Some (map JString (slice_to k (py_chars s)))
  | _ => None
  end.

(** Hashable values can be looked up in a dict; lists and dicts cannot. *)
Definition hashable (v : json) : bool :=
  match v with
  | JList _ | JObject _ => false
  | _ => true
  end.

(** [f"{v:.2f}"] is defined on numbers (and bools) only; an [int] is
    converted to a float first, which raises [OverflowError] when it rounds
    beyond the largest double. *)
Definition formats_as_float (v : json) : bool :=
  match v with
  | JBool _ | JFloat _ => true
  | JInt z => Z.abs z <? 2 ^ 1024 - 2 ^ 970
  | _ => false
  end.

(* ================================================================== *)
(** * [json.loads] and [json.dumps] *)
(* ================================================================== *)

Module Codec.

Definition is_ws (c : ascii) : bool :=
  (c =? " ")%char || (c =? "009")%char || (c =? "010")%char
  || (c =? "013")%char.

Fixpoint skip_ws (s : string) : string :=
  match s with
  | String c r => if is_ws c then skip_ws r else s
  | EmptyString => s
  end.

Definition is_digit (c : ascii) : bool :=
  let n := N_of_ascii c in (48 <=? n)%N && (n <=? 57)%N.

(** The longest run of digits [s] starts with, and what follows it. *)
Fixpoint span_digits (s : string) : string * string :=
  match s with
  | String c r =>
      if is_digit c then let (ds, r') := span_digits r in (String c ds, r')
      else (EmptyString, s)
  | EmptyString => (EmptyString, EmptyString)
  end.

Fixpoint Z_of_digits (acc : Z) (ds : string) : Z :=
  match ds with
  | EmptyString => acc
  | String c r => Z_of_digits (10 * acc + (Z.of_N (N_of_ascii c) - 48)) r
  end.

(** The pieces of the decoder's number pattern; each returns the text it
    matched and what follows. *)

(** An optional minus sign. *)
Definition take_sign (s : string) : string * string :=
  match s with
  | String c r => if (c =? "-")%char then ("-", r) else ("", s)
  | EmptyString => ("", s)
  end.

(** The integer part: a lone zero, or a nonzero digit and more digits. *)
Definition take_int (s : string) : option (string * string) :=
  match s with
  | String c r =>
      if is_digit c then
        if (c =? "0")%char then Some ("0", r)
        else let (ds, r') := span_digits r in Some (String c ds, r')
      else None
  | EmptyString => None
  end.

(** An optional fraction: a dot and at least one digit. *)
Definition take_frac (s : string) : string * string :=
  match s with
  | String c r =>
      if (c =? ".")%char then
        let (ds, r') := span_digits r in
        if (ds =? "")%string then ("", s) else (String c ds, r')
      else ("", s)
  | EmptyString => ("", s)
  end.

(** An optional exponent: e or E, an optional sign, at least one digit. *)
Definition take_exp (s : string) : string * string :=
  match s with
  | String e r =>
      if (e =? "e")%char || (e =? "E")%char then
        let (sg, r') :=
          match r with
          | String g x =>
              if (g =? "+")%char || (g =? "-")%char
              then (String g "", x) else ("", r)
          | EmptyString => ("", r)
          end in
        let (ds, r'') := span_digits r' in
        if (ds =? "")%string then ("", s) else (String e (sg ++ ds), r'')
      else ("", s)
  | EmptyString => ("", s)
  end.

(** A number at the head of [s]: an [int] when only the integer part is
    there, a [float] otherwise. *)
Definition match_number (s : string) : option (json * string) :=
  let (sign, s1) := take_sign s in
  match take_int s1 with
  | None => None
  | Some (ip, s2) =>
      let (fp, s3) := take_frac s2 in
      let (ep, s4) := take_exp s3 in
      if (fp =? "")%string && (ep =? "")%string then
        let z := Z_of_digits 0 ip in
        Some (JInt (if (sign =? "")%string then z else - z), s4)
      else Some (JFloat (sign ++ ip ++ fp ++ ep), s4)
  end.

Definition hex_value (c : ascii) : option N :=
  let n := N_of_ascii c in
  if (48 <=? n)%N && (n <=? 57)%N then Some (n - 48)%N
  else if (97 <=? n)%N && (n <=? 102)%N then Some (n - 87)%N
  else if (65 <=? n)%N && (n <=? 70)%N then Some (n - 55)%N
  else None.

(** Four hexadecimal digits, as after [\u]. *)
Definition hex4 (s : string) : option (N * string) :=
  match s with
  | String a (String b (String c (String d r))) =>
      match hex_value a, hex_value b, hex_value c, hex_value d with
      | Some x, Some y, Some z, Some w =>
          Some ((((x * 16 + y) * 16 + z) * 16 + w)%N, r)
      | _, _, _, _ => None
      end
  | _ => None
  end.

Definition byte (n : N) : ascii := ascii_of_N n.

(** The UTF-8 bytes of a code point (a lone surrogate gets the three-byte
    form). *)
Definition utf8 (n : N) : string :=
  if (n <? 128)%N then String (byte n) ""
  else if (n <? 2048)%N then
    String (byte (192 + n / 64)) (String (byte (128 + n mod 64)) "")
  else if (n <? 65536)%N then
    String (byte (224 + n / 4096))
      (String (byte (128 + (n / 64) mod 64))
         (String (byte (128 + n mod 64)) ""))
  else
    String (byte (240 + n / 262144))
      (String (byte (128 + (n / 4096) mod 64))
         (String (byte (128 + (n / 64) mod 64))
            (String (byte (128 + n mod 64)) ""))).

Definition simple_escape (e : ascii) : option ascii :=
  if (e =? dquote)%char then Some dquote
  else if (e =? "\")%char then Some "\"%char
  else if (e =? "/")%char then Some "/"%char
  else if (e =? "b")%char then Some "008"%char
  else if (e =? "f")%char then Some "012"%char
  else if (e =? "n")%char then Some "010"%char
  else if (e =? "r")%char then Some "013"%char
  else if (e =? "t")%char then Some "009"%char
  else None.

Definition prepend (p : string) (r : option (string * string))
  : option (string * string) :=
  match r with
  | Some (body, rest) => Some (p ++ body, rest)
  | None => None
  end.

(** [s] starts with [p]: what follows. *)
Fixpoint strip_prefix (p s : string) : option string :=
  match p with
  | EmptyString => Some s
  | String a p' =>
      match s with
      | String b s' => if (a =? b)%char then strip_prefix p' s' else None
      | EmptyString => None
      end
  end.

(** The body of a string literal, from just after the opening quote: the
    decoded text and what follows the closing quote (strict mode: a raw
    control character is an error). *)
Fixpoint scanstring (fuel : nat) (s : string) : option (string * string) :=
  match fuel with
  | O => None
  | S f =>
      match s with
      | EmptyString => None
      | String c r =>
          if (c =? dquote)%char then Some ("", r)
          else if (c =? "\")%char then
            match r with
            | EmptyString => None
            | String e r' =>
                if (e =? "u")%char then
                  match hex4 r' with
                  | None => None
                  | Some (u, r2) =>
                      let (cp, r3) :=
                        if (55296 <=? u)%N && (u <=? 56319)%N then
                          match strip_prefix "\u" r2 with
                          | Some r2' =>
                              match hex4 r2' with
                              | Some (u2, r4) =>
                                  if (56320 <=? u2)%N && (u2 <=? 57343)%N
                                  then (65536 + ((u - 55296) * 1024
                                                 + (u2 - 56320)), r4)%N
                                  else (u, r2)
                              | None => (u, r2)
                              end
                          | None => (u, r2)
                          end
                        else (u, r2) in
                      prepend (utf8 cp) (scanstring f r3)
                  end
                else
                  match simple_escape e with
                  | Some ch => prepend (String ch "") (scanstring f r')
                  | None => None
                  end
            end
          else if (N_of_ascii c <? 32)%N then None
          else prepend (String c "") (scanstring f r)
      end
  end.

(** A literal of the grammar at the head of [s]. *)
Definition scan_literal (s : string) : option (json * string) :=
  match strip_prefix "null" s with
  | Some rest => Some (JNull, rest)
  | None =>
  match strip_prefix "true" s with
  | Some rest => Some (JBool true, rest)
  | None =>
  match strip_prefix "false" s with
  | Some rest => Some (JBool false, rest)
  | None =>
  match match_number s with
  | Some res => Some res
  | None =>
  match strip_prefix "NaN" s with
  | Some rest => Some (JFloat "NaN", rest)
  | None =>
  match strip_prefix "Infinity" s with
  | Some rest => Some (JFloat "Infinity", rest)
  | None =>
  match strip_prefix "-Infinity" s with
  | Some rest => Some (JFloat "-Infinity", rest)
  | None => None
  end end end end end end end.

(** One JSON value at the head of [s] ([scan_once]), with the loops of
    [JSONObject] and [JSONArray]; [None] is [JSONDecodeError]. *)
Fixpoint scan_once (fuel : nat) (s : string) : option (json * string) :=
  match fuel with
  | O => None
  | S f =>
      match s with
      | EmptyString => None
      | String c r =>
          if (c =? dquote)%char then
            match scanstring (String.length r) r with
            | Some (body, rest) => Some (JString body, rest)
            | None => None
            end
          else if (c =? "{")%char then
            match skip_ws r with
            | String c1 r1 =>
                if (c1 =? "}")%char then Some (JObject [], r1)
                else if (c1 =? dquote)%char then object_members f [] r1
                else None
            | EmptyString => None
            end
          else if (c =? "[")%char then
            match skip_ws r with
            | String c1 r1 =>
                if (c1 =? "]")%char then Some (JList [], r1)
                else array_elements f [] (String c1 r1)
            | EmptyString => None
            end
          else scan_literal s
      end
  end

with object_members (fuel : nat) (acc : list (string * json)) (s : string)
  : option (json * string) :=
  (* [s] starts just after the opening quote of a key *)
  match fuel with
  | O => None
  | S f =>
      match scanstring (String.length s) s with
      | None => None
      | Some (key, s1) =>
          match skip_ws s1 with
          | String colon s2 =>
              if (colon =? ":")%char then
                match scan_once f (skip_ws s2) with
                | None => None
                | Some (v, s3) =>
                    let acc' := dict_set key v acc in
                    match skip_ws s3 with
                    | String c r =>
                        if (c =? "}")%char then Some (JObject acc', r)
                        else if (c =? ",")%char then
                          match skip_ws r with
                          | String q r' =>
                              if (q =? dquote)%char
                              then object_members f acc' r'
                              else None
                          | EmptyString => None
                          end
                        else None
                    | EmptyString => None
                    end
                end
              else None
          | EmptyString => None
          end
      end
  end

with array_elements (fuel : nat) (acc : list json) (s : string)
  : option (json * string) :=
  (* [s] starts at an element *)
  match fuel with
  | O => None
  | S f =>
      match scan_once f s with
      | None => None
      | Some (v, s1) =>
          match skip_ws s1 with
          | String c r =>
              if (c =? "]")%char then Some (JList (acc ++ [v]), r)
              else if (c =? ",")%char
              then array_elements f (acc ++ [v]) (skip_ws r)
              else None
          | EmptyString => None
          end
      end
  end.

(** [json.loads(s)]: one value between optional white space; [None] is
    [JSONDecodeError]. *)
Definition json_loads (s : string) : option json :=
  match scan_once (2 * String.length s + 2) (skip_ws s) with
  | Some (v, rest) =>
      match skip_ws rest with
      | EmptyString => Some v
      | String _ _ => None
      end
  | None => None
  end.

Definition hex_digit (n : N) : ascii :=
  if (n <? 10)%N then ascii_of_N (48 + n) else ascii_of_N (87 + n).

(** One character of a string literal, as [json.dumps(ensure_ascii=False)]
    writes it. *)
Definition escape_char (c : ascii) : string :=
  if (c =? dquote)%char then String "\" (String dquote "")
  else if (c =? "\")%char then "\\"
  else if (c =? "010")%char then "\n"
  else if (c =? "013")%char then "\r"
  else if (c =? "009")%char then "\t"
  else if (c =? "008")%char then "\b"
  else if (c =? "012")%char then "\f"
  else
    let n := N_of_ascii c in
    if (n <? 32)%N then
      "\u00" ++ String (hex_digit (n / 16)) (String (hex_digit (n mod 16)) "")
    else String c "".

Fixpoint escape_body (s : string) : string :=
  match s with
  | EmptyString => EmptyString
  | String c r => escape_char c ++ escape_body r
  end.

Definition encode_string (s : string) : string := quoted (escape_body s).

(** [json.dumps(v, ensure_ascii=False)], default separators. *)
Fixpoint json_dumps (v : json) : string :=
  match v with
  | JNull => "null"
  | JBool true => "true"
  | JBool false => "false"
  | JInt z => str_of_Z z
  | JFloat lit => lit
  | JString s => encode_string s
  | JList l => "[" ++ String.concat ", " (map json_dumps l) ++ "]"
  | JObject d =>
      "{" ++ String.concat ", "
               (map (fun kv : string * json =>
                       let (k, x) := kv in
                       encode_string k ++ ": " ++ json_dumps x) d)
          ++ "}"
  end.

End Codec.
Import Codec.

(* ================================================================== *)
(** * [re.search(r'\{[\s\S]*\}', content)] *)
(* ================================================================== *)

(** What follows the first opening brace of [s]. *)
Fixpoint after_first_open (s : string) : option string :=
  match s with
  | EmptyString => None
  | String c r => if (c =? "{")%char then Some r else after_first_open r
  end.

(** The prefix of [s] that ends with its last closing brace. *)
Fixpoint through_last_close (s : string) : option string :=
  match s with
  | EmptyString => None
  | String c r =>
      match through_last_close r with
      | Some p => Some (String c p)
      | None => if (c =? "}")%char then Some (String c "") else None
      end
  end.

(** The group of the match: the pattern starts at the leftmost [{] and,
    being greedy over every character, ends at the last [}] after it. *)
Definition search_json_block (content : string) : option string :=
  match after_first_open content with
  | None => None
  | Some r =>
      match through_last_close r with
      | Some p => Some (String "{" p)
      | None => None
      end
  end.

(* ================================================================== *)
(** * [state.py]: the run state *)
(* ================================================================== *)

Record ToolCall : Type := mkToolCall {
  tool_name : string;
  arguments : json;
  result : string;
  success : bool
}.

Record ExplorationRecord : Type := mkExplorationRecord {
  iteration : Z;
  action : string;
  findings : string;
  tool_calls : list ToolCall
}.

(** [AgentState]: [is_complete], [missing_parts] and [confidence_score]
    receive whatever the evaluation reply holds under these keys, so they are
    [json] values. *)
Record AgentState : Type := mkAgentState {
  repo_path : string;
  config_path : option string;
  readme_content : string;
  directory_tree : string;
  project_files : list string;
  high_level_info : string;
  messages : list string;
  exploration_history : list ExplorationRecord;
  current_tool_results : string;
  current_document : string;
  document_versions : list string;
  is_complete : json;
  missing_parts : json;
  confidence_score : json;
  iteration_count : Z;
  max_iterations : Z;
  status : string;
  error : option string
}.

(** [state[key] = v], one function per key the nodes assign. *)
Definition set_readme_content (v : string) (s : AgentState) : AgentState :=
  mkAgentState (repo_path s) (config_path s) v (directory_tree s)
    (project_files s) (high_level_info s) (messages s) (exploration_history
    s) (current_tool_results s) (current_document s) (document_versions s)
    (is_complete s) (missing_parts s) (confidence_score s) (iteration_count
    s) (max_iterations s) (status s) (error s).

Definition set_directory_tree (v : string) (s : AgentState) : AgentState :=
  mkAgentState (repo_path s) (config_path s) (readme_content s) v
    (project_files s) (high_level_info s) (messages s) (exploration_history
    s) (current_tool_results s) (current_document s) (document_versions s)
    (is_complete s) (missing_parts s) (confidence_score s) (iteration_count
    s) (max_iterations s) (status s) (error s).

Definition set_project_files (v : list string) (s : AgentState) : AgentState :=
  mkAgentState (repo_path s) (config_path s) (readme_content s)
    (directory_tree s) v (high_level_info s) (messages s)
    (exploration_history s) (current_tool_results s) (current_document s)
    (document_versions s) (is_complete s) (missing_parts s)
    (confidence_score s) (iteration_count s) (max_iterations s) (status s)
    (error s).

Definition set_high_level_info (v : string) (s : AgentState) : AgentState :=
  mkAgentState (repo_path s) (config_path s) (readme_content s)
    (directory_tree s) (project_files s) v (messages s) (exploration_history
    s) (current_tool_results s) (current_document s) (document_versions s)
    (is_complete s) (missing_parts s) (confidence_score s) (iteration_count
    s) (max_iterations s) (status s) (error s).

Definition set_messages (v : list string) (s : AgentState) : AgentState :=
  mkAgentState (repo_path s) (config_path s) (readme_content s)
    (directory_tree s) (project_files s) (high_level_info s) v
    (exploration_history s) (current_tool_results s) (current_document s)
    (document_versions s) (is_complete s) (missing_parts s)
    (confidence_score s) (iteration_count s) (max_iterations s) (status s)
    (error s).

Definition set_exploration_history (v : list ExplorationRecord) (s : AgentState) : AgentState :=
  mkAgentState (repo_path s) (config_path s) (readme_content s)
    (directory_tree s) (project_files s) (high_level_info s) (messages s) v
    (current_tool_results s) (current_document s) (document_versions s)
    (is_complete s) (missing_parts s) (confidence_score s) (iteration_count
    s) (max_iterations s) (status s) (error s).

Definition set_current_tool_results (v : string) (s : AgentState) : AgentState :=
  mkAgentState (repo_path s) (config_path s) (readme_content s)
    (directory_tree s) (project_files s) (high_level_info s) (messages s)
    (exploration_history s) v (current_document s) (document_versions s)
    (is_complete s) (missing_parts s) (confidence_score s) (iteration_count
    s) (max_iterations s) (status s) (error s).

Definition set_current_document (v : string) (s : AgentState) : AgentState :=
  mkAgentState (repo_path s) (config_path s) (readme_content s)
    (directory_tree s) (project_files s) (high_level_info s) (messages s)
    (exploration_history s) (current_tool_results s) v (document_versions s)
    (is_complete s) (missing_parts s) (confidence_score s) (iteration_count
    s) (max_iterations s) (status s) (error s).

Definition set_document_versions (v : list string) (s : AgentState) : AgentState :=
  mkAgentState (repo_path s) (config_path s) (readme_content s)
    (directory_tree s) (project_files s) (high_level_info s) (messages s)
    (exploration_history s) (current_tool_results s) (current_document s) v
    (is_complete s) (missing_parts s) (confidence_score s) (iteration_count
    s) (max_iterations s) (status s) (error s).

Definition set_is_complete (v : json) (s : AgentState) : AgentState :=
  mkAgentState (repo_path s) (config_path s) (readme_content s)
    (directory_tree s) (project_files s) (high_level_info s) (messages s)
    (exploration_history s) (current_tool_results s) (current_document s)
    (document_versions s) v (missing_parts s) (confidence_score s)
    (iteration_count s) (max_iterations s) (status s) (error s).

Definition set_missing_parts (v : json) (s : AgentState) : AgentState :=
  mkAgentState (repo_path s) (config_path s) (readme_content s)
    (directory_tree s) (project_files s) (high_level_info s) (messages s)
    (exploration_history s) (current_tool_results s) (current_document s)
    (document_versions s) (is_complete s) v (confidence_score s)
    (iteration_count s) (max_iterations s) (status s) (error s).

Definition set_confidence_score (v : json) (s : AgentState) : AgentState :=
  mkAgentState (repo_path s) (config_path s) (readme_content s)
    (directory_tree s) (project_files s) (high_level_info s) (messages s)
    (exploration_history s) (current_tool_results s) (current_document s)
    (document_versions s) (is_complete s) (missing_parts s) v
    (iteration_count s) (max_iterations s) (status s) (error s).

Definition set_iteration_count (v : Z) (s : AgentState) : AgentState :=
  mkAgentState (repo_path s) (config_path s) (readme_content s)
    (directory_tree s) (project_files s) (high_level_info s) (messages s)
    (exploration_history s) (current_tool_results s) (current_document s)
    (document_versions s) (is_complete s) (missing_parts s)
    (confidence_score s) v (max_iterations s) (status s) (error s).

Definition set_status (v : string) (s : AgentState) : AgentState :=
  mkAgentState (repo_path s) (config_path s) (readme_content s)
    (directory_tree s) (project_files s) (high_level_info s) (messages s)
    (exploration_history s) (current_tool_results s) (current_document s)
    (document_versions s) (is_complete s) (missing_parts s)
    (confidence_score s) (iteration_count s) (max_iterations s) v (error s).

Definition set_error (v : option string) (s : AgentState) : AgentState :=
  mkAgentState (repo_path s) (config_path s) (readme_content s)
    (directory_tree s) (project_files s) (high_level_info s) (messages s)
    (exploration_history s) (current_tool_results s) (current_document s)
    (document_versions s) (is_complete s) (missing_parts s)
    (confidence_score s) (iteration_count s) (max_iterations s) (status s) v.

Definition create_initial_state (repo_path : string)
  (config_path : option string) (max_iterations : Z) : AgentState :=
  {| repo_path := repo_path;
     config_path := config_path;
     readme_content := "";
     directory_tree := "";
     project_files := [];
     high_level_info := "";
     messages := [];
     exploration_history := [];
     current_tool_results := "";
     current_document := "";
     document_versions := [];
     is_complete := JBool false;
     missing_parts := JList [];
     confidence_score := JFloat "0.0";
     iteration_count := 0;
     max_iterations := max_iterations;
     status := "initialized";
     error := None |}.

(* ================================================================== *)
(** * [config_loader.py]: the configuration the nodes read *)
(* ================================================================== *)

Module AgentConfig.
Record t : Type := mk {
  max_iterations : Z;
  max_tool_calls_per_iteration : Z
}.
End AgentConfig.

Module OutputConfig.
Record t : Type := mk {
  output_dir : string;
  filename : string;
  save_intermediate : bool
}.
End OutputConfig.

Record Config : Type := mkConfig {
  agent : AgentConfig.t;
  output : OutputConfig.t
}.

(** The defaults of the pydantic models. *)
Definition default_config : Config :=
  {| agent := AgentConfig.mk 10 5;
     output := OutputConfig.mk "./repo2doc-output" "requirements.md" true |}.

(* ================================================================== *)
(** * The outside world and the effect monad *)
(* ================================================================== *)

(** What a call into the outside world does: it returns a text or raises. *)
Inductive attempt : Type :=
| Returns (text : string)
| Throws (message : string).

(** The four prompts sent to the model, by the values formatted into them. *)
Inductive request : Type :=
| InitialDoc (high_level_info : string)
| UpdateDoc (current_document tool_results missing_parts : string)
| CheckCompleteness (document high_level_info : string)
    (iteration max_iterations : Z)
| ToolSelection (document missing_parts directory_tree : string)
    (max_tools : Z).

Inductive event : Type :=
| ELlm (r : request)
| ETool (name : string) (args : json).

(** The calls made so far, the latest first. *)
Definition trace : Type := list event.

Record World : Type := mkWorld {
  path_exists : string -> bool;
  _read_readme : string -> string;
  get_directory_tree : string -> attempt;
  _collect_project_files : string -> list string;
  _read_config_files : string -> list string -> list (string * string);
  (** [llm.invoke(messages)] as the n-th effect of the run *)
  llm_invoke : nat -> request -> attempt;
  (** [TOOL_REGISTRY[name].invoke(args)] as the n-th effect of the run *)
  tool_invoke : nat -> string -> json -> attempt;
  (** [repr(v)] *)
  py_repr : json -> string;
  (** [output_dir.mkdir(parents=True, exist_ok=True)] *)
  make_output_dir : AgentState -> Config -> option string;
  (** the [try] block of [save_output_node]: [Some e] when it raises [e] *)
  write_outputs : AgentState -> Config -> option string
}.

(** [str(v)] *)
Definition py_str (w : World) (v : json) : string :=
  match v with
  | JString s => s
  | _ => py_repr w v
  end.

Inductive outcome (A : Type) : Type :=
| Ret (a : A) (t : trace)
| Exc (e : string) (t : trace).
Arguments Ret {A} a t.
Arguments Exc {A} e t.

Definition M (A : Type) : Type := trace -> outcome A.

Definition ret {A : Type} (a : A) : M A := fun t => Ret a t.
Definition raise {A : Type} (e : string) : M A := fun t => Exc e t.
Definition bind {A B : Type} (c : M A) (k : A -> M B) : M B :=
  fun t =>
    match c t with
    | Ret a t' => k a t'
    | Exc e t' => Exc e t'
    end.

Notation "x <- c ;; k" := (bind c (fun x => k))
  (at level 61, c at next level, right associativity).
Notation "' p <- c ;; k" := (bind c (fun x => let 'p := x in k))
  (at level 61, p pattern, c at next level, right associativity).

Definition trace_of {A : Type} (o : outcome A) : trace :=
  match o with
  | Ret _ t => t
  | Exc _ t => t
  end.

(** [llm.invoke]: the call is recorded, then it returns or raises. *)
Definition llm_call (w : World) (r : request) : M string :=
  fun t =>
    match llm_invoke w (List.length t) r with
    | Returns content => Ret content (ELlm r :: t)
    | Throws e => Exc e (ELlm r :: t)
    end.

(** [try: llm.invoke(...) except Exception] *)
Definition llm_try (w : World) (r : request) : M attempt :=
  fun t => Ret (llm_invoke w (List.length t) r) (ELlm r :: t).

(** [try: tool_fn.invoke(args) except Exception] *)
Definition tool_try (w : World) (name : string) (args : json) : M attempt :=
  fun t => Ret (tool_invoke w (List.length t) name args) (ETool name args :: t).

(* ================================================================== *)
(** * [nodes/init_node.py] *)
(* ================================================================== *)

Definition no_readme : string := "（未找到 README 文件）".

Definition _build_high_level_info (readme tree : string) (files : list string)
  (config_contents : list (string * string)) : string :=
  let append (info : list string) (x : string) := (info ++ [x])%list in
  let info := [] in
  let info := append info ("# 仓库高层信息" ++ nl) in
  let info := append info ("## README" ++ nl) in
  let info :=
    if negb (readme =? "")%string && negb (readme =? no_readme)%string then
      let readme_preview := py_take 3000 readme in
      let readme_preview :=
        if 3000 <? py_len readme
        then readme_preview ++ nl ++ nl ++ "... (README 内容已截断)"
        else readme_preview in
      append info readme_preview
    else append info no_readme in
  let info := append info nl in
  let info := append info ("## 目录结构" ++ nl) in
  let info := append info "```" in
  let info := append info tree in
  let info := append info ("```" ++ nl) in
  let info := append info ("## 项目配置文件" ++ nl) in
  let info := fold_left (fun info f => append info ("- " ++ f)) files info in
  let info := append info nl in
  let info :=
    match config_contents with
    | [] => info
    | _ =>
        let info := append info ("## 关键配置内容" ++ nl) in
        fold_left
          (fun info (fc : string * string) =>
             let (filename, content) := fc in
             let info := append info ("### " ++ filename ++ nl) in
             let info := append info "```" in
             let info := append info content in
             append info ("```" ++ nl))
          config_contents info
    end in
  String.concat nl info.

Definition init_node (w : World) (state : AgentState) (config : Config)
  : M AgentState :=
  let repo := repo_path state in
  if negb (path_exists w repo) then
    let state := set_status "error" state in
    let state := set_error (Some ("仓库路径不存在: " ++ repo)) state in
    ret state
  else
    let readme := _read_readme w repo in
    let state := set_readme_content readme state in
    match get_directory_tree w repo with
    | Throws e => raise e
    | Returns tree =>
        let state := set_directory_tree tree state in
        let files := _collect_project_files w repo in
        let state := set_project_files files state in
        let config_contents := _read_config_files w repo files in
        let info := _build_high_level_info readme tree files config_contents in
        let state := set_high_level_info info state in
        let state := set_status "initialized" state in
        ret state
    end.

(* ================================================================== *)
(** * [nodes/doc_node.py] *)
(* ================================================================== *)

(** ["\n".join(f"- {part}" for part in missing_parts) if missing_parts else
    default]: the expression [_update_document] and [_select_tools_with_llm]
    share. A true value that cannot be iterated raises [TypeError]. *)
Definition missing_str (w : World) (missing : json) (default : string)
  : M string :=
  if truthy missing then
    match py_iter missing with
    | Some parts =>
        ret (String.concat nl (map (fun part => "- " ++ py_str w part) parts))
    | None => raise "TypeError: object is not iterable"
    end
  else ret default.

Definition _generate_initial_doc (w : World) (high_level_info : string)
  : M string :=
  llm_call w (InitialDoc high_level_info).

Definition _update_document (w : World) (current_document tool_results : string)
  (missing : json) : M string :=
  ms <- missing_str w missing "无" ;;
  llm_call w (UpdateDoc current_document tool_results ms).

Definition generate_doc_node (w : World) (state : AgentState) (config : Config)
  : M AgentState :=
  new_document <-
    (if iteration_count state =? 0 then
       _generate_initial_doc w (high_level_info state)
     else
       _update_document w (current_document state)
         (current_tool_results state) (missing_parts state)) ;;
  let state := set_current_document new_document state in
  let state :=
    set_document_versions (document_versions state ++ [new_document])%list
      state in
  let state := set_iteration_count (iteration_count state + 1) state in
  let state := set_current_tool_results "" state in
  let state := set_status "doc_generated" state in
  ret state.

(* ================================================================== *)
(** * [nodes/check_node.py] *)
(* ================================================================== *)

(** [(is_complete, confidence_score, missing_parts, suggested_tools)] *)
Definition verdict : Type := (json * json * json * json)%type.

Definition verdict_of (d : list (string * json)) : verdict :=
  (get_default "is_complete" (JBool false) d,
   get_default "confidence_score" (JFloat "0.5") d,
   get_default "missing_parts" (JList []) d,
   get_default "suggested_tools" (JList []) d).

(** The dict used when the reply holds no JSON block. *)
Definition default_result (iteration : Z) : list (string * json) :=
  [("is_complete", JBool (3 <=? iteration));
   ("confidence_score", JFloat "0.7");
   ("missing_parts", JList []);
   ("suggested_tools", JList [])].

(** The estimate returned on [json.JSONDecodeError]. *)
Definition conservative_verdict : verdict :=
  (JBool false, JFloat "0.5", JList [JString "无法评估"], JList []).

(** The [try] block of [_evaluate_completeness], on the reply's content. *)
Definition read_verdict (content : string) (iteration : Z) : M verdict :=
  match search_json_block content with
  | Some block =>
      match json_loads block with
      | Some (JObject d) => ret (verdict_of d)
      | Some _ => raise "AttributeError: object has no attribute 'get'"
      | None => ret conservative_verdict
      end
  | None => ret (verdict_of (default_result iteration))
  end.

Definition _evaluate_completeness (w : World) (document high_level_info : string)
  (iteration : Z) (config : Config) : M verdict :=
  content <- llm_call w (CheckCompleteness document high_level_info iteration
                           (AgentConfig.max_iterations (agent config))) ;;
  read_verdict content iteration.

Definition check_completeness_node (w : World) (state : AgentState)
  (config : Config) : M AgentState :=
  if max_iterations state <=? iteration_count state then
    let state := set_is_complete (JBool true) state in
    let state := set_status "completed" state in
    ret state
  else
    ' (complete, confidence, missing, suggested_tools) <-
      _evaluate_completeness w (current_document state)
        (high_level_info state) (iteration_count state) config ;;
    let state := set_is_complete complete state in
    let state := set_confidence_score confidence state in
    let state := set_missing_parts missing state in
    if truthy complete then
      let state := set_status "completed" state in
      (* the log line formats the confidence with [:.2f] *)
      if formats_as_float confidence then ret state
      else raise "format: confidence_score is not a number"
    else
      let state := set_status "needs_exploration" state in
      let state :=
        set_current_tool_results (json_dumps suggested_tools) state in
      ret state.

(* ================================================================== *)
(** * [nodes/tool_node.py] *)
(* ================================================================== *)

Definition TOOL_REGISTRY : list string :=
  ["get_file_content"; "get_file_outline"; "get_function_info";
   "get_class_info"; "search_code"; "search_imports";
   "list_files_by_extension"].

(** [tool_name in TOOL_REGISTRY], for a hashable [tool_name]: the keys are
    strings, so only a string can be one of them. *)
Definition registered (tool : json) : option string :=
  match tool with
  | JString name =>
      if existsb (String.eqb name) TOOL_REGISTRY then Some name else None
  | _ => None
  end.

(** The suggestions the check node left in [current_tool_results]. *)
Definition stored_suggestions (current_tool_results : string) : json :=
  if negb (current_tool_results =? "")%string then
    match json_loads current_tool_results with
    | Some (JList l) => JList l
    | Some (JObject d) =>
        match dict_get "tool_calls" d with
        | Some calls => calls
        | None => JList []
        end
    | Some _ => JList []
    | None => JList []
    end
  else JList [].

Definition default_selection : json :=
  JList [JObject [("tool", JString "list_files_by_extension");
                  ("args", JObject [("extension", JString ".py")]);
                  ("reason", JString "探索 Python 源代码")]].

(** What [_select_tools_with_llm] makes of the model's answer: the value
    under [tool_calls] when a block is found and decodes, the default
    selection when the call raised, no block was found or it did not
    decode. *)
Definition read_selection (r : attempt) : json :=
  match r with
  | Returns content =>
      match search_json_block content with
      | Some block =>
          match json_loads block with
          | Some (JObject d) => get_default "tool_calls" (JList []) d
          | Some _ => default_selection
          | None => default_selection
          end
      | None => default_selection
      end
  | Throws _ => default_selection
  end.

Definition _select_tools_with_llm (w : World) (state : AgentState)
  (config : Config) : M json :=
  ms <- missing_str w (missing_parts state) "无具体缺失，需要进一步探索" ;;
  r <- llm_try w
         (ToolSelection (py_take 2000 (current_document state)) ms
            (directory_tree state)
            (AgentConfig.max_tool_calls_per_iteration (agent config))) ;;
  ret (read_selection r).

(** The message of the [TypeError] that [args["repo_path"] = repo_path]
    raises when [args] is not a dict. *)
Definition item_assignment_error (args : json) : string :=
  match args with
  | JList _ => "list indices must be integers or slices, not str"
  | JString _ => "'str' object does not support item assignment"
  | JNull => "'NoneType' object does not support item assignment"
  | JBool _ => "'bool' object does not support item assignment"
  | JInt _ => "'int' object does not support item assignment"
  | JFloat _ => "'float' object does not support item assignment"
  | JObject _ => ""
  end.

Definition success_entry (w : World) (name : string) (args reason : json)
  (res : string) : string :=
  "### 工具: " ++ name ++ nl ++ "**参数**: " ++ py_str w args ++ nl
  ++ "**原因**: " ++ py_str w reason ++ nl ++ "**结果**:" ++ nl ++ res ++ nl.

Definition error_entry (name e : string) : string :=
  "### 工具: " ++ name ++ nl ++ "**错误**: " ++ e ++ nl.

(** The [try]/[except] of the loop body, for a registered [name]: the
    record and the evidence entry it appends. *)
Definition call_tool (w : World) (repo : string) (name : string)
  (args reason : json) : M (ToolCall * string) :=
  match args with
  | JObject d =>
      let args := JObject (dict_set "repo_path" (JString repo) d) in
      r <- tool_try w name args ;;
      match r with
      | Returns res =>
          ret (mkToolCall name args (py_take 2000 res) true,
               success_entry w name args reason res)
      | Throws e => ret (mkToolCall name args e false, error_entry name e)
      end
  | _ =>
      let e := item_assignment_error args in
      ret (mkToolCall name args e false, error_entry name e)
  end.

(** The [for tool_spec in suggested_tools] loop, with its two accumulators. *)
Fixpoint run_tools (w : World) (repo : string) (specs : list json)
  (calls : list ToolCall) (results : list string)
  : M (list ToolCall * list string) :=
  match specs with
  | [] => ret (calls, results)
  | tool_spec :: rest =>
      match tool_spec with
      | JObject spec =>
          let tool := get_default "tool" (JString "") spec in
          let args := get_default "args" (JObject []) spec in
          let reason := get_default "reason" (JString "") spec in
          if negb (hashable tool) then raise "TypeError: unhashable type"
          else
            match registered tool with
            | None => run_tools w repo rest calls results
            | Some name =>
                ' (call, entry) <- call_tool w repo name args reason ;;
                run_tools w repo rest (calls ++ [call]) (results ++ [entry])
            end
      | _ => raise "AttributeError: object has no attribute 'get'"
      end
  end.

(** The end of [tool_execution_node]: the audit record and the evidence
    bundle go into the state. *)
Definition record_batch (state : AgentState) (calls : list ToolCall)
  (results : list string) : AgentState :=
  let exploration :=
    mkExplorationRecord (iteration_count state)
      ("执行了 " ++ str_of_nat (List.length calls) ++ " 个工具调用")
      ("获取了 " ++ str_of_nat (List.length (filter success calls))
       ++ " 个成功结果")
      calls in
  let state :=
    set_exploration_history
      (exploration_history state ++ [exploration])%list state in
  let state :=
    set_current_tool_results (String.concat (nl ++ nl) results) state in
  let state := set_status "tools_executed" state in
  state.

(** [suggested_tools[:max_tools]], the loop over it and the bookkeeping. *)
Definition execute_batch (w : World) (state : AgentState)
  (suggested_tools : json) (max_tools : Z) : M AgentState :=
  match py_slice_iter suggested_tools max_tools with
  | None => raise "TypeError: object is not subscriptable"
  | Some specs =>
      ' (calls, results) <- run_tools w (repo_path state) specs [] [] ;;
      ret (record_batch state calls results)
  end.

Definition tool_execution_node (w : World) (state : AgentState)
  (config : Config) : M AgentState :=
  let suggested_tools := stored_suggestions (current_tool_results state) in
  suggested_tools <-
    (if truthy suggested_tools then ret suggested_tools
     else _select_tools_with_llm w state config) ;;
  let max_tools := AgentConfig.max_tool_calls_per_iteration (agent config) in
  execute_batch w state suggested_tools max_tools.

(* ================================================================== *)
(** * [nodes/save_node.py] *)
(* ================================================================== *)

Definition save_output_node (w : World) (state : AgentState) (config : Config)
  : M AgentState :=
  match make_output_dir w state config with
  | Some e => raise e
  | None =>
      match write_outputs w state config with
      | None => ret (set_status "completed" state)
      | Some e =>
          let state := set_status "error" state in
          let state := set_error (Some ("保存输出失败: " ++ e)) state in
          ret state
      end
  end.

(* ================================================================== *)
(** * [nodes/save_node.py]: the files and the report *)
(* ================================================================== *)

(** The save node once more, with what [World] keeps abstract written
    out: the report it builds and the files it writes, one after the
    other, each write free to fail. *)
Module SaveNode.

(** The machine the node runs on. *)
Record Host : Type := mkHost {
  (** [str(Path(a) / b)] *)
  joinpath : string -> string -> string;
  (** [path.mkdir(parents=..., exist_ok=True)]: [Some e] when it raises *)
  mkdir : bool -> string -> option string;
  (** [datetime.now().strftime("%Y-%m-%d_%H-%M-%S")] in the node *)
  timestamp : string;
  (** [datetime.now().strftime('%Y-%m-%d %H:%M:%S')] in the report *)
  report_time : string;
  (** [open(path, "w", encoding="utf-8")] and [f.write(content)], after
      [n] effects on the disk: [Some e] when one of them raises *)
  open_write : nat -> string -> string -> option string;
  (** [f"{v:.2f}"] for a number, and the text of the exception for any
      other value *)
  format_2f : json -> string;
  format_error : json -> string;
  (** the text of the [TypeError] of iterating a value that is not
      iterable *)
  iter_error : json -> string
}.

(** What the node did to the disk, in order. *)
Inductive effect : Type :=
| Mkdir (path : string)
| Write (path content : string).

Definition is_write (e : effect) : bool :=
  match e with
  | Write _ _ => true
  | Mkdir _ => false
  end.

(** [with open(path, "w", encoding="utf-8") as f: f.write(content)] *)
Definition write_text (h : Host) (path content : string) (disk : list effect)
  : list effect * option string :=
  match open_write h (List.length disk) path content with
  | None => ((disk ++ [Write path content])%list, None)
  | Some e => (disk, Some e)
  end.

(** The lines of one exploration record. *)
Definition record_lines (record : ExplorationRecord) : list string :=
  let head :=
    ["### 迭代 " ++ str_of_Z (iteration record);
     "- 动作: " ++ action record;
     "- 发现: " ++ findings record] in
  let calls :=
    match tool_calls record with
    | [] => []
    | calls =>
        "- 工具调用:"
        :: map (fun tc =>
                  "  - " ++ (if success tc then "✓" else "✗") ++ " "
                  ++ tool_name tc)
             calls
    end in
  List.app head (List.app calls [""]).

(** [_generate_report]; [model] is [config.llm.model]. *)
Definition _generate_report (w : World) (h : Host) (state : AgentState)
  (config : Config) (model : string) : attempt :=
  if negb (formats_as_float (confidence_score state)) then
    Throws (format_error h (confidence_score state))
  else
    let lines :=
      ["# Repo2Doc Agent 处理报告";
       "";
       "**生成时间**: " ++ report_time h;
       "**仓库路径**: " ++ repo_path state;
       "";
       "## 统计信息";
       "";
       "- 迭代次数: " ++ str_of_Z (iteration_count state);
       "- 最终置信度: " ++ format_2f h (confidence_score state);
       "- 文档长度: " ++ str_of_Z (py_len (current_document state)) ++ " 字符";
       "- 文档版本数: "
         ++ str_of_nat (List.length (document_versions state));
       "";
       "## 探索历史";
       ""] in
    let lines :=
      List.app lines (flat_map record_lines (exploration_history state)) in
    let missing :=
      if truthy (missing_parts state) then
        match py_iter (missing_parts state) with
        | Some parts =>
            Some (List.app ["## 仍需关注的部分"; ""]
                    (List.app (map (fun part => "- " ++ py_str w part) parts)
                       [""]))
        | None => None
        end
      else Some [] in
    match missing with
    | None => Throws (iter_error h (missing_parts state))
    | Some missing_lines =>
        let lines := List.app lines missing_lines in
        let lines :=
          List.app lines
            ["## 配置";
             "";
             "- 模型: " ++ model;
             "- 最大迭代次数: "
               ++ str_of_Z (AgentConfig.max_iterations (agent config));
             "- 每次最大工具调用: "
               ++ str_of_Z
                    (AgentConfig.max_tool_calls_per_iteration
                       (agent config))] in
        Returns (String.concat nl lines)
    end.

(** The name of the file of the version at index [i] of the list. *)
Definition version_name (i : nat) : string :=
  "version_" ++ str_of_nat (i + 1) ++ ".md".

(** [for i, doc_version in enumerate(...)], from index [i] on. *)
Fixpoint write_versions (h : Host) (dir : string) (i : nat)
  (versions : list string) (disk : list effect)
  : list effect * option string :=
  match versions with
  | [] => (disk, None)
  | doc_version :: rest =>
      match write_text h (joinpath h dir (version_name i)) doc_version disk with
      | (disk, None) => write_versions h dir (S i) rest disk
      | failed => failed
      end
  end.

(** The [try] block: the disk it leaves, and the exception if one was
    raised. *)
Definition try_block (w : World) (h : Host) (state : AgentState)
  (config : Config) (model : string) (output_dir : string)
  (disk : list effect) : list effect * option string :=
  let filename := OutputConfig.filename (output config) in
  let doc_path := joinpath h output_dir filename in
  let doc_path_timestamped :=
    joinpath h output_dir (timestamp h ++ "_" ++ filename) in
  let document := current_document state in
  match write_text h doc_path document disk with
  | (disk, Some e) => (disk, Some e)
  | (disk, None) =>
  match write_text h doc_path_timestamped document disk with
  | (disk, Some e) => (disk, Some e)
  | (disk, None) =>
  match _generate_report w h state config model with
  | Throws e => (disk, Some e)
  | Returns report =>
  let report_path := joinpath h output_dir (timestamp h ++ "_report.md") in
  match write_text h report_path report disk with
  | (disk, Some e) => (disk, Some e)
  | (disk, None) =>
      if OutputConfig.save_intermediate (output config) then
        let intermediate_dir := joinpath h output_dir "intermediate" in
        match mkdir h false intermediate_dir with
        | Some e => (disk, Some e)
        | None =>
            write_versions h intermediate_dir 0 (document_versions state)
              (disk ++ [Mkdir intermediate_dir])%list
        end
      else (disk, None)
  end end end end.

Inductive saved : Type :=
| Returned (state : AgentState) (disk : list effect)
| Uncaught (e : string).

(** [save_output_node], from an untouched disk. *)
Definition save_output_node (w : World) (h : Host) (state : AgentState)
  (config : Config) (model : string) : saved :=
  let output_dir :=
    joinpath h (repo_path state) (OutputConfig.output_dir (output config)) in
  match mkdir h true output_dir with
  | Some e => Uncaught e
  | None =>
      match try_block w h state config model output_dir [Mkdir output_dir] with
      | (disk, None) => Returned (set_status "completed" state) disk
      | (disk, Some e) =>
          let state := set_status "error" state in
          let state := set_error (Some ("保存输出失败: " ++ e)) state in
          Returned state disk
      end
  end.

(** The world in which the save node of the graph is this one. *)
Definition hosted (w : World) (h : Host) (model : string) : World :=
  {| path_exists := path_exists w;
     _read_readme := _read_readme w;
     get_directory_tree := get_directory_tree w;
     _collect_project_files := _collect_project_files w;
     _read_config_files := _read_config_files w;
     llm_invoke := llm_invoke w;
     tool_invoke := tool_invoke w;
     py_repr := py_repr w;
     make_output_dir := fun state config =>
       mkdir h true
         (joinpath h (repo_path state)
            (OutputConfig.output_dir (output config)));
     write_outputs := fun state config =>
       let output_dir :=
         joinpath h (repo_path state)
           (OutputConfig.output_dir (output config)) in
       snd (try_block w h state config model output_dir [Mkdir output_dir]) |}.

(** ** What the statements about the save node speak of *)

(** The writes of the intermediate versions, the first one numbered
    [i + 1]. *)
Definition version_writes (h : Host) (dir : string) (i : nat)
  (versions : list string) : list effect :=
  map (fun iv : nat * string =>
         Write (joinpath h dir (version_name (fst iv))) (snd iv))
    (combine (seq i (List.length versions)) versions).


(** A host on which nothing fails. *)
Definition sample_host : Host :=
  {| joinpath := fun a b => a ++ "/" ++ b;
     mkdir := fun _ _ => None;
     timestamp := "2024-05-01_12-00-00";
     report_time := "2024-05-01 12:00:00";
     open_write := fun _ _ _ => None;
     format_2f := fun _ => "0.40";
     format_error := fun _ => "Unknown format code";
     iter_error := fun _ => "object is not iterable" |}.

End SaveNode.

(* ================================================================== *)
(** * [tools/file_tools.py] *)
(* ================================================================== *)

Module FileTools.

(** What is found below the repository: files, directories with what they
    list, directories that cannot be listed ([PermissionError], or another
    error of the operating system), and whatever is neither a file nor a
    directory. [link] marks a directory reached through a symbolic link. *)
#[warnings="-register-all"]
Inductive entry : Type :=
| File (name : string)
| Other (name : string)
| Dir (name : string) (link : bool) (entries : list entry)
| Denied (name : string) (link : bool)
| Broken (name : string) (link : bool) (e : string).

Definition name_of (x : entry) : string :=
  match x with
  | File name | Other name => name
  | Dir name _ _ | Denied name _ | Broken name _ _ => name
  end.

Definition is_file (x : entry) : bool :=
  match x with
  | File _ => true
  | _ => false
  end.

Definition is_dir (x : entry) : bool :=
  match x with
  | Dir _ _ _ | Denied _ _ | Broken _ _ _ => true
  | _ => false
  end.

Definition is_link (x : entry) : bool :=
  match x with
  | Dir _ link _ | Denied _ link | Broken _ link _ => link
  | _ => false
  end.

(** What the tools take from the interpreter and its libraries. *)
Record Os : Type := mkOs {
  (** [str.lower] *)
  lower : string -> string;
  (** [PathSpec.from_lines("gitwildmatch", patterns).match_file(path)] *)
  match_file : list string -> string -> bool;
  (** the text of the error of listing something that is no directory *)
  not_a_directory : string
}.

Definition default_excludes : list string :=
  [".git"; "__pycache__"; "node_modules"; ".venv"; "venv";
   "dist"; "build"; ".idea"; ".vscode"].

(** [_should_exclude]; [parts] are the parts of the path relative to the
    repository, none for the repository itself. *)
Definition _should_exclude (os : Os) (parts : list string)
  (exclude_patterns : list string) : bool :=
  if existsb (fun part => existsb (String.eqb part) default_excludes) parts
  then true
  else
    match exclude_patterns with
    | [] => false
    | _ =>
        let rel_path :=
          match parts with
          | [] => "."
          | _ => String.concat "/" parts
          end in
        match_file os exclude_patterns rel_path
    end.

(** The sort key of [get_directory_tree]: [(x.is_file(), x.name.lower())],
    compared as tuples are. *)
Definition key_le (os : Os) (x y : entry) : bool :=
  match is_file x, is_file y with
  | false, true => true
  | true, false => false
  | _, _ => (lower os (name_of x) <=? lower os (name_of y))%string
  end.

(** [sorted(entries, key=...)]: stable, so an entry goes before the first
    one that does not come before it. *)
Fixpoint insert (os : Os) (x : entry) (l : list entry) : list entry :=
  match l with
  | [] => [x]
  | y :: r => if key_le os x y then x :: l else y :: insert os x r
  end.

Definition sorted (os : Os) (l : list entry) : list entry :=
  fold_right (insert os) [] l.

(** The entries of a directory that [add_tree] shows. *)
Definition filtered_entries (os : Os) (include_files : bool)
  (parts : list string) (entries : list entry) : list entry :=
  filter (fun x =>
            negb (_should_exclude os (parts ++ [name_of x]) [])
            && negb (is_file x && negb include_files))
    (sorted os entries).

(** The [for] loop of [add_tree] over the entries it shows; [below] is
    [add_tree] one level down. The result is the lines appended, or the
    exception that ends the tool. *)
Fixpoint add_entries
  (below : list string -> entry -> string -> string + list string)
  (parts : list string) (prefix : string) (l : list entry)
  : string + list string :=
  match l with
  | [] => inr []
  | x :: rest =>
      let is_last := match rest with [] => true | _ => false end in
      let connector := if is_last then "└── " else "├── " in
      if is_dir x then
        let extension := if is_last then "    " else "│   " in
        match below (parts ++ [name_of x])%list x (prefix ++ extension) with
        | inl e => inl e
        | inr inside =>
            match add_entries below parts prefix rest with
            | inl e => inl e
            | inr after =>
                inr ((prefix ++ connector ++ name_of x ++ "/")
                     :: List.app inside after)
            end
        end
      else
        match add_entries below parts prefix rest with
        | inl e => inl e
        | inr after => inr ((prefix ++ connector ++ name_of x) :: after)
        end
  end.

(** [add_tree], by the levels left to show: [fuel] stands for
    [max_depth - depth + 1], so none left is [depth > max_depth]. *)
Fixpoint add_tree (os : Os) (include_files : bool) (fuel : nat)
  (parts : list string) (path : entry) (prefix : string)
  : string + list string :=
  match fuel with
  | O => inr []
  | S fuel =>
      match path with
      | Dir _ _ entries =>
          add_entries (add_tree os include_files fuel) parts prefix
            (filtered_entries os include_files parts entries)
      | Denied _ _ => inr []
      | Broken _ _ e => inl e
      | File _ | Other _ => inl (not_a_directory os)
      end
  end.

(** [get_directory_tree]; [repo] is what [repo_path] names, if anything,
    and [repo_name] is [Path(repo_path).name]. *)
Definition get_directory_tree (os : Os) (repo : option entry)
  (repo_path repo_name : string) (max_depth : Z) (include_files : bool)
  : string :=
  match repo with
  | None => "错误：目录不存在: " ++ repo_path
  | Some root =>
      match add_tree os include_files (Z.to_nat max_depth) [] root "" with
      | inr lines => String.concat nl ((repo_name ++ "/") :: lines)
      | inl e => "错误：生成目录树失败: " ++ e
      end
  end.

(** [os.walk(repo)]: the directories that can be listed, from the top
    down, each with its path relative to the repository and the names in
    it that are no directories. A directory behind a link is not
    entered. *)
Fixpoint walk (parts : list string) (top : entry)
  : list (list string * list string) :=
  match top with
  | Dir _ _ entries =>
      (parts, map name_of (filter (fun x => negb (is_dir x)) entries))
      :: flat_map (fun x =>
                     if is_dir x && negb (is_link x)
                     then walk (parts ++ [name_of x]) x
                     else [])
           entries
  | _ => []
  end.

(** [s.endswith(suffix)] *)
Fixpoint ends_with (s suffix : string) : bool :=
  (s =? suffix)%string
  || match s with
     | String _ r => ends_with r suffix
     | EmptyString => false
     end.

(** [os.path.relpath(os.path.join(root, filename), repo_path)] *)
Definition rel_path (parts : list string) (filename : string) : string :=
  String.concat "/" (parts ++ [filename]).

(** The inner loop of [list_files_by_extension]: the files so far, and
    whether it left through [break]. *)
Fixpoint scan_names (extension : string) (max_files : Z)
  (parts : list string) (filenames files : list string)
  : list string * bool :=
  match filenames with
  | [] => (files, false)
  | filename :: rest =>
      if ends_with filename extension then
        let files := List.app files [rel_path parts filename] in
        if max_files <=? Z.of_nat (List.length files) then (files, true)
        else scan_names extension max_files parts rest files
      else scan_names extension max_files parts rest files
  end.

(** The outer loop. *)
Fixpoint scan_dirs (os : Os) (extension : string) (max_files : Z)
  (dirs : list (list string * list string)) (files : list string)
  : list string :=
  match dirs with
  | [] => files
  | (parts, filenames) :: rest =>
      if _should_exclude os parts [] then
        scan_dirs os extension max_files rest files
      else
        let (files, _) :=
          scan_names extension max_files parts filenames files in
        if max_files <=? Z.of_nat (List.length files) then files
        else scan_dirs os extension max_files rest files
  end.

Definition normalized (extension : string) : string :=
  if String.prefix "." extension then extension else "." ++ extension.

(** The files [list_files_by_extension] collects. *)
Definition collected (os : Os) (root : entry) (extension : string)
  (max_files : Z) : list string :=
  scan_dirs os (normalized extension) max_files (walk [] root) [].

Definition list_files_by_extension (os : Os) (repo : option entry)
  (repo_path extension : string) (max_files : Z) : string :=
  match repo with
  | None => "错误：目录不存在: " ++ repo_path
  | Some root =>
      let extension := normalized extension in
      let files := scan_dirs os extension max_files (walk [] root) [] in
      match files with
      | [] => "未找到扩展名为 " ++ extension ++ " 的文件"
      | _ =>
          let result :=
            "=== 扩展名为 " ++ extension ++ " 的文件（共 "
            ++ str_of_nat (List.length files) ++ " 个）===" ++ nl in
          let result := result ++ String.concat nl files in
          if max_files <=? Z.of_nat (List.length files) then
            result ++ nl ++ nl ++ "（已达到最大文件数 " ++ str_of_Z max_files
            ++ "，可能还有更多文件）"
          else result
      end
  end.

(** ** What the statements about the tools speak of *)

(** The repository cut below [levels] levels: a directory at the last
    level is left empty, whatever it holds and whether or not it can be
    listed. *)
Fixpoint prune (levels : nat) (x : entry) : entry :=
  match levels with
  | O =>
      match x with
      | File _ | Other _ => x
      | Dir name link _ | Denied name link | Broken name link _ =>
          Dir name link []
      end
  | S levels =>
      match x with
      | Dir name link entries => Dir name link (map (prune levels) entries)
      | _ => x
      end
  end.

(** The number of levels of entries below [x]. *)
Fixpoint height (x : entry) : nat :=
  match x with
  | Dir _ _ entries => fold_right (fun y h => Nat.max (S (height y)) h) O entries
  | _ => O
  end.

Definition excluded_name (name : string) : bool :=
  existsb (String.eqb name) default_excludes.

(** The repository without the entries of an excluded name. *)
Fixpoint clean (x : entry) : entry :=
  match x with
  | Dir name link entries =>
      Dir name link
        (flat_map (fun y => if excluded_name (name_of y) then [] else [clean y])
           entries)
  | _ => x
  end.

(** No entry below [x] has an excluded name. *)
Fixpoint is_clean (x : entry) : bool :=
  match x with
  | Dir _ _ entries =>
      forallb (fun y => negb (excluded_name (name_of y)) && is_clean y) entries
  | _ => true
  end.

(** The files that match in the directories of a walk that are not
    excluded, in the order of the walk. *)
Definition matching (os : Os) (extension : string)
  (dirs : list (list string * list string)) : list string :=
  flat_map (fun d : list string * list string =>
              if _should_exclude os (fst d) [] then []
              else map (rel_path (fst d))
                     (filter (fun f => ends_with f extension) (snd d)))
    dirs.

(** Induction on trees, through the lists of their entries. *)
Section entry_induction.
Variable P : entry -> Prop.
Hypothesis HFile : forall name, P (File name).
Hypothesis HOther : forall name, P (Other name).
Hypothesis HDir : forall name link entries,
  Forall P entries -> P (Dir name link entries).
Hypothesis HDenied : forall name link, P (Denied name link).
Hypothesis HBroken : forall name link e, P (Broken name link e).

Fixpoint entry_induction (x : entry) : P x :=
  match x with
  | File name => HFile name
  | Other name => HOther name
  | Dir name link entries =>
      HDir name link entries
        ((fix all (l : list entry) : Forall P l :=
            match l with
            | [] => Forall_nil _
            | y :: r => Forall_cons y (entry_induction y) (all r)
            end) entries)
  | Denied name link => HDenied name link
  | Broken name link e => HBroken name link e
  end.
End entry_induction.

(** What a change of the tree must keep for a listing to stay as it is. *)
Definition same_face (f : entry -> entry) : Prop :=
  forall a,
    name_of (f a) = name_of a /\ is_file (f a) = is_file a /\
    is_dir (f a) = is_dir a.

(** ** A sample repository *)

Fixpoint ascii_lower (s : string) : string :=
  match s with
  | EmptyString => EmptyString
  | String c r =>
      let n := nat_of_ascii c in
      String (if ((65 <=? n) && (n <=? 90))%nat then ascii_of_nat (n + 32)
              else c)
        (ascii_lower r)
  end.

(** An interpreter for names in ASCII, with no patterns of the user. *)
Definition sample_os : Os :=
  {| lower := ascii_lower;
     match_file := fun _ _ => false;
     not_a_directory := "[Errno 20] Not a directory" |}.

Definition sample_repo : entry :=
  Dir "repo" false
    [File "setup.py";
     Dir ".git" false [File "HEAD"; File "hook.py"];
     Dir "src" false
       [File "main.py"; File "Util.py";
        Dir "deep" false [Dir "deeper" false [File "x.py"]]];
     File "README.md";
     Denied "secret" false].

End FileTools.

(* ================================================================== *)
(** * [tools/search_tools.py] *)
(* ================================================================== *)

Module SearchTools.

(** What [search_code] takes from the interpreter and the disk. *)
Record Os : Type := mkOs {
  (** [str.lower], [str.strip], [str.splitlines] *)
  lower : string -> string;
  strip : string -> string;
  splitlines : string -> list string;
  (** [Path(filename).match(pattern)]: [inl e] when it raises *)
  path_match : string -> string -> string + bool;
  (** [open(path, "r", encoding="utf-8", errors="ignore")] and [f.read()]
      for the file [filename] of the directory at [parts]: [None] when one
      of them raises *)
  read : list string -> string -> option string
}.

Definition default_excludes : list string :=
  [".git"; "__pycache__"; "node_modules"; ".venv"; "venv";
   "dist"; "build"; ".idea"; ".vscode"].

(** [_should_exclude]; [parts] are the parts of the path relative to the
    repository. *)
Definition _should_exclude (parts : list string) : bool :=
  existsb (fun part => existsb (String.eqb part) default_excludes) parts.

(** [needle in hay] *)
Fixpoint contains (needle hay : string) : bool :=
  String.prefix needle hay
  || match hay with
     | String _ r => contains needle r
     | EmptyString => false
     end.

(** [pattern.lstrip("*")] *)
Fixpoint lstrip_star (pattern : string) : string :=
  match pattern with
  | String c r => if (c =? "*")%char then lstrip_star r else pattern
  | EmptyString => EmptyString
  end.

(** One result: the keys [file], [line] and [content]. *)
Record hit : Type := mkHit {
  file : string;
  line : nat;
  content : string
}.

(** The loop over the lines of a file, from the line at index [i] on. *)
Fixpoint scan_lines (os : Os) (query rel_path : string) (max_results : Z)
  (i : nat) (lines : list string) (results : list hit) : list hit :=
  match lines with
  | [] => results
  | text :: rest =>
      if contains (lower os query) (lower os text) then
        let results :=
          List.app results
            [mkHit rel_path (i + 1) (py_take 100 (strip os text))] in
        if max_results <=? Z.of_nat (List.length results) then results
        else scan_lines os query rel_path max_results (S i) rest results
      else scan_lines os query rel_path max_results (S i) rest results
  end.

(** [if file_pattern: if not Path(filename).match(...): continue]:
    whether the file is searched. *)
Definition passes (os : Os) (file_pattern : option string)
  (filename : string) : string + bool :=
  match file_pattern with
  | None | Some EmptyString => inr true
  | Some pattern => path_match os filename (lstrip_star pattern)
  end.

(** The loop over the files of a directory; [inl e] is an exception that
    leaves the loops. *)
Fixpoint scan_files (os : Os) (query : string) (file_pattern : option string)
  (max_results : Z) (parts : list string) (filenames : list string)
  (results : list hit) : string + list hit :=
  match filenames with
  | [] => inr results
  | filename :: rest =>
      match passes os file_pattern filename with
      | inl e => inl e
      | inr false =>
          scan_files os query file_pattern max_results parts rest results
      | inr true =>
          match read os parts filename with
          | None =>
              scan_files os query file_pattern max_results parts rest results
          | Some text =>
              let results :=
                scan_lines os query (FileTools.rel_path parts filename)
                  max_results 0 (splitlines os text) results in
              if max_results <=? Z.of_nat (List.length results)
              then inr results
              else
                scan_files os query file_pattern max_results parts rest
                  results
          end
      end
  end.

(** The loop over the directories of the walk. *)
Fixpoint scan_dirs (os : Os) (query : string) (file_pattern : option string)
  (max_results : Z) (dirs : list (list string * list string))
  (results : list hit) : string + list hit :=
  match dirs with
  | [] => inr results
  | (parts, filenames) :: rest =>
      if _should_exclude parts then
        scan_dirs os query file_pattern max_results rest results
      else
        match scan_files os query file_pattern max_results parts filenames
                results with
        | inl e => inl e
        | inr results =>
            if max_results <=? Z.of_nat (List.length results)
            then inr results
            else scan_dirs os query file_pattern max_results rest results
        end
  end.

(** The results [search_code] collects, or the exception that ends the
    search. *)
Definition found (os : Os) (root : FileTools.entry) (query : string)
  (file_pattern : option string) (max_results : Z) : string + list hit :=
  scan_dirs os query file_pattern max_results (FileTools.walk [] root) [].

Definition hit_text (r : hit) : string :=
  file r ++ ":" ++ str_of_nat (line r) ++ nl ++ "  " ++ content r ++ nl ++ nl.

(** [search_code]; [repo] is what [repo_path] names, if anything. *)
Definition search_code (os : Os) (repo : option FileTools.entry)
  (query repo_path : string) (file_pattern : option string)
  (max_results : Z) : string :=
  match repo with
  | None => "错误：目录不存在: " ++ repo_path
  | Some root =>
      match found os root query file_pattern max_results with
      | inl e => "错误：搜索失败: " ++ e
      | inr [] => "未找到包含 " ++ quoted query ++ " 的代码"
      | inr results =>
          let output :=
            "=== 搜索 " ++ quoted query ++ " 的结果（共 "
            ++ str_of_nat (List.length results) ++ " 个）===" ++ nl ++ nl in
          let output := output ++ String.concat "" (map hit_text results) in
          if max_results <=? Z.of_nat (List.length results) then
            output ++ nl ++ "（已达到最大结果数 " ++ str_of_Z max_results
            ++ "，可能还有更多匹配）"
          else output
      end
  end.

(** ** What the statements about the search speak of *)

(** The results in the lines of one file, the first line at index [i]. *)
Definition line_hits (os : Os) (query rel_path : string) (i : nat)
  (lines : list string) : list hit :=
  flat_map (fun il : nat * string =>
              if contains (lower os query) (lower os (snd il))
              then [mkHit rel_path (fst il + 1)
                      (py_take 100 (strip os (snd il)))]
              else [])
    (combine (seq i (List.length lines)) lines).

(** The results in one file: none when the pattern leaves it out or it
    cannot be read. *)
Definition file_hits (os : Os) (query : string) (file_pattern : option string)
  (parts : list string) (filename : string) : list hit :=
  match passes os file_pattern filename, read os parts filename with
  | inr true, Some text =>
      line_hits os query (FileTools.rel_path parts filename) 0
        (splitlines os text)
  | _, _ => []
  end.

(** The results in the directories of a walk that are not excluded, in
    the order of the walk. *)
Definition all_hits (os : Os) (query : string) (file_pattern : option string)
  (dirs : list (list string * list string)) : list hit :=
  flat_map (fun d : list string * list string =>
              if _should_exclude (fst d) then []
              else flat_map (file_hits os query file_pattern (fst d)) (snd d))
    dirs.

(** The files that are looked at: those of the directories of the walk
    that are not excluded. *)
Definition candidates (dirs : list (list string * list string))
  : list string :=
  flat_map (fun d : list string * list string =>
              if _should_exclude (fst d) then [] else snd d)
    dirs.

(** ** A sample disk *)

(** [str.splitlines] on text whose only line break is the line feed. *)
Fixpoint lines_from (current text : string) : list string :=
  match text with
  | EmptyString => if (current =? "")%string then [] else [current]
  | String c r =>
      if (c =? "010")%char then current :: lines_from "" r
      else lines_from (current ++ String c "") r
  end.

(** [str.strip] on text whose only white space is the space. *)
Fixpoint strip_left (s : string) : string :=
  match s with
  | String c r => if (c =? " ")%char then strip_left r else s
  | EmptyString => EmptyString
  end.

Fixpoint strip_right (s : string) : string :=
  match s with
  | String c r =>
      let r' := strip_right r in
      if (r' =? "")%string && (c =? " ")%char then "" else String c r'
  | EmptyString => EmptyString
  end.

(** An interpreter for text in ASCII; a pattern without wild cards
    matches the name equal to it, and the empty pattern is refused. *)
Definition sample_os : Os :=
  {| lower := FileTools.ascii_lower;
     strip := fun s => strip_right (strip_left s);
     splitlines := lines_from "";
     path_match := fun filename pattern =>
       if (pattern =? "")%string then inl "empty pattern"
       else inr (filename =? pattern)%string;
     read := fun parts filename =>
       let path := FileTools.rel_path parts filename in
       if (path =? "setup.py")%string
       then Some ("from setuptools import setup" ++ nl ++ "setup()" ++ nl)
       else if (path =? "README.md")%string
       then Some "How to import it"
       else if (path =? "src/main.py")%string
       then Some ("  import util" ++ nl ++ "util.run()")
       else None |}.

End SearchTools.

(* ================================================================== *)
(** * [agent_workflow.py]: the graph *)
(* ================================================================== *)

Inductive node : Type :=
| init | generate_doc | check_completeness | execute_tools | save_output.

Inductive route : Type := Continue | Error | Complete | Explore.

Definition _check_error (state : AgentState) : route :=
  if (status state =? "error")%string then Error else Continue.

Definition _route_after_check (state : AgentState) : route :=
  if (status state =? "error")%string then Error
  else if truthy (is_complete state) then Complete
  else Explore.

(** The edges of [_build_graph]; [None] is [END]. *)
Definition next_node (n : node) (state : AgentState) : option node :=
  match n with
  | init =>
      match _check_error state with
      | Continue => Some generate_doc
      | _ => None
      end
  | generate_doc =>
      match _check_error state with
      | Continue => Some check_completeness
      | _ => None
      end
  | check_completeness =>
      match _route_after_check state with
      | Complete => Some save_output
      | Explore => Some execute_tools
      | _ => None
      end
  | execute_tools =>
      match _check_error state with
      | Continue => Some generate_doc
      | _ => None
      end
  | save_output => None
  end.

(** [_wrap_node]: the node function of a graph node. *)
Definition node_function (w : World) (config : Config) (n : node)
  (state : AgentState) : M AgentState :=
  match n with
  | init => init_node w state config
  | generate_doc => generate_doc_node w state config
  | check_completeness => check_completeness_node w state config
  | execute_tools => tool_execution_node w state config
  | save_output => save_output_node w state config
  end.

(** The runtime writes the dict a node returns back into the state: a plain
    key is overwritten, [messages] goes through its reducer [add]. *)
Definition apply_update (old new : AgentState) : AgentState :=
  set_messages (messages old ++ messages new)%list new.

Inductive run_result : Type :=
| Finished (state : AgentState) (t : trace)      (* reached END *)
| Raised (e : string) (t : trace)                (* an uncaught exception *)
| Pending (n : node) (state : AgentState) (t : trace).  (* about to run n *)

(** [graph.invoke], cut after [steps] nodes: what an observer sees then. *)
Fixpoint run_from (w : World) (config : Config) (steps : nat) (n : node)
  (state : AgentState) (t : trace) : run_result :=
  match steps with
  | O => Pending n state t
  | S k =>
      match node_function w config n state t with
      | Exc e t' => Raised e t'
      | Ret new t' =>
          let state' := apply_update state new in
          match next_node n state' with
          | None => Finished state' t'
          | Some n' => run_from w config k n' state' t'
          end
      end
  end.

(** [self.graph.invoke(initial_state)], observed after [steps] nodes. *)
Definition invoke (w : World) (config : Config) (repo_path : string)
  (config_path : option string) (steps : nat) : run_result :=
  run_from w config steps init
    (create_initial_state repo_path config_path
       (AgentConfig.max_iterations (agent config)))
    [].

(** The log lines of [Repo2DocAgentWorkflow.run] after the graph has ended:
    on status completed the confidence is formatted with [:.2f]. *)
Definition report (r : run_result) : run_result :=
  match r with
  | Finished state t =>
      if (status state =? "completed")%string
         && negb (formats_as_float (confidence_score state))
      then Raised "format: confidence_score is not a number" t
      else Finished state t
  | _ => r
  end.

(** [Repo2DocAgentWorkflow.run], observed after [steps] nodes. *)
Definition run (w : World) (config : Config) (repo_path : string)
  (config_path : option string) (steps : nat) : run_result :=
  report (invoke w config repo_path config_path steps).

Definition state_of (r : run_result) : option AgentState :=
  match r with
  | Finished s _ => Some s
  | Pending _ s _ => Some s
  | Raised _ _ => None
  end.

Definition run_trace (r : run_result) : trace :=
  match r with
  | Finished _ t => t
  | Pending _ _ t => t
  | Raised _ t => t
  end.

Definition is_synthesis (e : event) : bool :=
  match e with
  | ELlm (InitialDoc _) | ELlm (UpdateDoc _ _ _) => true
  | _ => false
  end.

Definition is_llm (e : event) : bool :=
  match e with
  | ELlm _ => true
  | ETool _ _ => false
  end.

Definition is_tool (e : event) : bool :=
  match e with
  | ETool _ _ => true
  | ELlm _ => false
  end.

(** The number of calls to the document-generation prompts in a trace. *)
Definition synthesis_calls (t : trace) : Z :=
  Z.of_nat (List.length (filter is_synthesis t)).

(** The number of tool handlers invoked in a trace. *)
Definition tool_invocations (t : trace) : nat :=
  List.length (filter is_tool t).

(* ================================================================== *)
(** * Vocabulary of the statements *)
(* ================================================================== *)

Arguments synthesis_calls : simpl never.
Arguments tool_invocations : simpl never.

Ltac inv H := inversion H; subst; clear H.

(** ** The decoder *)

(** What a successful scan with some fuel tells: it consumed at least one
    character, and every fuel of at least twice the consumed length gives
    the same result. *)
Definition fuel_independent {A : Type}
  (scan : nat -> A -> string -> option (json * string)) (f : nat) : Prop :=
  forall a s v r,
    scan f a s = Some (v, r) ->
    (String.length r < String.length s)%nat /\
    forall F, (2 * (String.length s - String.length r) <= F)%nat ->
              scan F a s = Some (v, r).

(** A reply in which no parseable block can be found: the pattern finds
    nothing, or what it finds does not decode. *)
Definition no_parseable_block (content : string) : Prop :=
  match search_json_block content with
  | Some block => json_loads block = None
  | None => True
  end.

(** ** Values that are written and read back *)

Fixpoint all_digits (ds : string) : bool :=
  match ds with
  | EmptyString => true
  | String c r => is_digit c && all_digits r
  end.

(** [s] does not start with a character that satisfies [p]. *)
Definition not_ahead (p : ascii -> bool) (s : string) : bool :=
  match s with
  | EmptyString => true
  | String c _ => negb (p c)
  end.

Definition is_exp_mark (c : ascii) : bool := (c =? "e")%char || (c =? "E")%char.
Definition is_exp_sign (c : ascii) : bool := (c =? "+")%char || (c =? "-")%char.

(** The shapes of the four parts of a number literal. *)
Definition sign_part (sign : string) : bool :=
  (sign =? "")%string || (sign =? "-")%string.

Definition int_part (ip : string) : bool :=
  match ip with
  | String c ds =>
      is_digit c && (if (c =? "0")%char then (ds =? "")%string else all_digits ds)
  | EmptyString => false
  end.

Definition frac_part (fp : string) : bool :=
  match fp with
  | String c ds => (c =? ".")%char && negb (ds =? "")%string && all_digits ds
  | EmptyString => true
  end.

Definition exp_part (ep : string) : bool :=
  match ep with
  | String e x =>
      is_exp_mark e &&
      match x with
      | String g ds =>
          if is_exp_sign g then negb (ds =? "")%string && all_digits ds
          else all_digits x
      | EmptyString => false
      end
  | EmptyString => true
  end.

(** What may follow a number in the encoder's output. *)
Definition ends_number (rest : string) : bool :=
  not_ahead (fun c => is_digit c || (c =? ".")%char || is_exp_mark c) rest.

(** The value of a literal made of the four parts. *)
Definition number_value (sign ip fp ep : string) : json :=
  if (fp =? "")%string && (ep =? "")%string then
    let z := Z_of_digits 0 ip in
    JInt (if (sign =? "")%string then z else - z)
  else JFloat (sign ++ ip ++ fp ++ ep).

Definition number_parts (sign ip fp ep : string) : bool :=
  sign_part sign && int_part ip && frac_part fp && exp_part ep.

(** The text of a float the decoder accepts. *)
Definition float_literal (lit : string) : bool :=
  (lit =? "NaN")%string || (lit =? "Infinity")%string
  || (lit =? "-Infinity")%string
  || match match_number lit with
     | Some (JFloat l, EmptyString) => (l =? lit)%string
     | _ => false
     end.

Fixpoint distinct_keys (d : list (string * json)) : bool :=
  match d with
  | [] => true
  | (k, _) :: r =>
      match dict_get k r with Some _ => false | None => true end
      && distinct_keys r
  end.

(** The values [json.loads] produces: floats written as the grammar has
    them, dicts without a repeated key. *)
Fixpoint decoded (v : json) : bool :=
  match v with
  | JFloat lit => float_literal lit
  | JList l => forallb decoded l
  | JObject d =>
      distinct_keys d
      && forallb (fun kv : string * json => let (_, x) := kv in decoded x) d
  | _ => true
  end.

(** Induction on values, through the lists they hold. *)
Section json_induction.
Variable P : json -> Prop.
Hypothesis HNull : P JNull.
Hypothesis HBool : forall b, P (JBool b).
Hypothesis HInt : forall z, P (JInt z).
Hypothesis HFloat : forall lit, P (JFloat lit).
Hypothesis HString : forall s, P (JString s).
Hypothesis HList : forall l, Forall P l -> P (JList l).
Hypothesis HObject :
  forall d, Forall (fun kv : string * json => P (snd kv)) d -> P (JObject d).

Fixpoint json_induction (v : json) : P v :=
  match v with
  | JNull => HNull
  | JBool b => HBool b
  | JInt z => HInt z
  | JFloat lit => HFloat lit
  | JString s => HString s
  | JList l =>
      HList l
        ((fix all (l : list json) : Forall P l :=
            match l with
            | [] => Forall_nil _
            | x :: r => Forall_cons x (json_induction x) (all r)
            end) l)
  | JObject d =>
      HObject d
        ((fix all (d : list (string * json))
            : Forall (fun kv : string * json => P (snd kv)) d :=
            match d with
            | [] => Forall_nil _
            | (k, x) :: r =>
                Forall_cons (k, x) (json_induction x) (all r)
            end) d)
  end.
End json_induction.

(** The first character of a number. *)
Definition number_head (c : ascii) : bool := is_digit c || (c =? "-")%char.

(** The text starts with a character that is neither white space nor a
    closing bracket. *)
Definition no_space_ahead (s : string) : Prop :=
  exists c r, s = String c r /\ is_ws c = false /\ (c =? "]")%char = false.

(** One member of a dict, as the encoder writes it. *)
Definition member_text (kv : string * json) : string :=
  let (k, x) := kv in encode_string k ++ ": " ++ json_dumps x.

(** The members of a dict from just after the opening quote of the first
    key, up to the closing brace, and what follows. *)
Fixpoint members_tail (d : list (string * json)) (rest : string) : string :=
  match d with
  | [] => EmptyString
  | (k, x) :: d' =>
      escape_body k
      ++ String dquote
           (": " ++ json_dumps x
            ++ match d' with
               | [] => String "}" rest
               | _ :: _ => ", " ++ String dquote (members_tail d' rest)
               end)
  end.

(** ** Runs *)

(** What holds whenever the graph is about to run node [n] ([None]: the run
    is over), for a run configured with the cap [N]. *)
Definition node_invariant (N : Z) (n : option node) (s : AgentState)
  (t : trace) : Prop :=
  max_iterations s = N /\
  Z.of_nat (List.length (document_versions s)) = iteration_count s /\
  synthesis_calls t = iteration_count s /\
  messages s = [] /\
  match n with
  | Some init => iteration_count s = 0
  | Some generate_doc | Some execute_tools => iteration_count s < Z.max 1 N
  | Some check_completeness | Some save_output | None =>
      iteration_count s <= Z.max 1 N
  end.

Definition result_invariant (N : Z) (r : run_result) : Prop :=
  match r with
  | Pending n s t => node_invariant N (Some n) s t
  | Finished s t => node_invariant N None s t
  | Raised _ _ => True
  end.




(** ** Batches *)

(** An invocation of a registered tool whose [repo_path] argument is the
    run's repository. *)
Definition engine_owned (repo : string) (ev : event) : Prop :=
  match ev with
  | ETool name (JObject d) =>
      In name TOOL_REGISTRY /\ dict_get "repo_path" d = Some (JString repo)
  | _ => False
  end.

(** The prompt of [_select_tools_with_llm]. *)
Definition is_selection (ev : event) : Prop :=
  match ev with
  | ELlm (ToolSelection _ _ _ _) => True
  | _ => False
  end.

(** A proposal the loop can read: a dict whose [tool] value is hashable. *)
Definition well_formed_spec (spec : json) : bool :=
  match spec with
  | JObject d => hashable (get_default "tool" (JString "") d)
  | _ => false
  end.

(** The registered tool a proposal names, if any. *)
Definition registered_name (spec : json) : option string :=
  match spec with
  | JObject d => registered (get_default "tool" (JString "") d)
  | _ => None
  end.

(** The names of the registered proposals of a batch, in order. *)
Definition registered_names (specs : list json) : list string :=
  flat_map (fun spec => match registered_name spec with
                        | Some name => [name]
                        | None => []
                        end) specs.

(** ** Runs that no exception ends *)




(** What the dispatcher makes of a value of [suggested_tools] that the
    check node wrote to [current_tool_results]: a list as it is, a dict's
    [tool_calls], nothing of anything else. *)
Definition received (suggested_tools : json) : json :=
  match suggested_tools with
  | JList l => JList l
  | JObject d =>
      match dict_get "tool_calls" d with
      | Some calls => calls
      | None => JList []
      end
  | _ => JList []
  end.




(** ** Calls, records and invocations *)

(** The number of calls to the model in a trace. *)
Definition llm_calls (t : trace) : nat := List.length (filter is_llm t).

(** What holds of the exploration history whenever the graph is about to
    run node [n] ([None]: the run is over): the records are numbered from
    one, and there is one for every synthesis but the last. *)
Definition history_invariant (n : option node) (s : AgentState) : Prop :=
  let history := exploration_history s in
  map iteration history = map Z.of_nat (seq 1 (List.length history)) /\
  match n with
  | Some init => iteration_count s = 0 /\ history = []
  | Some generate_doc => Z.of_nat (List.length history) = iteration_count s
  | Some check_completeness | Some execute_tools | Some save_output =>
      Z.of_nat (List.length history) + 1 = iteration_count s
  | None =>
      (iteration_count s = 0 /\ history = [])
      \/ Z.of_nat (List.length history) + 1 = iteration_count s
  end.

(** The calls a run configured with the cap [N] and the budget [m] may have
    made when it is about to run node [n]. *)
Definition calls_invariant (N m : Z) (n : option node) (s : AgentState)
  (t : trace) : Prop :=
  let i := iteration_count s in
  let M := Z.max 1 N in
  let llm := Z.of_nat (llm_calls t) in
  let tools := Z.of_nat (tool_invocations t) in
  match n with
  | Some init => llm = 0 /\ tools = 0
  | Some generate_doc => llm <= 3 * i /\ tools <= i * m
  | Some check_completeness => llm <= 3 * i - 2 /\ tools <= (i - 1) * m
  | Some execute_tools => llm <= 3 * i - 1 /\ tools <= (i - 1) * m
  | Some save_output | None => llm <= 3 * M - 2 /\ tools <= (M - 1) * m
  end.

(** The bound on the calls of a whole run. *)
Definition calls_bound (N m : Z) (t : trace) : Prop :=
  Z.of_nat (llm_calls t) <= 3 * Z.max 1 N - 2 /\
  Z.of_nat (tool_invocations t) <= (Z.max 1 N - 1) * m.

Fixpoint all_continuation (p : string) : bool :=
  match p with
  | EmptyString => true
  | String c r => is_continuation c && all_continuation r
  end.

(** The bytes of one character: a leading byte and its continuation bytes. *)
Definition is_char (x : string) : bool :=
  match x with
  | String c p => negb (is_continuation c) && all_continuation p
  | EmptyString => false
  end.

(** The handler invocation a proposal leads to, if any: its tool must be
    registered and its arguments a dict. *)
Definition invocation (repo : string) (spec : json) : list event :=
  match spec with
  | JObject d =>
      match registered (get_default "tool" (JString "") d),
            get_default "args" (JObject []) d with
      | Some name, JObject args =>
          [ETool name (JObject (dict_set "repo_path" (JString repo) args))]
      | _, _ => []
      end
  | _ => []
  end.

(** The prompt of the check node for the state [s]. *)
Definition evaluation_request (s : AgentState) (config : Config) : request :=
  CheckCompleteness (current_document s) (high_level_info s)
    (iteration_count s) (AgentConfig.max_iterations (agent config)).

(** The invocation the default selection leads to. *)
Definition default_invocation (repo : string) : event :=
  ETool "list_files_by_extension"
    (JObject [("extension", JString ".py"); ("repo_path", JString repo)]).

(** The state [s] is the one the save node left when it ended with status
    completed, having written [disk]. *)
Definition saved_by (w : World) (h : SaveNode.Host) (model : string)
  (config : Config) (s : AgentState) (disk : list SaveNode.effect) : Prop :=
  exists s0,
    SaveNode.save_output_node w h s0 config model
    = SaveNode.Returned (set_status "completed" s0) disk /\
    s = apply_update s0 (set_status "completed" s0).

(** What holds of a run on a host whenever the graph is about to run node
    [n] ([None]: the run is over): from the first check on there is a
    document, and it is the last version; a run that is over with status
    completed is one that the save node ended. *)
Definition saved_invariant (w : World) (h : SaveNode.Host) (model : string)
  (config : Config) (n : option node) (s : AgentState) : Prop :=
  match n with
  | Some init | Some generate_doc => True
  | Some check_completeness | Some execute_tools | Some save_output =>
      1 <= iteration_count s /\
      last (document_versions s) "" = current_document s
  | None =>
      status s = "completed" ->
      1 <= iteration_count s /\
      last (document_versions s) "" = current_document s /\
      exists disk, saved_by w h model config s disk
  end.

(** ** Sample worlds and states *)

Module Sample.

Definition config (cap budget : Z) : Config :=
  {| agent := AgentConfig.mk cap budget;
     output := OutputConfig.mk "./repo2doc-output" "requirements.md" true |}.

Definition proposal (tool : string) (args : list (string * json)) : json :=
  JObject [("tool", JString tool); ("args", JObject args);
           ("reason", JString "look closer")].

(** An evaluation reply: prose around a JSON block that reports the
    document incomplete and proposes [tools]. *)
Definition incomplete_reply (tools : list json) : string :=
  "Assessment: "
  ++ json_dumps (JObject [("is_complete", JBool false);
                          ("confidence_score", JFloat "0.4");
                          ("missing_parts", JList [JString "data model"]);
                          ("suggested_tools", JList tools)])
  ++ " (end)".

(** A model that always asks for more and proposes [tools], a selection
    prompt that cannot be reached, handlers that fail on [search_code] and
    succeed otherwise. *)
Definition world (exists_ : bool) (tools : list json) : World :=
  {| path_exists := fun _ => exists_;
     _read_readme := fun _ => "A small project.";
     get_directory_tree := fun _ => Returns "src/";
     _collect_project_files := fun _ => ["setup.py"];
     _read_config_files := fun _ _ => [];
     llm_invoke := fun _ r =>
       match r with
       | InitialDoc _ => Returns "first draft"
       | UpdateDoc _ _ _ => Returns "revised draft"
       | CheckCompleteness _ _ _ _ => Returns (incomplete_reply tools)
       | ToolSelection _ _ _ _ => Throws "connection refused"
       end;
     tool_invoke := fun _ name _ =>
       if (name =? "search_code")%string then Throws "invalid pattern"
       else Returns "def main(): ...";
     py_repr := json_dumps;
     make_output_dir := fun _ _ => None;
     write_outputs := fun _ _ => None |}.

(** A world whose model answers every prompt with [content]. *)
Definition replying (content : string) : World :=
  {| path_exists := fun _ => true;
     _read_readme := fun _ => "";
     get_directory_tree := fun _ => Returns "";
     _collect_project_files := fun _ => [];
     _read_config_files := fun _ _ => [];
     llm_invoke := fun _ _ => Returns content;
     tool_invoke := fun _ _ _ => Returns "";
     py_repr := json_dumps;
     make_output_dir := fun _ _ => None;
     write_outputs := fun _ _ => None |}.

Definition outline : json :=
  proposal "get_file_outline"
    [("file_path", JString "main.py"); ("repo_path", JString "/elsewhere")].
Definition search : json := proposal "search_code" [("query", JString "(")].
Definition unknown : json := proposal "read_minds" [].

Definition prose : string := "The document covers the main flows.".
Definition broken : string := "Verdict: {is_complete: true} as requested.".

(** The state the check node leaves behind after one synthesis, with
    [proposals] as the evaluator's suggestions. *)
Definition awaiting_tools (proposals : list json) : AgentState :=
  set_current_tool_results (json_dumps (JList proposals))
    (set_status "needs_exploration"
       (set_iteration_count 1
          (set_document_versions ["first draft"]
             (set_current_document "first draft"
                (create_initial_state "/repo" None 10))))).

End Sample.

Definition sample_world : World :=
  Sample.world true [Sample.outline; Sample.unknown; Sample.search].

(** A state at the end of two rounds. *)
Definition sample_final_state : AgentState :=
  set_is_complete (JBool true)
    (set_iteration_count 2
       (set_document_versions ["first draft"; "revised draft"]
          (set_current_document "revised draft"
             (create_initial_state "/repo" None 2)))).

(* ================================================================== *)
(** * Proofs *)
(* ================================================================== *)

(** ** The decoder's fuel is enough *)

Lemma skip_ws_length s : (String.length (skip_ws s) <= String.length s)%nat.
Proof.
  induction s as [|c s IH]; cbn; [lia|]. destruct (is_ws c); cbn; lia.
Qed.

Lemma span_digits_length s ds r :
  span_digits s = (ds, r) -> (String.length r <= String.length s)%nat.
Proof.
  revert ds r. induction s as [|c s IH]; intros ds r; cbn.
  - intros H; injection H as <- <-. cbn. lia.
  - destruct (is_digit c).
    + destruct (span_digits s) as [ds' r'] eqn:E. intros H; injection H as <- <-.
      specialize (IH _ _ eq_refl). lia.
    + intros H; injection H as <- <-. cbn. lia.
Qed.

Lemma strip_prefix_length p : forall s r,
  strip_prefix p s = Some r ->
  String.length s = (String.length p + String.length r)%nat.
Proof.
  induction p as [|a p IH]; intros s r; cbn.
  - intros H; injection H as ->. reflexivity.
  - destruct s as [|b s]; [discriminate|].
    destruct (a =? b)%char; [|discriminate].
    intros H. apply IH in H. cbn. lia.
Qed.

Lemma take_sign_length s sign r :
  take_sign s = (sign, r) -> (String.length r <= String.length s)%nat.
Proof.
  unfold take_sign. destruct s as [|c s]; [|destruct (c =? "-")%char];
    intros H; injection H as <- <-; cbn; lia.
Qed.

Lemma take_int_length s ip r :
  take_int s = Some (ip, r) -> (String.length r < String.length s)%nat.
Proof.
  unfold take_int. destruct s as [|c s]; [discriminate|].
  destruct (is_digit c); [|discriminate].
  destruct (c =? "0")%char.
  - intros H; injection H as <- <-. cbn. lia.
  - destruct (span_digits s) as [ds r'] eqn:E. apply span_digits_length in E.
    intros H; injection H as <- <-. cbn. lia.
Qed.

Lemma take_frac_length s fp r :
  take_frac s = (fp, r) -> (String.length r <= String.length s)%nat.
Proof.
  unfold take_frac. destruct s as [|c s]; [intros H; injection H as <- <-; lia|].
  destruct (c =? ".")%char; [|intros H; injection H as <- <-; lia].
  destruct (span_digits s) as [ds r'] eqn:E. apply span_digits_length in E.
  destruct (ds =? "")%string; intros H; injection H as <- <-; cbn; lia.
Qed.

Lemma take_exp_length s ep r :
  take_exp s = (ep, r) -> (String.length r <= String.length s)%nat.
Proof.
  unfold take_exp. destruct s as [|e s]; [intros H; injection H as <- <-; lia|].
  destruct (_ || _); [|intros H; injection H as <- <-; lia].
  destruct (match s with String _ _ => _ | EmptyString => _ end) as [sg r'] eqn:Es.
  assert (String.length r' <= String.length s)%nat as Hsg.
  { destruct s as [|g x]; [injection Es as <- <-; lia|].
    destruct (_ || _); injection Es as <- <-; cbn; lia. }
  destruct (span_digits r') as [ds r''] eqn:E. apply span_digits_length in E.
  destruct (ds =? "")%string; intros H; injection H as <- <-; cbn; lia.
Qed.

Lemma match_number_length s v r :
  match_number s = Some (v, r) -> (String.length r < String.length s)%nat.
Proof.
  unfold match_number.
  destruct (take_sign s) as [sign s1] eqn:E1. apply take_sign_length in E1.
  destruct (take_int s1) as [[ip s2]|] eqn:E2; [|discriminate].
  apply take_int_length in E2.
  destruct (take_frac s2) as [fp s3] eqn:E3. apply take_frac_length in E3.
  destruct (take_exp s3) as [ep s4] eqn:E4. apply take_exp_length in E4.
  destruct (_ && _); intros H; injection H as <- <-; lia.
Qed.

Lemma scan_literal_length s v r :
  scan_literal s = Some (v, r) -> (String.length r < String.length s)%nat.
Proof.
  unfold scan_literal.
  repeat match goal with
         | |- context [strip_prefix ?p s] =>
             let E := fresh "E" in
             destruct (strip_prefix p s) eqn:E;
             [apply strip_prefix_length in E; cbn in E;
              intros H; injection H as <- <-; lia|]
         | |- context [match_number s] =>
             let E := fresh "E" in
             destruct (match_number s) as [[v0 r0]|] eqn:E;
             [apply match_number_length in E;
              intros H; injection H as <- <-; exact E|]
         end.
  discriminate.
Qed.

Lemma hex4_length s u r :
  hex4 s = Some (u, r) -> String.length s = (4 + String.length r)%nat.
Proof.
  unfold hex4. destruct s as [|a [|b [|c [|d s]]]]; try discriminate.
  destruct (hex_value a), (hex_value b), (hex_value c), (hex_value d);
    try discriminate.
  intros H; injection H as <- <-. reflexivity.
Qed.

Lemma prepend_Some p r body rest :
  prepend p r = Some (body, rest) ->
  exists body', r = Some (body', rest) /\ body = p ++ body'.
Proof.
  unfold prepend. destruct r as [[b r0]|]; [|discriminate].
  intros H; injection H as <- <-. eauto.
Qed.

(** The code point after a [\u] escape, surrogate pair or not, leaves a
    rest no longer than what followed the first four digits. *)
Lemma surrogate_rest_length (u : N) (r2 : string) cp r3 :
  (if (55296 <=? u)%N && (u <=? 56319)%N then
     match strip_prefix "\u" r2 with
     | Some r2' =>
         match hex4 r2' with
         | Some (u2, r4) =>
             if (56320 <=? u2)%N && (u2 <=? 57343)%N
             then (65536 + ((u - 55296) * 1024 + (u2 - 56320)), r4)%N
             else (u, r2)
         | None => (u, r2)
         end
     | None => (u, r2)
     end
   else (u, r2)) = (cp, r3) ->
  (String.length r3 <= String.length r2)%nat.
Proof.
  destruct (_ && _); [|intros H; injection H as <- <-; lia].
  destruct (strip_prefix "\u" r2) as [r2'|] eqn:E1;
    [|intros H; injection H as <- <-; lia].
  apply strip_prefix_length in E1.
  destruct (hex4 r2') as [[u2 r4]|] eqn:E2;
    [|intros H; injection H as <- <-; lia].
  apply hex4_length in E2.
  destruct (_ && _); intros H; injection H as <- <-; lia.
Qed.

(** A string literal takes at least its closing quote, and its scan does
    not depend on the fuel once there is one unit per character. *)
Lemma scanstring_spec f : forall s,
  (String.length s <= f)%nat ->
  (forall body rest, scanstring f s = Some (body, rest) ->
                     (String.length rest < String.length s)%nat) /\
  (forall F, (String.length s <= F)%nat -> scanstring F s = scanstring f s).
Proof.
  induction f as [|f IH]; intros s Hf.
  - destruct s; [|cbn in Hf; lia]. split; [discriminate|].
    intros [|F] _; reflexivity.
  - destruct s as [|c r]; [split; [discriminate|intros [|F] _; reflexivity]|].
    cbn [String.length] in Hf.
    assert (forall r', (String.length r' <= String.length r)%nat ->
              (forall p body rest,
                 prepend p (scanstring f r') = Some (body, rest) ->
                 (String.length rest < String.length (String c r))%nat) /\
              (forall p F, (String.length r <= F)%nat ->
                 prepend p (scanstring F r') = prepend p (scanstring f r')))
      as Hrec.
    { intros r' Hr'. destruct (IH r' ltac:(lia)) as [Hlen Hfuel]. split.
      - intros p body rest H. apply prepend_Some in H as (b & E & _).
        apply Hlen in E. cbn. lia.
      - intros p F HF. now rewrite (Hfuel F ltac:(lia)). }
    split.
    + intros body rest. cbn [scanstring].
      destruct (c =? dquote)%char; [intros H; injection H as <- <-; cbn; lia|].
      destruct (c =? "\")%char.
      * destruct r as [|e r']; [discriminate|].
        destruct (e =? "u")%char.
        -- destruct (hex4 r') as [[u r2]|] eqn:E2; [|discriminate].
           apply hex4_length in E2.
           destruct (if (55296 <=? u)%N && _ then _ else _) as [cp r3] eqn:E3.
           apply surrogate_rest_length in E3.
           apply (Hrec r3). cbn. lia.
        -- destruct (simple_escape e); [|discriminate].
           apply (Hrec r'). cbn. lia.
      * destruct (N_of_ascii c <? 32)%N; [discriminate|].
        apply (Hrec r). lia.
    + intros [|F] HF; [cbn in HF; lia|]. cbn [String.length] in HF.
      cbn [scanstring].
      destruct (c =? dquote)%char; [reflexivity|].
      destruct (c =? "\")%char.
      * destruct r as [|e r']; [reflexivity|].
        destruct (e =? "u")%char.
        -- destruct (hex4 r') as [[u r2]|] eqn:E2; [|reflexivity].
           apply hex4_length in E2.
           destruct (if (55296 <=? u)%N && _ then _ else _) as [cp r3] eqn:E3.
           apply surrogate_rest_length in E3.
           apply (Hrec r3); [cbn; lia|lia].
        -- destruct (simple_escape e); [|reflexivity].
           apply (Hrec r'); [cbn; lia|lia].
      * destruct (N_of_ascii c <? 32)%N; [reflexivity|].
        apply (Hrec r); lia.
Qed.

Lemma scanstring_length s body rest :
  scanstring (String.length s) s = Some (body, rest) ->
  (String.length rest < String.length s)%nat.
Proof. apply (scanstring_spec (String.length s) s (le_n _)). Qed.

Lemma scan_fuel f :
  fuel_independent (fun f (_ : unit) s => scan_once f s) f /\
  fuel_independent object_members f /\
  fuel_independent array_elements f.
Proof.
  induction f as [|f (IHv & IHo & IHa)].
  { repeat split; discriminate. }
  assert (fuel_independent (fun f (_ : unit) s => scan_once f s) (S f)) as Hv.
  { intros [] s v r. cbn beta. destruct s as [|c r0]; [discriminate|].
    cbn [scan_once]. pose proof (skip_ws_length r0) as Hws.
    destruct (c =? dquote)%char eqn:Eq.
    { destruct (scanstring (String.length r0) r0) as [[body rest]|] eqn:E;
        [|discriminate].
      pose proof (scanstring_length _ _ _ E) as Hl.
      intros H; injection H as <- <-.
      split; [cbn [String.length]; lia|].
      intros [|F] HF; [cbn [String.length] in HF; lia|].
      cbn [scan_once]. now rewrite Eq, E. }
    destruct (c =? "{")%char eqn:Eo.
    { destruct (skip_ws r0) as [|c1 r1] eqn:Es; [discriminate|].
      cbn [String.length] in Hws.
      destruct (c1 =? "}")%char eqn:Ec.
      { intros H; injection H as <- <-. split; [cbn [String.length]; lia|].
        intros [|F] HF; [cbn [String.length] in HF; lia|].
        cbn [scan_once]. now rewrite Eq, Eo, Es, Ec. }
      destruct (c1 =? dquote)%char eqn:Ed; [|discriminate].
      intros H. destruct (IHo _ _ _ _ H) as [Hlen Hfuel].
      split; [cbn [String.length]; lia|].
      intros [|F] HF; [cbn [String.length] in HF; lia|].
      cbn [scan_once]. rewrite Eq, Eo, Es, Ec, Ed.
      apply Hfuel. cbn [String.length] in HF. lia. }
    destruct (c =? "[")%char eqn:Ea.
    { destruct (skip_ws r0) as [|c1 r1] eqn:Es; [discriminate|].
      cbn [String.length] in Hws.
      destruct (c1 =? "]")%char eqn:Ec.
      { intros H; injection H as <- <-. split; [cbn [String.length]; lia|].
        intros [|F] HF; [cbn [String.length] in HF; lia|].
        cbn [scan_once]. now rewrite Eq, Eo, Ea, Es, Ec. }
      intros H. destruct (IHa _ _ _ _ H) as [Hlen Hfuel].
      cbn [String.length] in Hlen.
      split; [cbn [String.length]; lia|].
      intros [|F] HF; [cbn [String.length] in HF; lia|].
      cbn [scan_once]. rewrite Eq, Eo, Ea, Es, Ec.
      apply Hfuel. cbn [String.length] in HF |- *. lia. }
    intros H. pose proof (scan_literal_length _ _ _ H) as Hlen.
    split; [exact Hlen|]. intros [|F] HF; [lia|].
    cbn [scan_once]. now rewrite Eq, Eo, Ea. }
  split; [exact Hv|]. split.
  - intros acc s v r. cbn [object_members].
    destruct (scanstring (String.length s) s) as [[key s1]|] eqn:Ek;
      [|discriminate].
    pose proof (scanstring_length _ _ _ Ek) as Hk.
    pose proof (skip_ws_length s1) as Hw1.
    destruct (skip_ws s1) as [|colon s2] eqn:E1; [discriminate|].
    cbn [String.length] in Hw1.
    destruct (colon =? ":")%char eqn:Ecolon; [|discriminate].
    pose proof (skip_ws_length s2) as Hw2.
    destruct (scan_once f (skip_ws s2)) as [[v0 s3]|] eqn:Ev; [|discriminate].
    destruct (IHv tt _ _ _ Ev) as [Hlen3 Hfuel3]. cbn beta in Hfuel3.
    pose proof (skip_ws_length s3) as Hw3.
    destruct (skip_ws s3) as [|c r1] eqn:E3; [discriminate|].
    cbn [String.length] in Hw3.
    destruct (c =? "}")%char eqn:Ec.
    + intros H; injection H as <- <-. split; [lia|].
      intros [|F] HF; [lia|]. cbn [object_members].
      rewrite Ek, E1, Ecolon, (Hfuel3 F ltac:(lia)), E3, Ec. reflexivity.
    + destruct (c =? ",")%char eqn:Ecomma; [|discriminate].
      pose proof (skip_ws_length r1) as Hw4.
      destruct (skip_ws r1) as [|q r'] eqn:E4; [discriminate|].
      cbn [String.length] in Hw4.
      destruct (q =? dquote)%char eqn:Edq; [|discriminate].
      intros H. destruct (IHo _ _ _ _ H) as [Hlen Hfuel].
      split; [lia|]. intros [|F] HF; [lia|]. cbn [object_members].
      rewrite Ek, E1, Ecolon, (Hfuel3 F ltac:(lia)), E3, Ec, Ecomma, E4, Edq.
      apply Hfuel. lia.
  - intros acc s v r. cbn [array_elements].
    destruct (scan_once f s) as [[v0 s1]|] eqn:Ev; [|discriminate].
    destruct (IHv tt _ _ _ Ev) as [Hlen1 Hfuel1]. cbn beta in Hfuel1.
    pose proof (skip_ws_length s1) as Hw1.
    destruct (skip_ws s1) as [|c r1] eqn:E1; [discriminate|].
    cbn [String.length] in Hw1.
    destruct (c =? "]")%char eqn:Ec.
    + intros H; injection H as <- <-. split; [lia|].
      intros [|F] HF; [lia|]. cbn [array_elements].
      rewrite (Hfuel1 F ltac:(lia)), E1, Ec. reflexivity.
    + destruct (c =? ",")%char eqn:Ecomma; [|discriminate].
      pose proof (skip_ws_length r1) as Hw2.
      intros H. destruct (IHa _ _ _ _ H) as [Hlen Hfuel].
      split; [lia|]. intros [|F] HF; [lia|]. cbn [array_elements].
      rewrite (Hfuel1 F ltac:(lia)), E1, Ec, Ecomma.
      apply Hfuel. lia.
Qed.

(** [json_loads] fails only on texts that no amount of fuel decodes. *)
Lemma json_loads_fuel s f v rest :
  scan_once f (skip_ws s) = Some (v, rest) ->
  scan_once (2 * String.length s + 2) (skip_ws s) = Some (v, rest).
Proof.
  intros H. destruct (scan_fuel f) as (Hv & _).
  destruct (Hv tt _ _ _ H) as [_ Hfuel]. apply Hfuel.
  pose proof (skip_ws_length s). lia.
Qed.

(** ** What is written is read back *)

Lemma append_assoc (a b c : string) : (a ++ b) ++ c = a ++ (b ++ c).
Proof. induction a as [|x a IH]; cbn; [reflexivity|now rewrite IH]. Qed.

Lemma append_nil_r (a : string) : a ++ "" = a.
Proof. induction a as [|x a IH]; cbn; [reflexivity|now rewrite IH]. Qed.

Lemma span_digits_spec s : forall ds r,
  span_digits s = (ds, r) ->
  s = ds ++ r /\ all_digits ds = true /\ not_ahead is_digit r = true.
Proof.
  induction s as [|c s IH]; intros ds r; cbn [span_digits].
  - intros H; injection H as <- <-. auto.
  - destruct (is_digit c) eqn:Ec.
    + destruct (span_digits s) as [ds' r'].
      intros H; injection H as <- <-.
      destruct (IH _ _ eq_refl) as (-> & Hd & Hr).
      cbn. rewrite Ec, Hd. auto.
    + intros H; injection H as <- <-. cbn. rewrite Ec. auto.
Qed.

Lemma span_digits_app ds : forall r,
  all_digits ds = true -> not_ahead is_digit r = true ->
  span_digits (ds ++ r) = (ds, r).
Proof.
  induction ds as [|c ds IH]; intros r Hd Hr; cbn [append].
  - destruct r as [|c r]; [reflexivity|]. cbn in Hr |- *.
    destruct (is_digit c); [discriminate|reflexivity].
  - cbn in Hd. apply andb_prop in Hd as [Hc Hd].
    cbn [span_digits]. rewrite Hc, (IH r Hd Hr). reflexivity.
Qed.

Lemma eqb_empty (s : string) : (s =? "")%string = true <-> s = "".
Proof. apply String.eqb_eq. Qed.

Lemma take_sign_spec s sign r :
  take_sign s = (sign, r) -> s = sign ++ r /\ sign_part sign = true.
Proof.
  destruct s as [|c s]; cbn.
  - intros H; injection H as <- <-. auto.
  - destruct (c =? "-")%char eqn:E.
    + apply Ascii.eqb_eq in E as ->. intros H; injection H as <- <-. auto.
    + intros H; injection H as <- <-. auto.
Qed.

Lemma take_int_spec s ip r :
  take_int s = Some (ip, r) -> s = ip ++ r /\ int_part ip = true.
Proof.
  destruct s as [|c s]; cbn [take_int]; [discriminate|].
  destruct (is_digit c) eqn:Ed; [|discriminate].
  destruct (c =? "0")%char eqn:Ez.
  - apply Ascii.eqb_eq in Ez as ->. intros H; injection H as <- <-. auto.
  - destruct (span_digits s) as [ds r'] eqn:Es.
    intros H; injection H as <- <-.
    destruct (span_digits_spec _ _ _ Es) as (-> & Hd & _).
    cbn. rewrite Ed, Ez, Hd. auto.
Qed.

Lemma take_frac_spec s fp r :
  take_frac s = (fp, r) -> s = fp ++ r /\ frac_part fp = true.
Proof.
  destruct s as [|c s]; cbn [take_frac].
  - intros H; injection H as <- <-. auto.
  - destruct (c =? ".")%char eqn:Ec.
    + destruct (span_digits s) as [ds r'] eqn:Es.
      destruct (ds =? "")%string eqn:Ee.
      * intros H; injection H as <- <-. auto.
      * intros H; injection H as <- <-.
        destruct (span_digits_spec _ _ _ Es) as (-> & Hd & _).
        cbn. rewrite Ec, Ee, Hd. auto.
    + intros H; injection H as <- <-. auto.
Qed.

Lemma take_exp_spec s ep r :
  take_exp s = (ep, r) -> s = ep ++ r /\ exp_part ep = true.
Proof.
  destruct s as [|e s]; cbn [take_exp].
  - intros H; injection H as <- <-. auto.
  - fold (is_exp_mark e). destruct (is_exp_mark e) eqn:Ee.
    + destruct s as [|g x].
      * cbn. intros H; injection H as <- <-. auto.
      * fold (is_exp_sign g). destruct (is_exp_sign g) eqn:Eg.
        -- destruct (span_digits x) as [ds r'] eqn:Es.
           destruct (ds =? "")%string eqn:En.
           ++ intros H; injection H as <- <-. auto.
           ++ intros H; injection H as <- <-.
              destruct (span_digits_spec _ _ _ Es) as (-> & Hd & _).
              cbn [append exp_part]. rewrite Ee, Eg, En, Hd. auto.
        -- destruct (span_digits (String g x)) as [ds r'] eqn:Es.
           destruct (ds =? "")%string eqn:En.
           ++ intros H; injection H as <- <-. auto.
           ++ intros H; injection H as <- <-.
              destruct (span_digits_spec _ _ _ Es) as (E & Hd & _).
              destruct ds as [|g' ds]; [discriminate|].
              cbn [append] in E. injection E as <- ->.
              cbn [append exp_part]. rewrite Ee, Eg. cbn [append].
              rewrite Hd. auto.
    + intros H; injection H as <- <-. auto.
Qed.

Lemma take_sign_app sign r :
  sign_part sign = true -> not_ahead (fun c => (c =? "-")%char) r = true ->
  take_sign (sign ++ r) = (sign, r).
Proof.
  unfold sign_part. intros Hs Hr. apply orb_prop in Hs as [Hs|Hs];
    apply String.eqb_eq in Hs; subst sign; cbn [append].
  - destruct r as [|c r]; [reflexivity|]. cbn in Hr |- *.
    destruct (c =? "-")%char; [discriminate|reflexivity].
  - reflexivity.
Qed.

Lemma take_int_app ip r :
  int_part ip = true -> (ip = "0" \/ not_ahead is_digit r = true) ->
  take_int (ip ++ r) = Some (ip, r).
Proof.
  destruct ip as [|c ds]; [discriminate|]. cbn [int_part append take_int].
  intros H Hr. apply andb_prop in H as [Hc H]. rewrite Hc.
  destruct (c =? "0")%char eqn:Ez.
  - apply String.eqb_eq in H as ->. apply Ascii.eqb_eq in Ez as ->. reflexivity.
  - destruct Hr as [Hr|Hr].
    + injection Hr as -> _. discriminate.
    + rewrite (span_digits_app ds r H Hr). reflexivity.
Qed.

Lemma take_frac_app fp r :
  frac_part fp = true ->
  (if (fp =? "")%string then not_ahead (fun c => (c =? ".")%char) r
   else not_ahead is_digit r) = true ->
  take_frac (fp ++ r) = (fp, r).
Proof.
  destruct fp as [|c ds]; cbn [frac_part append String.eqb].
  - intros _ Hr. destruct r as [|c r]; [reflexivity|]. cbn in Hr |- *.
    destruct (c =? ".")%char; [discriminate|reflexivity].
  - intros H Hr. apply andb_prop in H as [H Hd]. apply andb_prop in H as [Hc Hn].
    cbn [take_frac]. rewrite Hc, (span_digits_app ds r Hd Hr).
    destruct (ds =? "")%string; [discriminate|reflexivity].
Qed.

Lemma take_exp_app ep r :
  exp_part ep = true ->
  (if (ep =? "")%string then not_ahead is_exp_mark r
   else not_ahead is_digit r) = true ->
  take_exp (ep ++ r) = (ep, r).
Proof.
  destruct ep as [|e x]; cbn [exp_part append String.eqb].
  - intros _ Hr. destruct r as [|c r]; [reflexivity|]. cbn in Hr |- *.
    fold (is_exp_mark c). destruct (is_exp_mark c); [discriminate|reflexivity].
  - intros H Hr. apply andb_prop in H as [He H].
    cbn [take_exp]. fold (is_exp_mark e). rewrite He.
    destruct x as [|g ds]; [discriminate|]. cbn [append].
    fold (is_exp_sign g). destruct (is_exp_sign g) eqn:Eg.
    + apply andb_prop in H as [Hn Hd].
      rewrite (span_digits_app ds r Hd Hr).
      destruct (ds =? "")%string; [discriminate|reflexivity].
    + change (String g (ds ++ r)) with (String g ds ++ r).
      rewrite (span_digits_app (String g ds) r H Hr). reflexivity.
Qed.

Lemma match_number_spec s v r :
  match_number s = Some (v, r) ->
  exists sign ip fp ep,
    s = sign ++ ip ++ fp ++ ep ++ r /\
    number_parts sign ip fp ep = true /\
    v = number_value sign ip fp ep.
Proof.
  unfold match_number.
  destruct (take_sign s) as [sign s1] eqn:E1.
  destruct (take_int s1) as [[ip s2]|] eqn:E2; [|discriminate].
  destruct (take_frac s2) as [fp s3] eqn:E3.
  destruct (take_exp s3) as [ep s4] eqn:E4.
  apply take_sign_spec in E1 as (-> & H1).
  apply take_int_spec in E2 as (-> & H2).
  apply take_frac_spec in E3 as (-> & H3).
  apply take_exp_spec in E4 as (-> & H4).
  intros H. exists sign, ip, fp, ep. unfold number_parts, number_value.
  rewrite H1, H2, H3, H4.
  destruct ((fp =? "")%string && (ep =? "")%string);
    injection H as <- <-; auto.
Qed.

Lemma digit_not_sign c : is_digit c = true -> (c =? "-")%char = false.
Proof.
  intros H. destruct (c =? "-")%char eqn:E; [|reflexivity].
  apply Ascii.eqb_eq in E as ->. discriminate.
Qed.

Lemma digit_not_point c : is_digit c = true -> (c =? ".")%char = false.
Proof.
  intros H. destruct (c =? ".")%char eqn:E; [|reflexivity].
  apply Ascii.eqb_eq in E as ->. discriminate.
Qed.

Lemma point_not_digit c : (c =? ".")%char = true -> is_digit c = false.
Proof. intros E. apply Ascii.eqb_eq in E as ->. reflexivity. Qed.

Lemma exp_mark_not_digit c : is_exp_mark c = true -> is_digit c = false.
Proof.
  unfold is_exp_mark. intros E. apply orb_prop in E as [E|E];
    apply Ascii.eqb_eq in E as ->; reflexivity.
Qed.

Lemma exp_mark_not_point c : is_exp_mark c = true -> (c =? ".")%char = false.
Proof.
  unfold is_exp_mark. intros E. apply orb_prop in E as [E|E];
    apply Ascii.eqb_eq in E as ->; reflexivity.
Qed.

Lemma ends_number_ahead rest :
  ends_number rest = true ->
  not_ahead is_digit rest = true /\
  not_ahead (fun c => (c =? ".")%char) rest = true /\
  not_ahead is_exp_mark rest = true.
Proof.
  destruct rest as [|c r]; [auto|]. cbn.
  destruct (is_digit c), (c =? ".")%char, (is_exp_mark c); cbn; auto.
Qed.

Lemma match_number_app sign ip fp ep rest :
  number_parts sign ip fp ep = true ->
  ends_number rest = true ->
  match_number (sign ++ ip ++ fp ++ ep ++ rest)
  = Some (number_value sign ip fp ep, rest).
Proof.
  unfold number_parts. intros H Hrest.
  apply andb_prop in H as [H H4]. apply andb_prop in H as [H H3].
  apply andb_prop in H as [H1 H2].
  destruct (ends_number_ahead rest Hrest) as (Rd & Rp & Re).
  unfold match_number.
  rewrite take_sign_app; [|exact H1|].
  2:{ destruct ip as [|c ds]; [discriminate|]. cbn in H2 |- *.
      apply andb_prop in H2 as [Hc _]. now rewrite (digit_not_sign c Hc). }
  (* what follows the exponent, the fraction, the integer part *)
  assert (not_ahead is_digit (ep ++ rest) = true) as Ed.
  { destruct ep as [|e x]; [exact Rd|]. cbn in H4 |- *.
    apply andb_prop in H4 as [He _]. now rewrite (exp_mark_not_digit e He). }
  assert (not_ahead (fun c => (c =? ".")%char) (ep ++ rest) = true) as Ep.
  { destruct ep as [|e x]; [exact Rp|]. cbn in H4 |- *.
    apply andb_prop in H4 as [He _]. now rewrite (exp_mark_not_point e He). }
  assert (not_ahead is_digit (fp ++ ep ++ rest) = true) as Fd.
  { destruct fp as [|c ds]; [exact Ed|]. cbn in H3 |- *.
    apply andb_prop in H3 as [H3 _]. apply andb_prop in H3 as [Hc _].
    now rewrite (point_not_digit c Hc). }
  rewrite take_int_app; [|exact H2|now right].
  rewrite take_frac_app; [|exact H3|].
  2:{ destruct (fp =? "")%string; assumption. }
  rewrite take_exp_app; [|exact H4|].
  2:{ destruct (ep =? "")%string; assumption. }
  unfold number_value.
  destruct ((fp =? "")%string && (ep =? "")%string); reflexivity.
Qed.

Lemma digits_acc d : forall a,
  Z_of_digits (Z.pos a) (NilEmpty.string_of_uint d)
  = Z.pos (Pos.of_uint_acc d a).
Proof.
  induction d; intros a;
    cbn [NilEmpty.string_of_uint Z_of_digits Pos.of_uint_acc];
    [reflexivity|..]; rewrite <- IHd; f_equal;
    match goal with
    | |- context [N_of_ascii ?c] =>
        let v := eval vm_compute in (N_of_ascii c) in
        change (N_of_ascii c) with v
    end; lia.
Qed.

Lemma digits_zero d :
  Z_of_digits 0 (NilEmpty.string_of_uint d) = Z.of_N (Pos.of_uint d).
Proof.
  induction d; cbn [NilEmpty.string_of_uint Z_of_digits Pos.of_uint];
    [reflexivity|exact IHd|..]; cbn [Z.of_N]; rewrite <- digits_acc;
    reflexivity.
Qed.

Lemma all_digits_uint d : all_digits (NilEmpty.string_of_uint d) = true.
Proof. induction d; cbn; auto. Qed.

(** The decimal digits of a positive number start with a nonzero digit. *)
Lemma to_uint_head p :
  Pos.to_uint p <> Decimal.Nil /\ forall d, Pos.to_uint p <> Decimal.D0 d.
Proof.
  split; [apply DecimalPos.Unsigned.to_uint_nonnil|]. intros d E.
  pose proof (DecimalPos.Unsigned.to_of (Pos.to_uint p)) as H.
  rewrite DecimalPos.Unsigned.of_to in H. cbn [N.to_uint] in H.
  assert (Decimal.nzhead (Pos.to_uint p) <> Decimal.Nil) as Hnz.
  { intros Hn. apply DecimalFacts.unorm_0 in Hn. rewrite <- H in Hn.
    now apply (DecimalPos.Unsigned.to_uint_nonzero p). }
  rewrite (DecimalFacts.unorm_nzhead _ Hnz) in H.
  rewrite E in H at 1. symmetry in H. now apply DecimalFacts.nzhead_nonzero in H.
Qed.

Lemma str_of_pos_shape p :
  int_part (NilZero.string_of_uint (Pos.to_uint p)) = true /\
  Z_of_digits 0 (NilZero.string_of_uint (Pos.to_uint p)) = Z.pos p.
Proof.
  destruct (to_uint_head p) as [Hnil Hzero].
  assert (NilZero.string_of_uint (Pos.to_uint p)
          = NilEmpty.string_of_uint (Pos.to_uint p)) as ->.
  { destruct (Pos.to_uint p); [congruence|reflexivity..]. }
  split.
  - destruct (Pos.to_uint p) as [|d|d|d|d|d|d|d|d|d|d];
      [congruence|now elim (Hzero d)|..];
      cbn [NilEmpty.string_of_uint int_part]; apply all_digits_uint.
  - now rewrite digits_zero, DecimalPos.Unsigned.of_to.
Qed.

Lemma str_of_Z_shape z :
  exists sign ip,
    str_of_Z z = sign ++ ip /\
    number_parts sign ip "" "" = true /\
    number_value sign ip "" "" = JInt z.
Proof.
  unfold str_of_Z, number_parts, number_value.
  destruct z as [|p|p]; cbn [Z.to_int NilZero.string_of_int].
  - exists "", "0". auto.
  - destruct (str_of_pos_shape p) as [Hi Hv].
    exists "", (NilZero.string_of_uint (Pos.to_uint p)).
    rewrite Hi, Hv. auto.
  - destruct (str_of_pos_shape p) as [Hi Hv].
    exists "-", (NilZero.string_of_uint (Pos.to_uint p)).
    rewrite Hi, Hv. auto.
Qed.

(** A number the encoder wrote is read back as written. *)
Lemma match_number_int z rest :
  ends_number rest = true ->
  match_number (str_of_Z z ++ rest) = Some (JInt z, rest).
Proof.
  intros Hrest. destruct (str_of_Z_shape z) as (sign & ip & -> & Hp & <-).
  rewrite append_assoc.
  exact (match_number_app sign ip "" "" rest Hp Hrest).
Qed.

Lemma str_of_Z_head z :
  exists c r, str_of_Z z = String c r /\
              (is_digit c = true \/ c = "-"%char).
Proof.
  destruct (str_of_Z_shape z) as (sign & ip & -> & Hp & _).
  unfold number_parts in Hp. rewrite !andb_true_r in Hp.
  apply andb_prop in Hp as [Hs Hi].
  destruct ip as [|c ds]; [discriminate|]. cbn in Hi.
  apply andb_prop in Hi as [Hc _].
  apply orb_prop in Hs as [Hs|Hs]; apply String.eqb_eq in Hs as ->; cbn; eauto.
Qed.

Lemma scanstring_char c f tail :
  scanstring (S f) (escape_char c ++ tail)
  = prepend (String c "") (scanstring f tail).
Proof. destruct c as [[] [] [] [] [] [] [] []]; reflexivity. Qed.

Lemma escape_char_length c : (1 <= String.length (escape_char c))%nat.
Proof. destruct c as [[] [] [] [] [] [] [] []]; cbn; lia. Qed.

Lemma length_append (a b : string) :
  String.length (a ++ b) = (String.length a + String.length b)%nat.
Proof. induction a as [|c a IH]; cbn; [reflexivity|now rewrite IH]. Qed.

Lemma scanstring_escape s : forall F rest,
  (String.length (escape_body s) < F)%nat ->
  scanstring F (escape_body s ++ String dquote rest) = Some (s, rest).
Proof.
  induction s as [|c s IH]; intros F rest HF.
  - destruct F as [|f]; [cbn in HF; lia|]. reflexivity.
  - cbn [escape_body] in HF |- *. rewrite length_append in HF.
    pose proof (escape_char_length c).
    destruct F as [|f]; [lia|].
    rewrite append_assoc, scanstring_char, IH by lia. reflexivity.
Qed.

Lemma encode_string_app k rest :
  encode_string k ++ rest = String dquote (escape_body k ++ String dquote rest).
Proof.
  unfold encode_string, quoted. cbn [append]. now rewrite append_assoc.
Qed.

Lemma number_head_dispatch c :
  number_head c = true ->
  (c =? dquote)%char = false /\ (c =? "{")%char = false /\
  (c =? "[")%char = false /\ ("n" =? c)%char = false /\
  ("t" =? c)%char = false /\ ("f" =? c)%char = false /\
  is_ws c = false /\ (c =? "]")%char = false.
Proof.
  destruct c as [[] [] [] [] [] [] [] []]; try discriminate;
    intros _; repeat split; reflexivity.
Qed.

Lemma number_parts_head sign ip fp ep tail :
  number_parts sign ip fp ep = true ->
  exists c r, sign ++ ip ++ tail = String c r /\ number_head c = true.
Proof.
  unfold number_parts. intros H.
  apply andb_prop in H as [H _]. apply andb_prop in H as [H _].
  apply andb_prop in H as [Hs Hi].
  destruct ip as [|c ds]; [discriminate|]. cbn in Hi.
  apply andb_prop in Hi as [Hc _]. unfold number_head.
  apply orb_prop in Hs as [Hs|Hs]; apply String.eqb_eq in Hs as ->;
    cbn [append]; eexists; eexists; (split; [reflexivity|]).
  - now rewrite Hc.
  - reflexivity.
Qed.

(** A number at the head of the text is what [scan_once] returns. *)
Lemma scan_once_number f s res :
  (exists c r, s = String c r /\ number_head c = true) ->
  match_number s = Some res ->
  scan_once (S f) s = Some res.
Proof.
  intros (c & r & -> & Hc) Hm.
  destruct (number_head_dispatch c Hc) as (Hq & Ho & Ha & Hn & Ht & Hf & _).
  cbn [scan_once]. rewrite Hq, Ho, Ha. unfold scan_literal.
  cbn [strip_prefix]. rewrite Hn, Ht, Hf, Hm. reflexivity.
Qed.

Lemma float_literal_cases lit :
  float_literal lit = true ->
  lit = "NaN" \/ lit = "Infinity" \/ lit = "-Infinity" \/
  exists sign ip fp ep,
    lit = sign ++ ip ++ fp ++ ep /\
    number_parts sign ip fp ep = true /\
    number_value sign ip fp ep = JFloat lit.
Proof.
  unfold float_literal. intros H.
  destruct (lit =? "NaN")%string eqn:E1; [apply String.eqb_eq in E1; auto|].
  destruct (lit =? "Infinity")%string eqn:E2;
    [apply String.eqb_eq in E2; auto|].
  destruct (lit =? "-Infinity")%string eqn:E3;
    [apply String.eqb_eq in E3; auto|].
  cbn [orb] in H. right. right. right.
  destruct (match_number lit) as [[v r]|] eqn:Em; [|discriminate].
  destruct v; try discriminate. destruct r; [|discriminate].
  apply String.eqb_eq in H as ->.
  destruct (match_number_spec _ _ _ Em) as (sign & ip & fp & ep & E & Hp & Hv).
  exists sign, ip, fp, ep. rewrite !append_nil_r in E. auto.
Qed.

Lemma scan_once_float lit rest f :
  float_literal lit = true -> ends_number rest = true ->
  scan_once (S f) (lit ++ rest) = Some (JFloat lit, rest).
Proof.
  intros Hl Hrest.
  destruct (float_literal_cases lit Hl)
    as [->|[->|[->|(sign & ip & fp & ep & -> & Hp & Hv)]]];
    [reflexivity..|].
  apply scan_once_number.
  - rewrite !append_assoc. apply (number_parts_head sign ip fp ep _ Hp).
  - rewrite <- Hv, !append_assoc. now apply match_number_app.
Qed.

Lemma scan_once_int z rest f :
  ends_number rest = true ->
  scan_once (S f) (str_of_Z z ++ rest) = Some (JInt z, rest).
Proof.
  intros Hrest. apply scan_once_number; [|now apply match_number_int].
  destruct (str_of_Z_shape z) as (sign & ip & -> & Hp & _).
  rewrite append_assoc. apply (number_parts_head sign ip "" "" _ Hp).
Qed.

Lemma skip_ws_no_space s : no_space_ahead s -> skip_ws s = s.
Proof. intros (c & r & -> & Hc & _). cbn. now rewrite Hc. Qed.

Lemma json_dumps_head v tail :
  decoded v = true -> no_space_ahead (json_dumps v ++ tail).
Proof.
  unfold no_space_ahead. destruct v as [|[]|z|lit|s|l|d]; cbn [json_dumps decoded];
    intros Hd; try (cbn; eexists; eexists; split; [reflexivity|split; reflexivity]).
  - destruct (str_of_Z_shape z) as (sign & ip & -> & Hp & _).
    rewrite append_assoc.
    destruct (number_parts_head sign ip "" "" tail Hp) as (c & r & E & Hc).
    rewrite E. exists c, r. split; [reflexivity|].
    apply (number_head_dispatch c Hc).
  - destruct (float_literal_cases lit Hd)
      as [->|[->|[->|(sign & ip & fp & ep & -> & Hp & Hv)]]];
      try (cbn; eexists; eexists; split; [reflexivity|split; reflexivity]).
    rewrite !append_assoc.
    destruct (number_parts_head sign ip fp ep (fp ++ ep ++ tail) Hp)
      as (c & r & E & Hc).
    rewrite E. exists c, r. split; [reflexivity|].
    apply (number_head_dispatch c Hc).
Qed.

(** *** Lists *)

Lemma concat_cons2 sep (x y : string) l :
  String.concat sep (x :: y :: l) = x ++ sep ++ String.concat sep (y :: l).
Proof. reflexivity. Qed.

Section Elements.
Variable P : json -> Prop.
Hypothesis P_scan : forall v, P v ->
  decoded v = true ->
  forall rest F,
    ends_number rest = true ->
    (2 * String.length (json_dumps v ++ rest) < F)%nat ->
    scan_once F (json_dumps v ++ rest) = Some (v, rest).

Lemma array_dumps l : Forall P l -> forallb decoded l = true -> l <> [] ->
  forall acc rest G,
    (2 * String.length (String.concat ", " (map json_dumps l)
                        ++ String "]" rest) + 2 <= G)%nat ->
    array_elements G acc
      (String.concat ", " (map json_dumps l) ++ String "]" rest)
    = Some (JList (acc ++ l), rest).
Proof.
  induction l as [|x l IH]; intros HP Hd Hne acc rest G HG; [congruence|].
  inversion HP as [|? ? Px Pl]; subst.
  cbn [forallb] in Hd. apply andb_prop in Hd as [Hx Hl].
  destruct G as [|g]; [lia|]. cbn [array_elements].
  destruct l as [|y l].
  - cbn [map String.concat] in HG |- *.
    rewrite (P_scan x Px Hx (String "]" rest) g eq_refl) by lia.
    reflexivity.
  - change (String.concat ", " (map json_dumps (x :: y :: l)))
      with (json_dumps x ++ ", " ++ String.concat ", " (map json_dumps (y :: l)))
      in HG |- *.
    rewrite !append_assoc in HG |- *. cbn [append] in HG |- *.
    rewrite !length_append in HG. cbn [String.length] in HG.
    rewrite (P_scan x Px Hx (String "," _) g eq_refl)
      by (rewrite !length_append; cbn [String.length]; lia).
    cbn [skip_ws is_ws Ascii.eqb Bool.eqb orb].
    rewrite skip_ws_no_space.
    2:{ cbn [forallb] in Hl. apply andb_prop in Hl as [Hy _].
        destruct l; cbn [map].
        - now apply json_dumps_head.
        - rewrite concat_cons2, append_assoc. now apply json_dumps_head. }
    rewrite IH; [now rewrite <- app_assoc|exact Pl|exact Hl|discriminate|].
    lia.
Qed.
End Elements.

(** *** Dicts *)

Lemma dict_get_app_none k (a b : list (string * json)) :
  dict_get k (a ++ b) = None -> dict_get k a = None /\ dict_get k b = None.
Proof.
  induction a as [|[k0 x0] a IH]; cbn [app dict_get]; [auto|].
  destruct (k0 =? k)%string; [discriminate|exact IH].
Qed.

Lemma distinct_keys_fresh acc k x d :
  distinct_keys (acc ++ (k, x) :: d) = true -> dict_get k acc = None.
Proof.
  induction acc as [|[k0 x0] acc IH]; cbn [app distinct_keys dict_get];
    [reflexivity|].
  intros H. apply andb_prop in H as [H0 H].
  destruct (dict_get k0 (acc ++ (k, x) :: d)) eqn:E; [discriminate|].
  apply dict_get_app_none in E as [_ E]. cbn [dict_get] in E.
  destruct (k =? k0)%string eqn:Ek; [discriminate|].
  rewrite String.eqb_sym, Ek. now apply IH.
Qed.

Lemma dict_set_fresh k x acc :
  dict_get k acc = None -> dict_set k x acc = (acc ++ [(k, x)])%list.
Proof.
  induction acc as [|[k0 x0] acc IH]; cbn [dict_get dict_set app];
    [reflexivity|].
  destruct (k0 =? k)%string; [discriminate|]. intros H. now rewrite IH.
Qed.

Lemma members_text d rest :
  d <> [] ->
  String.concat ", " (map member_text d) ++ String "}" rest
  = String dquote (members_tail d rest).
Proof.
  induction d as [|[k x] d IH]; intros Hne; [congruence|].
  destruct d as [|kv d].
  - cbn [map String.concat member_text members_tail].
    now rewrite !append_assoc, encode_string_app.
  - cbn [map]. rewrite concat_cons2. cbn [member_text].
    rewrite !append_assoc, encode_string_app.
    cbn [map] in IH. rewrite IH by discriminate.
    reflexivity.
Qed.

Section Members.
Variable P : json -> Prop.
Hypothesis P_scan : forall v, P v ->
  decoded v = true ->
  forall rest F,
    ends_number rest = true ->
    (2 * String.length (json_dumps v ++ rest) < F)%nat ->
    scan_once F (json_dumps v ++ rest) = Some (v, rest).

Lemma object_dumps d :
  Forall (fun kv : string * json => P (snd kv)) d ->
  forallb (fun kv : string * json => let (_, x) := kv in decoded x) d = true ->
  d <> [] ->
  forall acc rest G,
    distinct_keys (acc ++ d) = true ->
    (2 * String.length (members_tail d rest) + 2 <= G)%nat ->
    object_members G acc (members_tail d rest)
    = Some (JObject (acc ++ d), rest).
Proof.
  induction d as [|[k x] d IH]; intros HP Hd Hne acc rest G Hk HG;
    [congruence|].
  inversion HP as [|? ? Px Pd]; subst. cbn [snd] in Px.
  cbn [forallb] in Hd. apply andb_prop in Hd as [Hx Hd].
  pose proof (distinct_keys_fresh acc k x d Hk) as Hfresh.
  destruct G as [|g]; [lia|].
  cbn [object_members members_tail] in HG |- *.
  rewrite scanstring_escape
    by (rewrite length_append; cbn [String.length]; lia).
  rewrite length_append in HG. cbn [append String.length] in HG.
  cbn [append skip_ws is_ws Ascii.eqb Bool.eqb orb].
  rewrite (skip_ws_no_space (json_dumps x ++ _))
    by now apply json_dumps_head.
  rewrite length_append in HG.
  destruct d as [|kv d].
  - rewrite (P_scan x Px Hx (String "}" rest) g eq_refl)
      by (rewrite length_append; cbn [String.length] in *; lia).
    cbn [skip_ws is_ws Ascii.eqb Bool.eqb orb].
    now rewrite (dict_set_fresh k x acc Hfresh).
  - cbn [append] in HG |- *. cbn [String.length] in HG.
    rewrite (P_scan x Px Hx (String "," _) g eq_refl)
      by (rewrite length_append; cbn [String.length]; lia).
    cbn [skip_ws is_ws Ascii.eqb Bool.eqb orb].
    rewrite (dict_set_fresh k x acc Hfresh).
    change (is_ws dquote) with false. cbn iota. rewrite Ascii.eqb_refl.
    rewrite IH; [now rewrite <- app_assoc|exact Pd|exact Hd|discriminate| |lia].
    now rewrite <- app_assoc.
Qed.
End Members.

(** *** Every decoded value is read back as it was written *)

Lemma scan_dumps v :
  decoded v = true ->
  forall rest F,
    ends_number rest = true ->
    (2 * String.length (json_dumps v ++ rest) < F)%nat ->
    scan_once F (json_dumps v ++ rest) = Some (v, rest).
Proof.
  induction v as [|b|z|lit|s|l IH|d IH] using json_induction;
    intros Hd rest F Hrest HF; (destruct F as [|f]; [lia|]).
  - reflexivity.
  - destruct b; reflexivity.
  - now apply scan_once_int.
  - now apply scan_once_float.
  - cbn [json_dumps]. rewrite encode_string_app. cbn [scan_once].
    rewrite Ascii.eqb_refl, scanstring_escape; [reflexivity|].
    rewrite length_append. cbn [String.length]. lia.
  - destruct l as [|x l]; [reflexivity|].
    cbn [json_dumps decoded] in Hd, HF |- *.
    rewrite !append_assoc in HF |- *. cbn [append] in HF |- *.
    cbn [String.length] in HF. cbn [scan_once Ascii.eqb Bool.eqb].
    assert (no_space_ahead
              (String.concat ", " (map json_dumps (x :: l)) ++ String "]" rest))
      as Hhead.
    { cbn [forallb] in Hd. apply andb_prop in Hd as [Hx _].
      destruct l; cbn [map].
      - now apply json_dumps_head.
      - rewrite concat_cons2, append_assoc. now apply json_dumps_head. }
    rewrite (skip_ws_no_space _ Hhead).
    pose proof (array_dumps _ (fun v H => H) (x :: l) IH Hd
                  ltac:(discriminate) [] rest f) as Ha.
    destruct Hhead as (c & r & E & _ & Hc). rewrite E in Ha, HF |- *.
    rewrite Hc. apply Ha. lia.
  - destruct d as [|kv d]; [reflexivity|].
    cbn [decoded] in Hd. apply andb_prop in Hd as [Hk Hd].
    change (json_dumps (JObject (kv :: d)))
      with ("{" ++ String.concat ", " (map member_text (kv :: d)) ++ "}")
      in HF |- *.
    rewrite !append_assoc in HF |- *. cbn [append] in HF |- *.
    rewrite members_text in HF |- * by discriminate.
    cbn [String.length] in HF.
    cbn [scan_once skip_ws is_ws Ascii.eqb Bool.eqb orb].
    apply (object_dumps _ (fun v H => H) (kv :: d) IH Hd
             ltac:(discriminate) [] rest f Hk). lia.
Qed.

Theorem json_loads_dumps v :
  decoded v = true -> json_loads (json_dumps v) = Some v.
Proof.
  intros Hd. unfold json_loads.
  rewrite skip_ws_no_space.
  2:{ rewrite <- (append_nil_r (json_dumps v)). now apply json_dumps_head. }
  pose proof (scan_dumps v Hd "" (2 * String.length (json_dumps v) + 2)
                eq_refl) as H.
  rewrite append_nil_r in H. rewrite H by lia. reflexivity.
Qed.

(** *** Every value the decoder returns is a decoded value *)

Lemma match_number_decoded s v r :
  match_number s = Some (v, r) -> decoded v = true.
Proof.
  intros H.
  destruct (match_number_spec _ _ _ H) as (sign & ip & fp & ep & _ & Hp & ->).
  pose proof (match_number_app sign ip fp ep "" Hp eq_refl) as Hm.
  unfold number_value in Hm |- *.
  destruct ((fp =? "")%string && (ep =? "")%string); [reflexivity|].
  rewrite append_nil_r in Hm. rewrite <- !append_assoc in Hm.
  cbn [decoded]. unfold float_literal.
  rewrite <- !append_assoc, Hm, String.eqb_refl.
  now rewrite !orb_true_r.
Qed.

Lemma scan_literal_decoded s v r :
  scan_literal s = Some (v, r) -> decoded v = true.
Proof.
  unfold scan_literal.
  destruct (strip_prefix "null" s); [intros H; now injection H as <- _|].
  destruct (strip_prefix "true" s); [intros H; now injection H as <- _|].
  destruct (strip_prefix "false" s); [intros H; now injection H as <- _|].
  destruct (match_number s) as [[v0 r0]|] eqn:E.
  { intros H; injection H as <- _. exact (match_number_decoded _ _ _ E). }
  destruct (strip_prefix "NaN" s); [intros H; now injection H as <- _|].
  destruct (strip_prefix "Infinity" s); [intros H; now injection H as <- _|].
  destruct (strip_prefix "-Infinity" s); [intros H; now injection H as <- _|].
  discriminate.
Qed.

Lemma dict_get_set_none k0 k x d :
  (k0 =? k)%string = false -> dict_get k0 d = None ->
  dict_get k0 (dict_set k x d) = None.
Proof.
  intros Hk. induction d as [|[k1 x1] d IH]; cbn [dict_get dict_set].
  - intros _. now rewrite String.eqb_sym, Hk.
  - destruct (k1 =? k0)%string eqn:E1; [discriminate|]. intros H.
    destruct (k1 =? k)%string; cbn [dict_get]; rewrite E1; auto.
Qed.

Lemma dict_set_decoded k x d :
  decoded (JObject d) = true -> decoded x = true ->
  decoded (JObject (dict_set k x d)) = true.
Proof.
  cbn [decoded]. intros Hd Hx. apply andb_prop in Hd as [Hk Hv].
  induction d as [|[k1 x1] d IH]; cbn [dict_set].
  - cbn. now rewrite Hx.
  - cbn [distinct_keys forallb] in Hk, Hv.
    apply andb_prop in Hk as [Hk1 Hk]. apply andb_prop in Hv as [Hx1 Hv].
    destruct (dict_get k1 d) eqn:Eg; [discriminate|].
    destruct (k1 =? k)%string eqn:E1; cbn [distinct_keys forallb].
    + now rewrite Eg, Hk, Hx, Hv.
    + rewrite (dict_get_set_none k1 k x d E1 Eg), Hx1. exact (IH Hk Hv).
Qed.

Lemma scan_decoded f :
  (forall s v r, scan_once f s = Some (v, r) -> decoded v = true) /\
  (forall acc s v r,
     object_members f acc s = Some (v, r) ->
     decoded (JObject acc) = true -> decoded v = true) /\
  (forall acc s v r,
     array_elements f acc s = Some (v, r) ->
     decoded (JList acc) = true -> decoded v = true).
Proof.
  induction f as [|f (IHv & IHo & IHa)].
  { repeat split; discriminate. }
  split; [|split].
  - intros [|c r0] v r; [discriminate|]. cbn [scan_once].
    destruct (c =? dquote)%char.
    { destruct (scanstring _ r0) as [[body rest]|]; [|discriminate].
      intros H; now injection H as <- _. }
    destruct (c =? "{")%char.
    { destruct (skip_ws r0) as [|c1 r1]; [discriminate|].
      destruct (c1 =? "}")%char; [intros H; now injection H as <- _|].
      destruct (c1 =? dquote)%char; [|discriminate].
      intros H. now apply (IHo _ _ _ _ H). }
    destruct (c =? "[")%char.
    { destruct (skip_ws r0) as [|c1 r1]; [discriminate|].
      destruct (c1 =? "]")%char; [intros H; now injection H as <- _|].
      intros H. now apply (IHa _ _ _ _ H). }
    apply scan_literal_decoded.
  - intros acc s v r. cbn [object_members].
    destruct (scanstring _ s) as [[key s1]|]; [|discriminate].
    destruct (skip_ws s1) as [|colon s2]; [discriminate|].
    destruct (colon =? ":")%char; [|discriminate].
    destruct (scan_once f (skip_ws s2)) as [[v0 s3]|] eqn:Ev; [|discriminate].
    apply IHv in Ev.
    destruct (skip_ws s3) as [|c r1]; [discriminate|].
    destruct (c =? "}")%char.
    + intros H Hacc; injection H as <- _. now apply dict_set_decoded.
    + destruct (c =? ",")%char; [|discriminate].
      destruct (skip_ws r1) as [|q r']; [discriminate|].
      destruct (q =? dquote)%char; [|discriminate].
      intros H Hacc. apply (IHo _ _ _ _ H). now apply dict_set_decoded.
  - intros acc s v r. cbn [array_elements].
    destruct (scan_once f s) as [[v0 s1]|] eqn:Ev; [|discriminate].
    apply IHv in Ev.
    assert (decoded (JList acc) = true -> decoded (JList (acc ++ [v0])) = true)
      as Hacc'.
    { cbn [decoded]. intros Hacc. rewrite forallb_app, Hacc. cbn.
      now rewrite Ev. }
    destruct (skip_ws s1) as [|c r1]; [discriminate|].
    destruct (c =? "]")%char.
    + intros H Hacc; injection H as <- _. auto.
    + destruct (c =? ",")%char; [|discriminate].
      intros H Hacc. apply (IHa _ _ _ _ H). auto.
Qed.

Theorem json_loads_decoded s v : json_loads s = Some v -> decoded v = true.
Proof.
  unfold json_loads.
  destruct (scan_once _ (skip_ws s)) as [[v0 rest]|] eqn:E; [|discriminate].
  destruct (skip_ws rest); [|discriminate].
  intros H; injection H as <-.
  exact (proj1 (scan_decoded _) _ _ _ E).
Qed.

(** What is read, written and read again is what was read. *)
Corollary json_loads_dumps_loads s v :
  json_loads s = Some v -> json_loads (json_dumps v) = Some v.
Proof. intros H. apply json_loads_dumps. exact (json_loads_decoded s v H). Qed.

(** ** Traces only grow *)

Lemma synthesis_calls_cons e t :
  synthesis_calls (e :: t) = synthesis_calls t + (if is_synthesis e then 1 else 0).
Proof.
  unfold synthesis_calls; cbn [filter]. destruct (is_synthesis e); cbn [List.length]; lia.
Qed.

Lemma llm_call_ret w r t c t' :
  llm_call w r t = Ret c t' -> t' = ELlm r :: t /\ llm_invoke w (List.length t) r = Returns c.
Proof.
  unfold llm_call. destruct (llm_invoke w (List.length t) r); intros H; inv H; auto.
Qed.

Lemma missing_str_trace w m d t :
  trace_of (missing_str w m d t) = t.
Proof.
  unfold missing_str. destruct (truthy m); [destruct (py_iter m)|]; reflexivity.
Qed.

Lemma missing_str_ret w m d t x t' :
  missing_str w m d t = Ret x t' -> t' = t.
Proof.
  intros H. pose proof (missing_str_trace w m d t) as E. rewrite H in E. exact E.
Qed.

(** ** What each node does to the counters *)

Lemma init_node_frame w s c t s' t' :
  init_node w s c t = Ret s' t' ->
  iteration_count s' = iteration_count s /\
  document_versions s' = document_versions s /\
  max_iterations s' = max_iterations s /\
  messages s' = messages s /\
  t' = t /\
  ((path_exists w (repo_path s) = false /\ status s' = "error")
   \/ (path_exists w (repo_path s) = true /\ status s' = "initialized")).
Proof.
  unfold init_node. destruct (path_exists w (repo_path s)); cbn [negb].
  - destruct (get_directory_tree w (repo_path s)); intros H; inv H.
    cbn. intuition.
  - intros H; inv H. cbn. intuition.
Qed.

Lemma generate_doc_node_frame w s c t s' t' :
  generate_doc_node w s c t = Ret s' t' ->
  iteration_count s' = iteration_count s + 1 /\
  document_versions s' = (document_versions s ++ [current_document s'])%list /\
  max_iterations s' = max_iterations s /\
  messages s' = messages s /\
  status s' = "doc_generated" /\
  synthesis_calls t' = synthesis_calls t + 1.
Proof.
  unfold generate_doc_node, bind.
  destruct (iteration_count s =? 0).
  - unfold _generate_initial_doc.
    destruct (llm_call w _ t) as [doc t1|] eqn:E; intros H; inv H.
    apply llm_call_ret in E as [-> _]. rewrite synthesis_calls_cons. cbn. intuition.
  - unfold _update_document, bind.
    destruct (missing_str w _ _ t) as [ms t0|] eqn:E0; [|discriminate].
    apply missing_str_ret in E0 as ->.
    destruct (llm_call w _ t) as [doc t1|] eqn:E; intros H; inv H.
    apply llm_call_ret in E as [-> _]. rewrite synthesis_calls_cons. cbn. intuition.
Qed.

(** ** Dictionaries and the registry *)

Lemma dict_get_set_same k v d : dict_get k (dict_set k v d) = Some v.
Proof.
  induction d as [|[k' v'] d IH]; cbn.
  - now rewrite String.eqb_refl.
  - destruct (String.eqb_spec k' k) as [->|Hne]; cbn.
    + now rewrite String.eqb_refl.
    + destruct (String.eqb_spec k' k); [contradiction|exact IH].
Qed.

Lemma registered_Some tool name :
  registered tool = Some name -> tool = JString name /\ In name TOOL_REGISTRY.
Proof.
  destruct tool; cbn [registered]; try discriminate.
  destruct (existsb (String.eqb s) TOOL_REGISTRY) eqn:E; [|discriminate].
  intros H; inv H. split; [reflexivity|].
  apply existsb_exists in E as (x & Hin & Hx).
  apply String.eqb_eq in Hx. now subst.
Qed.

(** ** The dispatcher loop *)

(** The loop body never raises; it invokes the handler at most once, on
    arguments that carry the run's repository. *)
Lemma call_tool_ret w repo name args reason t :
  exists call entry t',
    call_tool w repo name args reason t = Ret (call, entry) t' /\
    tool_name call = name /\
    (t' = t /\ success call = false
     \/ exists d, args = JObject d /\
          let args' := JObject (dict_set "repo_path" (JString repo) d) in
          t' = ETool name args' :: t /\ arguments call = args' /\
          match tool_invoke w (List.length t) name args' with
          | Returns res =>
              success call = true /\ result call = py_take 2000 res /\
              entry = success_entry w name args' reason res
          | Throws e =>
              success call = false /\ result call = e /\
              entry = error_entry name e
          end).
Proof.
  unfold call_tool.
  destruct args; try (do 3 eexists; split; [reflexivity|]; cbn; split; [reflexivity|left; auto]).
  unfold bind, tool_try.
  destruct (tool_invoke w (List.length t) name _) eqn:E;
    do 3 eexists; (split; [reflexivity|]); cbn; (split; [reflexivity|]);
    right; eexists; (split; [reflexivity|]); rewrite E; auto.
Qed.

Lemma run_tools_trace w repo specs : forall calls results t,
  exists new,
    trace_of (run_tools w repo specs calls results t) = (new ++ t)%list /\
    Forall (engine_owned repo) new /\
    (List.length new <= List.length specs)%nat.
Proof.
  induction specs as [|spec rest IH]; intros calls results t; cbn [run_tools].
  - exists []. cbn. auto.
  - destruct spec as [| | | | |l|d];
      try (exists []; cbn; split; [reflexivity|split; [constructor|lia]]).
    destruct (hashable (get_default "tool" (JString "") d)); cbn [negb];
      [|exists []; cbn; split; [reflexivity|split; [constructor|lia]]].
    destruct (registered (get_default "tool" (JString "") d)) as [name|] eqn:R.
    + apply registered_Some in R as [_ Hin].
      unfold bind.
      destruct (call_tool_ret w repo name (get_default "args" (JObject []) d)
                  (get_default "reason" (JString "") d) t)
        as (call & entry & t' & -> & _ & Ht).
      destruct (IH (calls ++ [call])%list (results ++ [entry])%list t')
        as (new & E & Hall & Hlen).
      destruct Ht as [[-> _]|(d' & _ & Ht & _)].
      * exists new. cbn [List.length]. auto.
      * cbn zeta in Ht. subst t'. exists (new ++ [ETool name (JObject (dict_set "repo_path" (JString repo) d'))])%list.
        rewrite <- app_assoc. cbn [app]. split; [exact E|]. split.
        -- apply Forall_app. split; [exact Hall|]. constructor; [|constructor].
           cbn. split; [exact Hin|apply dict_get_set_same].
        -- rewrite length_app. cbn [List.length]. lia.
    + destruct (IH calls results t) as (new & E & Hall & Hlen).
      exists new. cbn [List.length]. auto.
Qed.

Lemma slice_to_length {A : Type} (k : Z) (l : list A) :
  0 <= k -> (List.length (slice_to k l) <= Z.to_nat k)%nat.
Proof.
  intros Hk. unfold slice_to. destruct (Z.ltb_spec k 0); [lia|].
  rewrite length_firstn. lia.
Qed.

Lemma py_slice_iter_length v k specs :
  py_slice_iter v k = Some specs -> 0 <= k ->
  (List.length specs <= Z.to_nat k)%nat.
Proof.
  destruct v; cbn [py_slice_iter]; try discriminate; intros H Hk; inv H.
  - rewrite length_map. now apply slice_to_length.
  - now apply slice_to_length.
Qed.

(** The selection prompt is sent at most once, and only after the missing
    parts have been rendered. *)
Lemma select_tools_trace w s c t :
  trace_of (_select_tools_with_llm w s c t) = t
  \/ exists a b d m,
       trace_of (_select_tools_with_llm w s c t)
       = ELlm (ToolSelection a b d m) :: t.
Proof.
  unfold _select_tools_with_llm, bind.
  destruct (missing_str w _ _ t) as [ms t0|e t0] eqn:E0.
  - apply missing_str_ret in E0 as ->. right.
    unfold llm_try. exists (py_take 2000 (current_document s)), ms, (directory_tree s),
      (AgentConfig.max_tool_calls_per_iteration (agent c)).
    reflexivity.
  - left. pose proof (missing_str_trace w (missing_parts s) "无具体缺失，需要进一步探索" t) as E.
    rewrite E0 in E. exact E.
Qed.

Lemma execute_batch_trace w s suggested m t :
  exists new,
    trace_of (execute_batch w s suggested m t) = (new ++ t)%list /\
    Forall (engine_owned (repo_path s)) new /\
    (0 <= m -> Z.of_nat (List.length new) <= m).
Proof.
  unfold execute_batch.
  destruct (py_slice_iter suggested m) as [specs|] eqn:Es.
  - destruct (run_tools_trace w (repo_path s) specs [] [] t)
      as (new & E & Hall & Hlen).
    exists new. split; [|split; [exact Hall|]].
    + unfold bind.
      destruct (run_tools w (repo_path s) specs [] [] t)
        as [[calls results] t1|e t1]; exact E.
    + intros Hm. pose proof (py_slice_iter_length _ _ _ Es Hm). lia.
  - exists []. cbn. split; [reflexivity|]. split; [constructor|lia].
Qed.

(** The effects of one dispatcher step: at most one selection prompt, sent
    only when nothing usable was stored, then the handler invocations. *)
Lemma tool_execution_node_trace w s c t :
  exists new pre,
    trace_of (tool_execution_node w s c t) = (new ++ pre ++ t)%list /\
    Forall (engine_owned (repo_path s)) new /\
    (0 <= AgentConfig.max_tool_calls_per_iteration (agent c) ->
     Z.of_nat (List.length new)
     <= AgentConfig.max_tool_calls_per_iteration (agent c)) /\
    (pre = []
     \/ truthy (stored_suggestions (current_tool_results s)) = false /\
        exists ev, pre = [ev] /\ is_selection ev).
Proof.
  unfold tool_execution_node.
  set (m := AgentConfig.max_tool_calls_per_iteration (agent c)).
  unfold bind.
  destruct (truthy (stored_suggestions (current_tool_results s))) eqn:Et.
  - cbn [ret].
    destruct (execute_batch_trace w s (stored_suggestions (current_tool_results s)) m t)
      as (new & E & Hall & Hlen).
    exists new, []. auto.
  - destruct (select_tools_trace w s c t) as [E|(a & b & d & k & E)].
    + destruct (_select_tools_with_llm w s c t) as [sel t0|e t0]; cbn in E; subst t0.
      * destruct (execute_batch_trace w s sel m t) as (new & E & Hall & Hlen).
        exists new, []. auto.
      * exists [], []. cbn. split; [reflexivity|]. split; [constructor|]. split; [lia|auto].
    + destruct (_select_tools_with_llm w s c t) as [sel t0|e t0]; cbn in E; subst t0.
      * destruct (execute_batch_trace w s sel m (ELlm (ToolSelection a b d k) :: t))
          as (new & E & Hall & Hlen).
        exists new, [ELlm (ToolSelection a b d k)].
        split; [exact E|]. split; [exact Hall|]. split; [exact Hlen|].
        right. split; [reflexivity|]. eexists. split; [reflexivity|exact I].
      * exists [], [ELlm (ToolSelection a b d k)]. cbn.
        split; [reflexivity|]. split; [constructor|]. split; [lia|].
        right. split; [reflexivity|]. eexists. split; [reflexivity|exact I].
Qed.

Lemma synthesis_calls_app new t :
  Forall (fun ev => is_synthesis ev = false) new ->
  synthesis_calls (new ++ t)%list = synthesis_calls t.
Proof.
  induction 1 as [|e new He _ IH]; [reflexivity|].
  cbn [app]. rewrite synthesis_calls_cons, He, IH. lia.
Qed.

Lemma engine_owned_not_synthesis repo ev :
  engine_owned repo ev -> is_synthesis ev = false.
Proof. destruct ev as [r|name args]; [contradiction|reflexivity]. Qed.

Lemma is_selection_not_synthesis ev :
  is_selection ev -> is_synthesis ev = false.
Proof. destruct ev as [[]|]; cbn; (contradiction || reflexivity). Qed.

Lemma tool_execution_node_frame w s c t s' t' :
  tool_execution_node w s c t = Ret s' t' ->
  iteration_count s' = iteration_count s /\
  document_versions s' = document_versions s /\
  max_iterations s' = max_iterations s /\
  messages s' = messages s /\
  is_complete s' = is_complete s /\
  status s' = "tools_executed" /\
  synthesis_calls t' = synthesis_calls t.
Proof.
  intros H.
  destruct (tool_execution_node_trace w s c t) as (new & pre & E & Hall & _ & Hpre).
  rewrite H in E. cbn [trace_of] in E.
  assert (synthesis_calls t' = synthesis_calls t) as Hs.
  { subst t'. rewrite synthesis_calls_app.
    - destruct Hpre as [->|(_ & ev & -> & Hev)]; [reflexivity|].
      cbn [app]. rewrite synthesis_calls_cons, (is_selection_not_synthesis _ Hev). lia.
    - eapply Forall_impl; [|exact Hall]. intros ev. apply engine_owned_not_synthesis. }
  revert H. unfold tool_execution_node, bind, execute_batch.
  destruct (if truthy _ then _ else _) as [sel t0|]; [|discriminate].
  destruct (py_slice_iter sel _); [|discriminate].
  unfold bind.
  destruct (run_tools w _ _ _ _ t0) as [[calls results] t1|]; [|discriminate].
  intros H; inv H. cbn. intuition.
Qed.

Lemma check_completeness_node_frame w s c t s' t' :
  check_completeness_node w s c t = Ret s' t' ->
  iteration_count s' = iteration_count s /\
  document_versions s' = document_versions s /\
  max_iterations s' = max_iterations s /\
  messages s' = messages s /\
  synthesis_calls t' = synthesis_calls t /\
  ((max_iterations s <= iteration_count s /\ t' = t /\
    is_complete s' = JBool true /\ status s' = "completed")
   \/ (iteration_count s < max_iterations s /\
       ((truthy (is_complete s') = true /\ status s' = "completed")
        \/ (truthy (is_complete s') = false /\
            status s' = "needs_exploration")))).
Proof.
  unfold check_completeness_node.
  destruct (Z.leb_spec (max_iterations s) (iteration_count s)) as [Hcap|Hcap].
  - intros H; inv H. cbn. intuition.
  - unfold bind, _evaluate_completeness, bind.
    destruct (llm_call w _ t) as [content t0|] eqn:E; [|discriminate].
    apply llm_call_ret in E as [-> _].
    destruct (read_verdict content (iteration_count s) _)
      as [[[[complete confidence] missing] suggested] t1|] eqn:Ev; [|discriminate].
    assert (t1 = ELlm (CheckCompleteness (current_document s) (high_level_info s)
                         (iteration_count s) (AgentConfig.max_iterations (agent c))) :: t) as ->.
    { revert Ev. unfold read_verdict.
      destruct (search_json_block content); [destruct (json_loads s0) as [[]|]|];
        cbn; intros H; now inv H. }
    destruct (truthy complete) eqn:Ec.
    + destruct (formats_as_float confidence); intros H; inv H.
      cbn. rewrite synthesis_calls_cons. cbn. rewrite Ec.
      repeat (split; [reflexivity || lia|]). right. split; [exact Hcap|]. left. auto.
    + intros H; inv H. cbn. rewrite synthesis_calls_cons. cbn. rewrite Ec.
      repeat (split; [reflexivity || lia|]). right. split; [exact Hcap|]. right. auto.
Qed.

Lemma save_output_node_frame w s c t s' t' :
  save_output_node w s c t = Ret s' t' ->
  iteration_count s' = iteration_count s /\
  document_versions s' = document_versions s /\
  max_iterations s' = max_iterations s /\
  messages s' = messages s /\
  is_complete s' = is_complete s /\
  t' = t /\
  (status s' = "completed" \/ status s' = "error").
Proof.
  unfold save_output_node.
  destruct (make_output_dir w s c); [discriminate|].
  destruct (write_outputs w s c); intros H; inv H; cbn; intuition.
Qed.

(** ** Batches, front to back *)

Lemma registered_names_length specs :
  (List.length (registered_names specs) <= List.length specs)%nat.
Proof.
  unfold registered_names.
  induction specs as [|spec rest IH]; cbn [flat_map List.length]; [lia|].
  rewrite length_app. destruct (registered_name spec); cbn [List.length]; lia.
Qed.

Lemma registered_names_app a b :
  registered_names (a ++ b) = (registered_names a ++ registered_names b)%list.
Proof. unfold registered_names. apply flat_map_app. Qed.

(** The accumulators only grow: the loop started with records already made
    returns them followed by what it returns when started afresh. *)
Lemma run_tools_acc w repo specs : forall calls results t,
  run_tools w repo specs calls results t
  = match run_tools w repo specs [] [] t with
    | Ret (c, r) t' => Ret (calls ++ c, results ++ r)%list t'
    | Exc e t' => Exc e t'
    end.
Proof.
  induction specs as [|spec rest IH]; intros calls results t; cbn [run_tools].
  - cbn. now rewrite !app_nil_r.
  - destruct spec; try reflexivity.
    destruct (hashable _); cbn [negb]; [|reflexivity].
    destruct (registered _) as [name|]; [|apply IH].
    unfold bind.
    destruct (call_tool w repo name _ _ t) as [[call entry] t1|]; [|reflexivity].
    cbn [app].
    rewrite (IH (calls ++ [call]) (results ++ [entry]) t1)%list.
    rewrite (IH [call] [entry] t1).
    destruct (run_tools w repo rest [] [] t1) as [[c r] t2|]; [|reflexivity].
    now rewrite <- !app_assoc.
Qed.


(** On well-formed proposals the loop returns, with one record and one
    evidence entry per registered proposal, in order. *)
Lemma run_tools_records w repo specs : forall t,
  Forall (fun spec => well_formed_spec spec = true) specs ->
  exists calls results t',
    run_tools w repo specs [] [] t = Ret (calls, results) t' /\
    map tool_name calls = registered_names specs /\
    List.length results = List.length calls.
Proof.
  induction specs as [|spec rest IH]; intros t Hwf; cbn [run_tools].
  - exists [], [], t. auto.
  - inversion Hwf as [|? ? Hspec Hrest]; subst.
    destruct spec; try discriminate. cbn [well_formed_spec] in Hspec.
    rewrite Hspec. cbn [negb registered_names flat_map registered_name].
    destruct (registered _) as [name|].
    + unfold bind.
      destruct (call_tool_ret w repo name (get_default "args" (JObject []) d)
                  (get_default "reason" (JString "") d) t)
        as (call & entry & t1 & -> & Hname & _).
      rewrite run_tools_acc.
      destruct (IH t1 Hrest) as (calls & results & t' & -> & Hnames & Hlen).
      exists (call :: calls), (entry :: results), t'. cbn.
      rewrite Hname, Hnames, Hlen. auto.
    + destruct (IH t Hrest) as (calls & results & t' & -> & Hnames & Hlen).
      exists calls, results, t'. auto.
Qed.

(** Whatever the proposals, a record is only ever made for a registered
    name. *)
Lemma run_tools_registered w repo specs : forall calls results t c r t',
  Forall (fun call => In (tool_name call) TOOL_REGISTRY) calls ->
  run_tools w repo specs calls results t = Ret (c, r) t' ->
  Forall (fun call => In (tool_name call) TOOL_REGISTRY) c.
Proof.
  induction specs as [|spec rest IH]; intros calls results t c r t' Hc;
    cbn [run_tools].
  - intros H; inversion H; subst. exact Hc.
  - destruct spec; try discriminate.
    destruct (hashable _); cbn [negb]; [|discriminate].
    destruct (registered _) as [name|] eqn:R; [|apply IH; exact Hc].
    apply registered_Some in R as [_ Hin]. unfold bind.
    destruct (call_tool_ret w repo name (get_default "args" (JObject []) d)
                (get_default "reason" (JString "") d) t)
      as (call & entry & t1 & -> & Hname & _).
    apply IH. apply Forall_app. split; [exact Hc|].
    constructor; [now rewrite Hname|constructor].
Qed.

Lemma slice_to_nonneg {A : Type} (k : Z) (l : list A) :
  0 <= k -> slice_to k l = firstn (Z.to_nat k) l.
Proof. intros Hk. unfold slice_to. destruct (Z.ltb_spec k 0); [lia|reflexivity]. Qed.

Lemma truthy_nonempty_list (l : list json) : l <> [] -> truthy (JList l) = true.
Proof. destruct l; [congruence|reflexivity]. Qed.

(** With a non-empty proposal list in the state, the node is the batch
    execution of that list: no selection prompt is sent. *)
Lemma tool_execution_node_stored w s c t l :
  stored_suggestions (current_tool_results s) = JList l -> l <> [] ->
  tool_execution_node w s c t
  = execute_batch w s (JList l)
      (AgentConfig.max_tool_calls_per_iteration (agent c)) t.
Proof.
  intros Hs Hl. unfold tool_execution_node, bind.
  rewrite Hs, (truthy_nonempty_list l Hl). reflexivity.
Qed.

(** ** The invariant of a run *)

Lemma apply_update_fields old new :
  iteration_count (apply_update old new) = iteration_count new /\
  document_versions (apply_update old new) = document_versions new /\
  max_iterations (apply_update old new) = max_iterations new /\
  status (apply_update old new) = status new /\
  is_complete (apply_update old new) = is_complete new /\
  messages (apply_update old new) = (messages old ++ messages new)%list.
Proof. cbn. intuition. Qed.

Lemma step_invariant w c N n s t new t' :
  node_invariant N (Some n) s t ->
  node_function w c n s t = Ret new t' ->
  let s' := apply_update s new in
  node_invariant N (next_node n s') s' t'.
Proof.
  intros (Hmax & Hlen & Hsyn & Hmsg & Hn) Hrun s'.
  destruct (apply_update_fields s new) as (Ei & Ed & Em & Es & Ec & Eg).
  fold s' in Ei, Ed, Em, Es, Ec, Eg.
  unfold node_invariant.
  destruct n; cbn [node_function] in Hrun.
  - apply init_node_frame in Hrun as (Fi & Fd & Fm & Fg & -> & Fs).
    rewrite Ei, Ed, Em, Eg, Fi, Fd, Fm, Fg, Hmsg.
    repeat (split; [assumption || reflexivity|]).
    unfold next_node, _check_error. rewrite Es.
    destruct Fs as [[_ ->]|[_ ->]]; cbn; lia.
  - apply generate_doc_node_frame in Hrun as (Fi & Fd & Fm & Fg & Fs & Ft).
    rewrite Ei, Ed, Em, Eg, Fi, Fd, Fm, Fg, Hmsg, Ft.
    split; [assumption|]. split; [rewrite length_app; cbn [List.length]; lia|].
    split; [lia|]. split; [reflexivity|].
    unfold next_node, _check_error. rewrite Es, Fs. cbn. lia.
  - apply check_completeness_node_frame in Hrun as (Fi & Fd & Fm & Fg & Ft & Fs).
    rewrite Ei, Ed, Em, Eg, Fi, Fd, Fm, Fg, Hmsg, Ft.
    repeat (split; [assumption || reflexivity|]).
    unfold next_node, _route_after_check. rewrite Es, Ec.
    destruct Fs as [(_ & _ & -> & ->)|(Hlt & [[-> ->]|[-> ->]])]; cbn; lia.
  - apply tool_execution_node_frame in Hrun as (Fi & Fd & Fm & Fg & _ & Fs & Ft).
    rewrite Ei, Ed, Em, Eg, Fi, Fd, Fm, Fg, Hmsg, Ft.
    repeat (split; [assumption || reflexivity|]).
    unfold next_node, _check_error. rewrite Es, Fs. cbn. lia.
  - apply save_output_node_frame in Hrun as (Fi & Fd & Fm & Fg & _ & -> & Fs).
    rewrite Ei, Ed, Em, Eg, Fi, Fd, Fm, Fg, Hmsg.
    repeat (split; [assumption || reflexivity|]).
    cbn. lia.
Qed.

Lemma run_from_invariant w c N steps : forall n s t,
  node_invariant N (Some n) s t ->
  result_invariant N (run_from w c steps n s t).
Proof.
  induction steps as [|k IH]; intros n s t Hinv; cbn [run_from].
  - exact Hinv.
  - destruct (node_function w c n s t) as [new t'|e t'] eqn:E; [|exact I].
    pose proof (step_invariant w c N n s t new t' Hinv E) as Hnext.
    cbn zeta in Hnext.
    destruct (next_node n (apply_update s new)) as [n'|].
    + apply IH. exact Hnext.
    + exact Hnext.
Qed.

Lemma initial_invariant repo cp N :
  node_invariant N (Some init) (create_initial_state repo cp N) [].
Proof. unfold node_invariant. cbn. intuition. Qed.

Lemma report_invariant N r : result_invariant N r -> result_invariant N (report r).
Proof.
  destruct r as [s t|e t|n s t]; cbn [report]; try exact (fun H => H).
  destruct (_ && _); [intros _; exact I|exact (fun H => H)].
Qed.

Lemma run_invariant w c repo cp steps :
  result_invariant (AgentConfig.max_iterations (agent c)) (run w c repo cp steps).
Proof. apply report_invariant, run_from_invariant, initial_invariant. Qed.


(** ** Evaluators that never report completion *)

Lemma read_verdict_any_trace content iteration t :
  read_verdict content iteration t
  = match read_verdict content iteration [] with
    | Ret v _ => Ret v t
    | Exc e _ => Exc e t
    end.
Proof.
  unfold read_verdict.
  destruct (search_json_block content); [destruct (json_loads s) as [[]|]|];
    reflexivity.
Qed.


Lemma next_after_generate s :
  status s = "doc_generated" -> next_node generate_doc s = Some check_completeness.
Proof. unfold next_node, _check_error. now intros ->. Qed.

Lemma next_after_tools s :
  status s = "tools_executed" -> next_node execute_tools s = Some generate_doc.
Proof. unfold next_node, _check_error. now intros ->. Qed.

Lemma next_after_completion s :
  status s = "completed" -> truthy (is_complete s) = true ->
  next_node check_completeness s = Some save_output.
Proof. unfold next_node, _route_after_check. now intros -> ->. Qed.

Lemma next_after_incomplete s :
  status s = "needs_exploration" -> truthy (is_complete s) = false ->
  next_node check_completeness s = Some execute_tools.
Proof. unfold next_node, _route_after_check. now intros -> ->. Qed.



(** ** From the verdict to the dispatcher *)

Lemma stored_after_dumps tools :
  decoded tools = true -> stored_suggestions (json_dumps tools) = received tools.
Proof.
  intros Hd. unfold stored_suggestions.
  destruct (json_dumps_head tools "" Hd) as (c & r & E & _).
  rewrite append_nil_r in E. rewrite (json_loads_dumps tools Hd), E.
  cbn [String.eqb negb]. destruct tools; reflexivity.
Qed.

Lemma decoded_get_default k default d :
  decoded (JObject d) = true -> decoded default = true ->
  decoded (get_default k default d) = true.
Proof.
  cbn [decoded]. intros H Hdef. apply andb_prop in H as [_ H].
  unfold get_default. induction d as [|[k0 x0] d IH]; cbn [dict_get];
    [exact Hdef|].
  cbn [forallb] in H. apply andb_prop in H as [Hx H].
  destruct (k0 =? k)%string; auto.
Qed.

Lemma read_verdict_decoded content iteration t complete confidence missing
  suggested t' :
  read_verdict content iteration t
  = Ret (complete, confidence, missing, suggested) t' ->
  decoded suggested = true.
Proof.
  unfold read_verdict.
  destruct (search_json_block content) as [block|].
  - destruct (json_loads block) as [[]|] eqn:E; try discriminate.
    + intros H; injection H as _ _ _ <- _.
      apply decoded_get_default; [|reflexivity].
      exact (json_loads_decoded _ _ E).
    + intros H; injection H as _ _ _ <- _. reflexivity.
  - intros H; injection H as _ _ _ <- _. reflexivity.
Qed.

(** ** Cooperative worlds raise nothing *)








(** * The iteration cap *)




(** * Versions and iterations *)

(** C2: both counters start at zero; the document-generation node appends
    exactly one version and adds one to [iteration_count]; no other node
    changes either field; so at every observation point of a run the number
    of versions equals [iteration_count]. *)
Theorem versions_match_iterations (w : World) (config : Config) :
  (forall repo cp N,
     iteration_count (create_initial_state repo cp N) = 0 /\
     document_versions (create_initial_state repo cp N) = [])
  /\
  (forall s t s' t',
     generate_doc_node w s config t = Ret s' t' ->
     document_versions (apply_update s s')
     = (document_versions s ++ [current_document s'])%list /\
     iteration_count (apply_update s s') = iteration_count s + 1)
  /\
  (forall n s t s' t',
     n <> generate_doc ->
     node_function w config n s t = Ret s' t' ->
     document_versions (apply_update s s') = document_versions s /\
     iteration_count (apply_update s s') = iteration_count s)
  /\
  (forall repo cp steps s,
     state_of (run w config repo cp steps) = Some s ->
     Z.of_nat (List.length (document_versions s)) = iteration_count s).
Proof.
  split; [|split; [|split]].
  - intros repo cp N. split; reflexivity.
  - intros s t s' t' H.
    apply generate_doc_node_frame in H as (Fi & Fd & _).
    destruct (apply_update_fields s s') as (-> & -> & _). auto.
  - intros n s t s' t' Hn H.
    destruct (apply_update_fields s s') as (-> & -> & _).
    destruct n; cbn [node_function] in H; [| congruence | | |].
    + apply init_node_frame in H. intuition.
    + apply check_completeness_node_frame in H. intuition.
    + apply tool_execution_node_frame in H. intuition.
    + apply save_output_node_frame in H. intuition.
  - intros repo cp steps s Hs.
    pose proof (run_invariant w config repo cp steps) as Hinv.
    destruct (run w config repo cp steps) as [s0 t0|e t0|n s0 t0];
      cbn in Hs; try discriminate; injection Hs as ->;
      destruct Hinv as (_ & Hlen & _); exact Hlen.
Qed.

Lemma versions_match_iterations_witness :
  exists s,
    state_of (run sample_world (Sample.config 3 5) "/repo" None 5) = Some s /\
    iteration_count s = 2 /\
    Z.of_nat (List.length (document_versions s)) = iteration_count s.
Proof.
  eexists. split; [vm_compute; reflexivity|]. split; [reflexivity|].
  apply (proj2 (proj2 (proj2
           (versions_match_iterations sample_world (Sample.config 3 5))))
           "/repo" None 5%nat).
  vm_compute. reflexivity.
Defined.

(** * A repository that does not exist *)

(** C9: when the repository root does not exist the run ends at its first
    node with status error and a description, zero iterations, no version,
    and an empty trace: no model call (synthesis, evaluation or selection)
    and no tool call was made. *)
Theorem missing_repository_ends_run (w : World) (config : Config)
  (repo : string) (cp : option string) (steps : nat) :
  path_exists w repo = false ->
  (1 <= steps)%nat ->
  exists s,
    run w config repo cp steps = Finished s [] /\
    status s = "error" /\
    error s = Some ("仓库路径不存在: " ++ repo) /\
    iteration_count s = 0 /\
    document_versions s = [] /\
    current_document s = "".
Proof.
  intros Hmissing Hsteps. destruct steps as [|k]; [lia|].
  unfold run, invoke. cbn [run_from node_function]. unfold init_node.
  cbn [repo_path create_initial_state]. rewrite Hmissing. cbn [negb ret].
  eexists. split; [reflexivity|]. cbn. auto.
Qed.

Lemma missing_repository_ends_run_witness :
  exists s,
    run (Sample.world false []) (Sample.config 10 5) "/no/such/dir" None 31
    = Finished s [] /\
    status s = "error" /\
    error s = Some ("仓库路径不存在: " ++ "/no/such/dir") /\
    iteration_count s = 0 /\
    document_versions s = [] /\
    current_document s = "".
Proof.
  apply (missing_repository_ends_run (Sample.world false []) (Sample.config 10 5)
           "/no/such/dir" None 31).
  - reflexivity.
  - lia.
Defined.

(** * The dispatcher *)

(** ** The budget *)

Lemma execute_batch_records w s l m t :
  Forall (fun spec => well_formed_spec spec = true) (slice_to m l) ->
  exists calls results t',
    execute_batch w s (JList l) m t = Ret (record_batch s calls results) t' /\
    run_tools w (repo_path s) (slice_to m l) [] [] t = Ret (calls, results) t' /\
    map tool_name calls = registered_names (slice_to m l) /\
    List.length results = List.length calls.
Proof.
  intros Hwf. unfold execute_batch. cbn [py_slice_iter]. unfold bind.
  destruct (run_tools_records w (repo_path s) (slice_to m l) t Hwf)
    as (calls & results & t' & E & Hnames & Hlen).
  rewrite E. exists calls, results, t'. auto.
Qed.

(** The loop makes at most one record per proposal. *)
Lemma run_tools_length w repo specs : forall calls results t c r t',
  run_tools w repo specs calls results t = Ret (c, r) t' ->
  (List.length c <= List.length calls + List.length specs)%nat.
Proof.
  induction specs as [|spec rest IH]; intros calls results t c r t';
    cbn [run_tools].
  - intros H; injection H as <- <- <-. cbn. lia.
  - destruct spec; try discriminate.
    destruct (hashable _); cbn [negb]; [|discriminate].
    destruct (registered _) as [name|].
    + unfold bind.
      destruct (call_tool w repo name _ _ t) as [[call entry] t1|];
        [|discriminate].
      intros H. apply IH in H. rewrite length_app in H.
      cbn [List.length] in *. lia.
    + intros H. apply IH in H. cbn [List.length]. lia.
Qed.

(** What a returning dispatcher step recorded: the batch it sliced, the
    records and the evidence entries of the loop. *)
Lemma tool_execution_node_ret w s c t s' t' :
  tool_execution_node w s c t = Ret s' t' ->
  exists (specs : list json) (calls : list ToolCall) (results : list string),
    (List.length calls <= List.length specs)%nat /\
    (0 <= AgentConfig.max_tool_calls_per_iteration (agent c) ->
     Z.of_nat (List.length specs)
     <= AgentConfig.max_tool_calls_per_iteration (agent c)) /\
    Forall (fun call => In (tool_name call) TOOL_REGISTRY) calls /\
    s' = record_batch s calls results.
Proof.
  unfold tool_execution_node, bind, execute_batch.
  destruct (if truthy _ then _ else _) as [sel t0|]; [|discriminate].
  destruct (py_slice_iter sel _) as [specs|] eqn:Es; [|discriminate].
  unfold bind.
  destruct (run_tools w _ specs [] [] t0) as [[calls results] t1|] eqn:Er;
    [|discriminate].
  intros H; injection H as <- <-.
  exists specs, calls, results. split; [|split; [|split]].
  - apply run_tools_length in Er. cbn [List.length] in Er. lia.
  - intros Hm. pose proof (py_slice_iter_length _ _ _ Es Hm). lia.
  - eapply run_tools_registered; [|exact Er]. constructor.
  - reflexivity.
Qed.

Lemma tool_invocations_app new t :
  tool_invocations (new ++ t)%list
  = (List.length (filter is_tool new) + tool_invocations t)%nat.
Proof. unfold tool_invocations. now rewrite filter_app, length_app. Qed.



(** ** The repository argument *)

(** C7: every handler invocation of a dispatcher step names a registered
    tool and passes a dict whose [repo_path] is the run's repository path,
    whatever the proposal held under that key. *)
Theorem repo_path_is_engine_owned (w : World) (s : AgentState)
  (config : Config) (t : trace) (batch : list event) (name : string)
  (args : json) :
  trace_of (tool_execution_node w s config t) = (batch ++ t)%list ->
  In (ETool name args) batch ->
  In name TOOL_REGISTRY /\
  exists d,
    args = JObject d /\
    dict_get "repo_path" d = Some (JString (repo_path s)).
Proof.
  intros Htrace Hin.
  destruct (tool_execution_node_trace w s config t)
    as (new & pre & E & Hall & _ & Hpre).
  rewrite E, app_assoc in Htrace. apply app_inv_tail in Htrace. subst batch.
  apply in_app_or in Hin as [Hin|Hin].
  - rewrite Forall_forall in Hall. apply Hall in Hin. cbn in Hin.
    destruct args; try contradiction. destruct Hin as [Hreg Hget].
    split; [exact Hreg|]. eexists. split; [reflexivity|exact Hget].
  - destruct Hpre as [->|(_ & ev & -> & Hev)]; [contradiction|].
    destruct Hin as [->|[]]. contradiction.
Qed.

Lemma repo_path_is_engine_owned_witness :
  get_default "args" (JObject []) match Sample.outline with
                                  | JObject d => d
                                  | _ => []
                                  end
  = JObject [("file_path", JString "main.py");
             ("repo_path", JString "/elsewhere")] /\
  In "get_file_outline" TOOL_REGISTRY /\
  exists d,
    JObject [("file_path", JString "main.py"); ("repo_path", JString "/repo")]
    = JObject d /\
    dict_get "repo_path" d = Some (JString "/repo").
Proof.
  split; [reflexivity|].
  apply (repo_path_is_engine_owned sample_world
           (Sample.awaiting_tools [Sample.outline]) (Sample.config 10 5) []
           [ETool "get_file_outline"
              (JObject [("file_path", JString "main.py");
                        ("repo_path", JString "/repo")])]).
  - vm_compute. reflexivity.
  - left. reflexivity.
Defined.

(** ** Unregistered names *)

Lemma slice_to_firstn {A : Type} (k : Z) (l : list A) :
  exists n, slice_to k l = firstn n l.
Proof. unfold slice_to. destruct (k <? 0); eexists; reflexivity. Qed.

Lemma registered_names_firstn n l :
  registered_names l = [] -> registered_names (firstn n l) = [].
Proof.
  intros H. rewrite <- (firstn_skipn n l), registered_names_app in H.
  now apply app_eq_nil in H.
Qed.

(** C4, as stated, fails: the proposals are cut to the budget before the
    registry is consulted. With a budget of one and the proposals [unknown;
    outline], the registered proposal is dropped by the cut and the
    unregistered one is skipped: nothing is executed. *)
Lemma unregistered_name_uses_budget :
  let s := Sample.awaiting_tools [Sample.unknown; Sample.outline] in
  stored_suggestions (current_tool_results s)
  = JList [Sample.unknown; Sample.outline] /\
  registered_names [Sample.unknown; Sample.outline] = ["get_file_outline"] /\
  tool_execution_node sample_world s (Sample.config 10 1) []
  = Ret (record_batch s [] []) [].
Proof. vm_compute. auto. Qed.

(** C4 (amended): an unregistered name among the first
    [max_tool_calls_per_iteration] proposals is skipped and leaves no record,
    but it does take one of the budget's places: for a budget [m >= 0] and
    well-formed proposals, the calls recorded are exactly the registered
    proposals among the first [m] proposed, in order. *)
Theorem budget_counts_every_proposal (w : World) (s : AgentState)
  (config : Config) (t : trace) (l : list json) :
  let m := AgentConfig.max_tool_calls_per_iteration (agent config) in
  0 <= m ->
  stored_suggestions (current_tool_results s) = JList l -> l <> [] ->
  Forall (fun spec => well_formed_spec spec = true) (firstn (Z.to_nat m) l) ->
  exists calls results t',
    tool_execution_node w s config t = Ret (record_batch s calls results) t' /\
    map tool_name calls = registered_names (firstn (Z.to_nat m) l) /\
    Z.of_nat (List.length calls) <= m.
Proof.
  intros m Hm Hs Hl Hwf.
  rewrite (tool_execution_node_stored w s config t l Hs Hl). fold m.
  rewrite <- (slice_to_nonneg m l Hm) in Hwf |- *.
  destruct (execute_batch_records w s l m t Hwf)
    as (calls & results & t' & E & _ & Hnames & _).
  exists calls, results, t'. split; [exact E|]. split; [exact Hnames|].
  rewrite <- (length_map tool_name), Hnames.
  pose proof (registered_names_length (slice_to m l)).
  pose proof (slice_to_length m l Hm). lia.
Qed.

Lemma budget_counts_every_proposal_witness :
  exists calls results t',
    tool_execution_node sample_world
      (Sample.awaiting_tools
         [Sample.unknown; Sample.outline; Sample.search])
      (Sample.config 10 2) []
    = Ret (record_batch
             (Sample.awaiting_tools
                [Sample.unknown; Sample.outline; Sample.search])
             calls results) t' /\
    map tool_name calls
    = registered_names
        (firstn (Z.to_nat 2) [Sample.unknown; Sample.outline; Sample.search]) /\
    Z.of_nat (List.length calls) <= 2.
Proof.
  apply (budget_counts_every_proposal sample_world
           (Sample.awaiting_tools
              [Sample.unknown; Sample.outline; Sample.search])
           (Sample.config 10 2) []
           [Sample.unknown; Sample.outline; Sample.search]).
  - cbn. lia.
  - vm_compute. reflexivity.
  - discriminate.
  - repeat constructor.
Defined.

(** ** The default selection *)

(** C6, as stated, fails: a proposal list holding only an unregistered name
    is not empty, so no selection is made; the batch runs nothing, while an
    empty proposal list does lead to the default call. *)
Lemma unknown_only_proposal_runs_nothing :
  let s := Sample.awaiting_tools [Sample.unknown] in
  stored_suggestions (current_tool_results s) = JList [Sample.unknown] /\
  tool_execution_node sample_world s (Sample.config 10 5) []
  = Ret (record_batch s [] []) [] /\
  tool_invocations
    (trace_of (tool_execution_node sample_world
                 (Sample.awaiting_tools []) (Sample.config 10 5) []))
  = 1%nat.
Proof. vm_compute. auto. Qed.

Lemma run_tools_unregistered w repo specs : forall t,
  Forall (fun spec => well_formed_spec spec = true) specs ->
  registered_names specs = [] ->
  run_tools w repo specs [] [] t = Ret ([], []) t.
Proof.
  induction specs as [|spec rest IH]; intros t Hwf Hnone; cbn [run_tools].
  - reflexivity.
  - inversion Hwf as [|? ? Hspec Hrest]; subst.
    destruct spec; try discriminate. cbn [well_formed_spec] in Hspec.
    rewrite Hspec. cbn [negb].
    unfold registered_names in Hnone. cbn [flat_map registered_name] in Hnone.
    destruct (registered _) as [name|]; [discriminate|].
    apply IH; assumption.
Qed.

(** C6 (amended): the default selection is made only when the stored
    proposal list is empty. A non-empty list of well-formed proposals whose
    names are all unregistered is kept as it is: the step sends no selection
    prompt, invokes no handler, and records an empty batch. *)
Theorem unregistered_only_batch_is_empty (w : World) (s : AgentState)
  (config : Config) (t : trace) :
  (forall l,
     stored_suggestions (current_tool_results s) = JList l -> l <> [] ->
     Forall (fun spec => well_formed_spec spec = true) l ->
     registered_names l = [] ->
     tool_execution_node w s config t = Ret (record_batch s [] []) t)
  /\
  (forall batch ev,
     trace_of (tool_execution_node w s config t) = (batch ++ t)%list ->
     In ev batch -> is_llm ev = true ->
     truthy (stored_suggestions (current_tool_results s)) = false).
Proof.
  split.
  - intros l Hs Hl Hwf Hnone.
    rewrite (tool_execution_node_stored w s config t l Hs Hl).
    unfold execute_batch. cbn [py_slice_iter]. unfold bind.
    destruct (slice_to_firstn
                (AgentConfig.max_tool_calls_per_iteration (agent config)) l)
      as [n ->].
    rewrite run_tools_unregistered; [reflexivity| |].
    + rewrite <- (firstn_skipn n l) in Hwf. now apply Forall_app in Hwf.
    + now apply registered_names_firstn.
  - intros batch ev Htrace Hin Hllm.
    destruct (tool_execution_node_trace w s config t)
      as (new & pre & E & Hall & _ & Hpre).
    rewrite E, app_assoc in Htrace. apply app_inv_tail in Htrace. subst batch.
    apply in_app_or in Hin as [Hin|Hin].
    + rewrite Forall_forall in Hall. apply Hall in Hin.
      destruct ev; [contradiction|discriminate].
    + destruct Hpre as [->|(Hfalse & _)]; [contradiction|exact Hfalse].
Qed.

Lemma unregistered_only_batch_is_empty_witness :
  tool_execution_node sample_world
    (Sample.awaiting_tools [Sample.unknown; Sample.unknown])
    (Sample.config 10 5) []
  = Ret (record_batch
           (Sample.awaiting_tools [Sample.unknown; Sample.unknown])
           [] []) [].
Proof.
  apply (proj1 (unregistered_only_batch_is_empty sample_world
                  (Sample.awaiting_tools [Sample.unknown; Sample.unknown])
                  (Sample.config 10 5) [])
           [Sample.unknown; Sample.unknown]).
  - vm_compute. reflexivity.
  - discriminate.
  - repeat constructor.
  - reflexivity.
Defined.

(** ** Failure isolation *)




(** * Reading the evaluator's reply *)

(** ** What the pattern finds *)

Lemma after_first_open_prefix s r :
  after_first_open s = Some r ->
  exists a, s = a ++ "{" ++ r /\ any_char (fun c => (c =? "{")%char) a = false.
Proof.
  revert r. induction s as [|c s IH]; intros r; cbn [after_first_open].
  - discriminate.
  - destruct (c =? "{")%char eqn:Ec.
    + intros H; injection H as ->. exists "". split; [|reflexivity].
      apply Ascii.eqb_eq in Ec. now subst.
    + intros H. destruct (IH r H) as (a & -> & Ha).
      exists (String c a). split; [reflexivity|]. cbn. now rewrite Ec.
Qed.

Lemma after_first_open_app a x :
  exists a', after_first_open (a ++ "{" ++ x) = Some (a' ++ x).
Proof.
  induction a as [|c a IH]; cbn.
  - exists "". reflexivity.
  - destruct (Ascii.eqb_spec c "{") as [->|_].
    + exists (a ++ "{"). now rewrite append_assoc.
    + exact IH.
Qed.

Lemma through_last_close_suffix r p :
  through_last_close r = Some p ->
  exists m b,
    p = m ++ "}" /\ r = p ++ b /\
    any_char (fun c => (c =? "}")%char) b = false.
Proof.
  revert p. induction r as [|c r IH]; intros p; cbn [through_last_close].
  - discriminate.
  - destruct (through_last_close r) as [q|] eqn:Eq.
    + intros H; injection H as <-.
      destruct (IH q eq_refl) as (m & b & -> & -> & Hb).
      exists (String c m), b. repeat split; assumption.
    + destruct (c =? "}")%char eqn:Ec; [|discriminate].
      intros H; injection H as <-. exists "", r.
      apply Ascii.eqb_eq in Ec. subst c. repeat split.
      clear IH. induction r as [|x r IHr]; [reflexivity|].
      cbn [through_last_close] in Eq.
      destruct (through_last_close r); [discriminate|].
      cbn. destruct (x =? "}")%char; [discriminate|]. now apply IHr.
Qed.

Lemma through_last_close_app u v :
  through_last_close (u ++ "}" ++ v) <> None.
Proof.
  induction u as [|c u IH].
  - cbn. destruct (through_last_close v); discriminate.
  - change (String c u ++ "}" ++ v) with (String c (u ++ "}" ++ v)).
    cbn [through_last_close].
    destruct (through_last_close (u ++ "}" ++ v)); [discriminate|now elim IH].
Qed.

(** The search fails exactly on the texts with no opening brace followed,
    anywhere later, by a closing brace. *)
Lemma search_json_block_None content :
  search_json_block content = None
  <-> ~ exists a m b, content = a ++ "{" ++ m ++ "}" ++ b.
Proof.
  unfold search_json_block. split.
  - intros H (a & m & b & ->).
    destruct (after_first_open_app a (m ++ "}" ++ b)) as [a' E].
    rewrite E in H. rewrite <- append_assoc in H.
    pose proof (through_last_close_app (a' ++ m) b) as Hne.
    destruct (through_last_close ((a' ++ m) ++ "}" ++ b)); [discriminate|contradiction].
  - intros Hno.
    destruct (after_first_open content) as [r|] eqn:Er; [|reflexivity].
    destruct (through_last_close r) as [p|] eqn:Ep; [|reflexivity].
    exfalso. apply Hno.
    apply after_first_open_prefix in Er as (a & -> & _).
    apply through_last_close_suffix in Ep as (m & b & -> & -> & _).
    exists a, m, b. now rewrite append_assoc.
Qed.

(** C3, as stated, fails on a reply whose block is found but does not
    decode: at iteration 5 the verdict is not the iteration-based fallback
    (complete, 0.7, nothing missing) but the conservative estimate. *)
Lemma broken_block_is_not_the_fallback :
  no_parseable_block Sample.broken /\
  (3 <=? 5) = true /\
  _evaluate_completeness (Sample.replying Sample.broken) "draft" "info" 5
    (Sample.config 10 5) []
  = Ret (JBool false, JFloat "0.5", JList [JString "无法评估"], JList [])
      [ELlm (CheckCompleteness "draft" "info" 5 10)].
Proof. vm_compute. auto. Qed.

(** C3 (amended): for every reply in which the pattern finds no block at
    all (no opening brace followed by a closing brace), the evaluation
    returns the fallback verdict, which depends on the iteration count only:
    complete exactly when [iteration >= 3], confidence 0.7, nothing missing,
    no tool proposed; so two evaluations of such replies at the same
    iteration agree, whatever the world, the document and the reply. *)
Theorem fallback_verdict (w : World) (document info : string) (iteration : Z)
  (config : Config) (t : trace) (content : string) :
  llm_invoke w (List.length t)
    (CheckCompleteness document info iteration
       (AgentConfig.max_iterations (agent config)))
  = Returns content ->
  search_json_block content = None ->
  _evaluate_completeness w document info iteration config t
  = Ret (JBool (3 <=? iteration), JFloat "0.7", JList [], JList [])
      (ELlm (CheckCompleteness document info iteration
               (AgentConfig.max_iterations (agent config))) :: t)
  /\
  (forall w' document' info' config' t' content',
     llm_invoke w' (List.length t')
       (CheckCompleteness document' info' iteration
          (AgentConfig.max_iterations (agent config')))
     = Returns content' ->
     search_json_block content' = None ->
     exists t1 t2 v,
       _evaluate_completeness w document info iteration config t = Ret v t1 /\
       _evaluate_completeness w' document' info' iteration config' t'
       = Ret v t2).
Proof.
  assert (forall w0 d0 i0 c0 t0 k0,
            llm_invoke w0 (List.length t0)
              (CheckCompleteness d0 i0 iteration
                 (AgentConfig.max_iterations (agent c0))) = Returns k0 ->
            search_json_block k0 = None ->
            _evaluate_completeness w0 d0 i0 iteration c0 t0
            = Ret (JBool (3 <=? iteration), JFloat "0.7", JList [], JList [])
                (ELlm (CheckCompleteness d0 i0 iteration
                         (AgentConfig.max_iterations (agent c0))) :: t0)) as Hgen.
  { intros w0 d0 i0 c0 t0 k0 Hreply Hnone.
    unfold _evaluate_completeness, bind, llm_call. rewrite Hreply.
    unfold read_verdict. rewrite Hnone. reflexivity. }
  intros Hreply Hnone. split; [exact (Hgen _ _ _ _ _ _ Hreply Hnone)|].
  intros w' document' info' config' t' content' Hreply' Hnone'.
  do 3 eexists. split.
  - exact (Hgen _ _ _ _ _ _ Hreply Hnone).
  - exact (Hgen _ _ _ _ _ _ Hreply' Hnone').
Qed.

Lemma fallback_verdict_witness :
  _evaluate_completeness (Sample.replying Sample.prose) "draft" "info" 2
    (Sample.config 5 5) []
  = Ret (JBool (3 <=? 2), JFloat "0.7", JList [], JList [])
      (ELlm (CheckCompleteness "draft" "info" 2
               (AgentConfig.max_iterations (agent (Sample.config 5 5)))) :: []).
Proof.
  apply (fallback_verdict (Sample.replying Sample.prose) "draft" "info" 2
           (Sample.config 5 5) [] Sample.prose).
  - reflexivity.
  - reflexivity.
Defined.

(** C10: the forced completion at [iteration >= 3] belongs to replies with no
    block only. Once a block is found the verdict does not depend on the
    iteration count; and when the block does not decode, the evaluation
    returns incomplete, confidence 0.5 and the one sentinel entry at every
    iteration count, so the check node below the cap asks for exploration
    and the graph goes to the dispatcher. *)
Theorem broken_block_never_completes (w : World) (s : AgentState)
  (config : Config) (t : trace) (content block : string) :
  let request :=
    CheckCompleteness (current_document s) (high_level_info s)
      (iteration_count s) (AgentConfig.max_iterations (agent config)) in
  llm_invoke w (List.length t) request = Returns content ->
  search_json_block content = Some block ->
  json_loads block = None ->
  (forall i j t', read_verdict content i t' = read_verdict content j t')
  /\
  _evaluate_completeness w (current_document s) (high_level_info s)
    (iteration_count s) config t
  = Ret (JBool false, JFloat "0.5", JList [JString "无法评估"], JList [])
      (ELlm request :: t)
  /\
  (iteration_count s < max_iterations s ->
   exists s',
     check_completeness_node w s config t = Ret s' (ELlm request :: t) /\
     is_complete s' = JBool false /\
     confidence_score s' = JFloat "0.5" /\
     missing_parts s' = JList [JString "无法评估"] /\
     status s' = "needs_exploration" /\
     next_node check_completeness (apply_update s s') = Some execute_tools).
Proof.
  intros request Hreply Hblock Hbroken.
  assert (_evaluate_completeness w (current_document s) (high_level_info s)
            (iteration_count s) config t
          = Ret conservative_verdict (ELlm request :: t)) as Heval.
  { unfold _evaluate_completeness, bind, llm_call. fold request.
    rewrite Hreply. unfold read_verdict. rewrite Hblock, Hbroken. reflexivity. }
  split; [|split].
  - intros i j t'. unfold read_verdict. rewrite Hblock. reflexivity.
  - exact Heval.
  - intros Hlt. unfold check_completeness_node.
    destruct (Z.leb_spec (max_iterations s) (iteration_count s)); [lia|].
    unfold bind at 1. rewrite Heval. unfold conservative_verdict.
    cbn [truthy]. unfold ret.
    eexists. split; [reflexivity|]. cbn. auto.
Qed.

Lemma broken_block_never_completes_witness :
  let s := set_iteration_count 7 (create_initial_state "/repo" None 10) in
  exists s',
    check_completeness_node (Sample.replying Sample.broken) s
      (Sample.config 10 5) []
    = Ret s' [ELlm (CheckCompleteness "" "" 7 10)] /\
    is_complete s' = JBool false /\
    confidence_score s' = JFloat "0.5" /\
    missing_parts s' = JList [JString "无法评估"] /\
    status s' = "needs_exploration" /\
    next_node check_completeness (apply_update s s') = Some execute_tools.
Proof.
  intros s.
  apply (broken_block_never_completes (Sample.replying Sample.broken) s
           (Sample.config 10 5) [] Sample.broken "{is_complete: true}").
  - reflexivity.
  - reflexivity.
  - reflexivity.
  - cbn. lia.
Defined.

(* ================================================================== *)
(** * Further properties of the loop *)
(* ================================================================== *)

(** X1: the search of the evaluation reply fails exactly on the texts with
    no opening brace followed later by a closing brace; when it succeeds,
    the block runs from the first opening brace of the reply to its last
    closing brace. *)
Theorem block_search_is_first_to_last_brace (content : string) :
  (search_json_block content = None
   <-> ~ exists a m b, content = a ++ "{" ++ m ++ "}" ++ b)
  /\
  (forall block,
     search_json_block content = Some block ->
     exists a m b,
       block = "{" ++ m ++ "}" /\ content = a ++ block ++ b /\
       any_char (fun c => (c =? "{")%char) a = false /\
       any_char (fun c => (c =? "}")%char) b = false).
Proof.
  split; [apply search_json_block_None|].
  intros block. unfold search_json_block.
  destruct (after_first_open content) as [r|] eqn:Er; [|discriminate].
  destruct (through_last_close r) as [p|] eqn:Ep; [|discriminate].
  intros H; injection H as <-.
  apply after_first_open_prefix in Er as (a & -> & Ha).
  apply through_last_close_suffix in Ep as (m & b & -> & -> & Hb).
  exists a, m, b. repeat split; assumption.
Qed.

(** X2: the evaluation step never changes the artifact, and its verdict
    alone decides the route: a completeness value that counts as true leads
    to the save node whatever budget remains, any other leads to the
    dispatcher, and only below the cap. *)
Theorem verdict_decides_route (w : World) (s : AgentState) (config : Config)
  (t : trace) (s' : AgentState) (t' : trace) :
  check_completeness_node w s config t = Ret s' t' ->
  current_document s' = current_document s /\
  document_versions s' = document_versions s /\
  (truthy (is_complete s') = true ->
   next_node check_completeness (apply_update s s') = Some save_output) /\
  (truthy (is_complete s') = false ->
   iteration_count s < max_iterations s /\
   next_node check_completeness (apply_update s s') = Some execute_tools).
Proof.
  intros H.
  assert (current_document s' = current_document s) as Hdoc.
  { revert H. unfold check_completeness_node.
    destruct (max_iterations s <=? iteration_count s);
      [intros H; inv H; reflexivity|].
    unfold bind.
    destruct (_evaluate_completeness w _ _ _ config t)
      as [[[[complete confidence] missing] suggested] t1|]; [|discriminate].
    destruct (truthy complete); [destruct (formats_as_float confidence)|];
      intros H; inv H; reflexivity. }
  apply check_completeness_node_frame in H as (_ & Hv & _ & _ & _ & Hs).
  destruct (apply_update_fields s s') as (_ & _ & _ & Es & Ec & _).
  split; [exact Hdoc|]. split; [exact Hv|]. split.
  - intros Ht. apply next_after_completion; [|now rewrite Ec].
    rewrite Es. destruct Hs as [(_ & _ & _ & Hst)|(_ & [[_ Hst]|[Hf _]])];
      [exact Hst|exact Hst|congruence].
  - intros Hf.
    destruct Hs as [(_ & _ & Hc & _)|(Hlt & [[Ht _]|[_ Hst]])].
    + rewrite Hc in Hf. discriminate.
    + congruence.
    + split; [exact Hlt|].
      apply next_after_incomplete; [now rewrite Es|now rewrite Ec].
Qed.

Lemma verdict_decides_route_witness :
  let s := set_iteration_count 1 (create_initial_state "/repo" None 10) in
  exists s' t',
    check_completeness_node sample_world s (Sample.config 10 5) []
    = Ret s' t' /\
    iteration_count s < max_iterations s /\
    next_node check_completeness (apply_update s s') = Some execute_tools.
Proof.
  intros s. eexists. eexists. split; [vm_compute; reflexivity|].
  refine (proj2 (proj2 (proj2
            (verdict_decides_route sample_world s (Sample.config 10 5) []
               _ _ _))) _).
  - vm_compute. reflexivity.
  - reflexivity.
Defined.

(** X3: the two edges that close the loop. A synthesis that returns clears
    the evidence bundle, makes its text the current document and the last
    version, and is followed by the evaluation; a dispatcher step that
    returns leaves the artifact alone and is followed by the next
    synthesis. *)
Theorem loop_edges (w : World) (s : AgentState) (config : Config) (t : trace)
  (s' : AgentState) (t' : trace) :
  (generate_doc_node w s config t = Ret s' t' ->
   current_tool_results s' = "" /\
   document_versions s'
   = (document_versions s ++ [current_document s'])%list /\
   next_node generate_doc (apply_update s s') = Some check_completeness)
  /\
  (tool_execution_node w s config t = Ret s' t' ->
   current_document s' = current_document s /\
   document_versions s' = document_versions s /\
   iteration_count s' = iteration_count s /\
   next_node execute_tools (apply_update s s') = Some generate_doc).
Proof.
  destruct (apply_update_fields s s') as (_ & _ & _ & Es & _ & _).
  split; intros H.
  - assert (current_tool_results s' = "") as Hclear.
    { revert H. unfold generate_doc_node, bind.
      destruct (if iteration_count s =? 0 then _ else _) as [doc t1|];
        [|discriminate].
      intros H; inv H. reflexivity. }
    apply generate_doc_node_frame in H as (_ & Hv & _ & _ & Hst & _).
    split; [exact Hclear|]. split; [exact Hv|].
    apply next_after_generate. now rewrite Es.
  - pose proof H as H0.
    apply tool_execution_node_ret in H0 as (specs & calls & results & _ & _ & _ & ->).
    apply tool_execution_node_frame in H as (Hi & Hv & _ & _ & _ & Hst & _).
    split; [reflexivity|]. split; [exact Hv|]. split; [exact Hi|].
    apply next_after_tools. now rewrite Es.
Qed.

Lemma loop_edges_witness :
  let s := Sample.awaiting_tools [Sample.outline; Sample.search] in
  exists s' t',
    tool_execution_node sample_world s (Sample.config 10 5) [] = Ret s' t' /\
    current_document s' = current_document s /\
    document_versions s' = document_versions s /\
    iteration_count s' = iteration_count s /\
    next_node execute_tools (apply_update s s') = Some generate_doc.
Proof.
  intros s. eexists. eexists. split; [vm_compute; reflexivity|].
  refine (proj2 (loop_edges sample_world s (Sample.config 10 5) [] _ _) _).
  vm_compute. reflexivity.
Defined.




(** X5: whenever the check node sends the run to exploration, it has asked
    the model once, and what the dispatcher then reads from the state is
    what the verdict proposed: the list itself when [suggested_tools] is a
    list. *)
Theorem proposals_reach_the_dispatcher (w : World) (s : AgentState)
  (config : Config) (t : trace) (s' : AgentState) (t' : trace) :
  check_completeness_node w s config t = Ret s' t' ->
  status s' = "needs_exploration" ->
  exists content complete confidence missing suggested_tools,
    llm_invoke w (List.length t)
      (CheckCompleteness (current_document s) (high_level_info s)
         (iteration_count s) (AgentConfig.max_iterations (agent config)))
    = Returns content /\
    read_verdict content (iteration_count s) []
    = Ret (complete, confidence, missing, suggested_tools) [] /\
    truthy complete = false /\
    stored_suggestions (current_tool_results (apply_update s s'))
    = received suggested_tools /\
    (forall l, suggested_tools = JList l ->
               stored_suggestions (current_tool_results (apply_update s s'))
               = JList l).
Proof.
  unfold check_completeness_node.
  destruct (max_iterations s <=? iteration_count s).
  { intros H; injection H as <- _. discriminate. }
  unfold bind, _evaluate_completeness, bind.
  destruct (llm_call w _ t) as [content t0|] eqn:E; [|discriminate].
  apply llm_call_ret in E as [-> E].
  rewrite read_verdict_any_trace.
  destruct (read_verdict content (iteration_count s) [])
    as [[[[complete confidence] missing] suggested] t1|] eqn:Ev; [|discriminate].
  assert (t1 = []) as ->.
  { revert Ev. unfold read_verdict.
    destruct (search_json_block content); [destruct (json_loads s0) as [[]|]|];
      cbn; intros H; now inversion H. }
  pose proof (read_verdict_decoded _ _ _ _ _ _ _ _ Ev) as Hd.
  destruct (truthy complete) eqn:Ec.
  { destruct (formats_as_float confidence); [|discriminate].
    intros H; injection H as <- _. discriminate. }
  intros H _; injection H as <- _.
  exists content, complete, confidence, missing, suggested.
  cbn [apply_update current_tool_results set_messages set_current_tool_results].
  rewrite (stored_after_dumps suggested Hd).
  repeat split; auto. now intros l ->.
Qed.

Lemma proposals_reach_the_dispatcher_witness :
  let s :=
    set_status "doc_generated"
      (set_iteration_count 1
         (set_document_versions ["first draft"]
            (set_current_document "first draft"
               (create_initial_state "/repo" None 10)))) in
  let s' :=
    set_current_tool_results
      (json_dumps (JList [Sample.outline; Sample.unknown; Sample.search]))
      (set_status "needs_exploration"
         (set_missing_parts (JList [JString "data model"])
            (set_confidence_score (JFloat "0.4")
               (set_is_complete (JBool false) s)))) in
  stored_suggestions (current_tool_results (apply_update s s'))
  = JList [Sample.outline; Sample.unknown; Sample.search].
Proof.
  intros s s'.
  destruct (proposals_reach_the_dispatcher sample_world s (Sample.config 10 5)
              [] s'
              [ELlm (CheckCompleteness (current_document s) (high_level_info s)
                       (iteration_count s) 10)])
    as (content & complete & confidence & missing & tools & Hc & Hv & _ & _ & Hl).
  - vm_compute. reflexivity.
  - reflexivity.
  - apply Hl. cbn in Hc. injection Hc as <-.
    vm_compute in Hv. now injection Hv as _ _ _ <-.
Defined.

(** ** Invariants of a run *)

Section Invariants.
Variables (w : World) (c : Config).
Variable Inv : option node -> AgentState -> trace -> Prop.
Variable Bad : trace -> Prop.
Hypothesis Hstep : forall n s t,
  Inv (Some n) s t ->
  match node_function w c n s t with
  | Ret new t' =>
      Inv (next_node n (apply_update s new)) (apply_update s new) t'
  | Exc _ t' => Bad t'
  end.
Hypothesis Hend : forall s t, Inv None s t -> Bad t.

Lemma run_from_keeps steps : forall n s t,
  Inv (Some n) s t ->
  match run_from w c steps n s t with
  | Finished s' t' => Inv None s' t'
  | Pending n' s' t' => Inv (Some n') s' t'
  | Raised _ t' => Bad t'
  end.
Proof.
  induction steps as [|k IH]; intros n s t H; cbn [run_from]; [exact H|].
  pose proof (Hstep n s t H) as Hs.
  destruct (node_function w c n s t) as [new t'|e t']; [|exact Hs].
  destruct (next_node n (apply_update s new)) as [n'|]; [now apply IH|exact Hs].
Qed.

Lemma run_keeps repo cp steps :
  Inv (Some init)
    (create_initial_state repo cp (AgentConfig.max_iterations (agent c))) [] ->
  match run w c repo cp steps with
  | Finished s' t' => Inv None s' t'
  | Pending n' s' t' => Inv (Some n') s' t'
  | Raised _ t' => Bad t'
  end.
Proof.
  intros H0. unfold run, invoke.
  pose proof (run_from_keeps steps init _ [] H0) as H.
  destruct (run_from w c steps init _ []) as [s t|e t|n s t];
    cbn [report]; try exact H.
  destruct (_ && _); [exact (Hend _ _ H)|exact H].
Qed.
End Invariants.

(** ** The exploration history *)

Lemma history_unchanged w c n s t s' t' :
  n <> execute_tools ->
  node_function w c n s t = Ret s' t' ->
  exploration_history s' = exploration_history s.
Proof.
  intros Hn. destruct n; cbn [node_function]; [| | |congruence|].
  - unfold init_node. destruct (path_exists w (repo_path s)); cbn [negb];
      [|intros H; now inv H].
    destruct (get_directory_tree w (repo_path s)); intros H; now inv H.
  - unfold generate_doc_node, bind.
    destruct (iteration_count s =? 0);
      [destruct (_generate_initial_doc w (high_level_info s) t)
      |destruct (_update_document w (current_document s)
                   (current_tool_results s) (missing_parts s) t)];
      intros H; now inv H.
  - unfold check_completeness_node.
    destruct (max_iterations s <=? iteration_count s); [intros H; now inv H|].
    unfold bind. destruct (_evaluate_completeness w _ _ _ _ t)
      as [[[[complete confidence] missing] suggested] t1|]; [|discriminate].
    destruct (truthy complete); [destruct (formats_as_float confidence)|];
      intros H; now inv H.
  - unfold save_output_node. destruct (make_output_dir w s c); [discriminate|].
    destruct (write_outputs w s c); intros H; now inv H.
Qed.

Lemma history_grows w c s t s' t' :
  tool_execution_node w s c t = Ret s' t' ->
  exists record,
    exploration_history s' = (exploration_history s ++ [record])%list /\
    iteration record = iteration_count s.
Proof.
  intros H. apply tool_execution_node_ret in H
    as (specs & calls & results & _ & _ & _ & ->).
  eexists. split; reflexivity.
Qed.

Lemma seq_snoc n : seq 1 (S n) = (seq 1 n ++ [S n])%list.
Proof. now rewrite seq_S. Qed.

Lemma history_step w c N n s t new t' :
  node_invariant N (Some n) s t ->
  history_invariant (Some n) s ->
  node_function w c n s t = Ret new t' ->
  history_invariant (next_node n (apply_update s new)) (apply_update s new).
Proof.
  intros Hinv [Hnum Hn] Hrun.
  pose proof (step_invariant w c N n s t new t' Hinv Hrun) as Hnext.
  cbn zeta in Hnext.
  destruct (apply_update_fields s new) as (Ei & _ & _ & Es & Ec & _).
  unfold history_invariant.
  change (exploration_history (apply_update s new))
    with (exploration_history new).
  rewrite Ei.
  destruct n.
  - rewrite (history_unchanged w c init s t new t' ltac:(discriminate) Hrun).
    split; [exact Hnum|]. cbn [node_function] in Hrun.
    apply init_node_frame in Hrun as (Fi & _ & _ & _ & _ & Fs).
    destruct Hn as [Hi Hh]. rewrite Fi, Hi, Hh.
    unfold next_node, _check_error. rewrite Es.
    destruct Fs as [[_ ->]|[_ ->]]; cbn; auto.
  - rewrite (history_unchanged w c generate_doc s t new t'
               ltac:(discriminate) Hrun).
    split; [exact Hnum|]. cbn [node_function] in Hrun.
    apply generate_doc_node_frame in Hrun as (Fi & _ & _ & _ & Fs & _).
    unfold next_node, _check_error. rewrite Es, Fs, Fi. cbn. lia.
  - rewrite (history_unchanged w c check_completeness s t new t'
               ltac:(discriminate) Hrun).
    split; [exact Hnum|]. cbn [node_function] in Hrun.
    apply check_completeness_node_frame in Hrun as (Fi & _ & _ & _ & _ & Fs).
    unfold next_node, _route_after_check. rewrite Es, Ec, Fi.
    destruct Fs as [(_ & _ & -> & ->)|(_ & [[-> ->]|[-> ->]])]; cbn; lia.
  - cbn [node_function] in Hrun.
    pose proof (history_grows w c s t new t' Hrun) as (record & -> & Hr).
    apply tool_execution_node_frame in Hrun as (Fi & _ & _ & _ & _ & Fs & _).
    rewrite length_app, map_app. cbn [List.length map].
    rewrite Nat.add_1_r, seq_snoc, map_app, Hnum, Hr. cbn [map].
    split; [f_equal; f_equal; lia|].
    unfold next_node, _check_error. rewrite Es, Fs, Fi. cbn. lia.
  - rewrite (history_unchanged w c save_output s t new t'
               ltac:(discriminate) Hrun).
    split; [exact Hnum|]. cbn [node_function] in Hrun.
    apply save_output_node_frame in Hrun as (Fi & _).
    cbn [next_node]. rewrite Fi. right. exact Hn.
Qed.

Lemma history_run w c repo cp steps :
  match run w c repo cp steps with
  | Finished s _ => history_invariant None s
  | Pending n s _ => history_invariant (Some n) s
  | Raised _ _ => True
  end.
Proof.
  set (N := AgentConfig.max_iterations (agent c)).
  pose proof (run_keeps w c
    (fun n s t => node_invariant N n s t /\ history_invariant n s)
    (fun _ => True)) as H.
  cbn beta in H.
  assert (forall n s t,
    node_invariant N (Some n) s t /\ history_invariant (Some n) s ->
    match node_function w c n s t with
    | Ret new t' =>
        node_invariant N (next_node n (apply_update s new))
          (apply_update s new) t' /\
        history_invariant (next_node n (apply_update s new))
          (apply_update s new)
    | Exc _ _ => True
    end) as Hstep.
  { intros n s t [Hi Hh].
    destruct (node_function w c n s t) as [new t'|e t'] eqn:E; [|exact I].
    split; [exact (step_invariant w c N n s t new t' Hi E)
           |exact (history_step w c N n s t new t' Hi Hh E)]. }
  specialize (H Hstep (fun _ _ _ => I) repo cp steps).
  fold N in H.
  assert (history_invariant (Some init) (create_initial_state repo cp N))
    as H0 by (split; [reflexivity|split; reflexivity]).
  specialize (H (conj (initial_invariant repo cp N) H0)).
  destruct (run w c repo cp steps) as [s t|e t|n s t]; [apply H|exact I|apply H].
Qed.

(** X6: the exploration records of a run are numbered 1, 2, ... in order,
    there are never more of them than syntheses, and a run that ends after
    at least one synthesis holds one record for every synthesis but the
    last. *)
Theorem exploration_is_numbered (w : World) (config : Config)
  (repo : string) (cp : option string) (steps : nat) (s : AgentState) :
  state_of (run w config repo cp steps) = Some s ->
  let history := exploration_history s in
  map iteration history = map Z.of_nat (seq 1 (List.length history)) /\
  Z.of_nat (List.length history) <= iteration_count s /\
  (forall t,
     run w config repo cp steps = Finished s t ->
     1 <= iteration_count s ->
     Z.of_nat (List.length history) + 1 = iteration_count s).
Proof.
  intros Hs history. subst history.
  pose proof (history_run w config repo cp steps) as H.
  destruct (run w config repo cp steps) as [s0 t0|e t0|n s0 t0];
    cbn [state_of] in Hs; try discriminate; injection Hs as ->;
    destruct H as [Hnum Hn]; cbn zeta in Hnum, Hn; (split; [exact Hnum|]).
  - split.
    + destruct Hn as [[-> ->]|Hn]; cbn [List.length]; lia.
    + intros t _ Hone. destruct Hn as [[Hz _]|Hn]; lia.
  - split; [|discriminate].
    destruct n; try lia. destruct Hn as [-> ->]. cbn. lia.
Qed.

Lemma exploration_is_numbered_witness :
  match state_of (run sample_world (Sample.config 3 5) "/repo" None 10) with
  | Some s =>
      map iteration (exploration_history s) = [1; 2] /\
      iteration_count s = 3
  | None => False
  end.
Proof.
  destruct (state_of (run sample_world (Sample.config 3 5) "/repo" None 10))
    as [s|] eqn:E.
  - destruct (exploration_is_numbered sample_world (Sample.config 3 5)
                "/repo" None 10 s E) as (Hnum & _ & _).
    cbn zeta in Hnum. rewrite Hnum.
    vm_compute in E. injection E as <-. split; reflexivity.
  - vm_compute in E. discriminate.
Defined.

(** ** The calls of a run *)

Lemma llm_calls_app new t :
  llm_calls (new ++ t)%list
  = (List.length (filter is_llm new) + llm_calls t)%nat.
Proof. unfold llm_calls. now rewrite filter_app, length_app. Qed.

Lemma engine_owned_tools repo new :
  Forall (engine_owned repo) new ->
  filter is_llm new = [] /\ filter is_tool new = new.
Proof.
  induction 1 as [|ev new Hev _ [IHl IHt]]; [auto|].
  destruct ev as [r|name args]; [contradiction|]. cbn. rewrite IHl, IHt. auto.
Qed.

Lemma generate_doc_node_trace w s c t :
  trace_of (generate_doc_node w s c t) = t
  \/ exists r, trace_of (generate_doc_node w s c t) = ELlm r :: t.
Proof.
  unfold generate_doc_node, bind.
  destruct (iteration_count s =? 0).
  - unfold _generate_initial_doc, llm_call.
    destruct (llm_invoke w _ _); right; eexists; reflexivity.
  - unfold _update_document, bind.
    pose proof (missing_str_trace w (missing_parts s) "无" t) as Hm.
    destruct (missing_str w (missing_parts s) "无" t) as [ms t0|e t0];
      cbn [trace_of] in Hm; subst t0; [|now left].
    unfold llm_call. destruct (llm_invoke w _ _); right; eexists; reflexivity.
Qed.

Lemma check_completeness_node_trace w s c t :
  trace_of (check_completeness_node w s c t) = t
  \/ iteration_count s < max_iterations s /\
     exists r, trace_of (check_completeness_node w s c t) = ELlm r :: t.
Proof.
  unfold check_completeness_node.
  destruct (Z.leb_spec (max_iterations s) (iteration_count s)); [now left|].
  right. split; [assumption|].
  unfold bind, _evaluate_completeness, bind, llm_call.
  destruct (llm_invoke w _ _) as [content|e]; [|eexists; reflexivity].
  rewrite read_verdict_any_trace.
  destruct (read_verdict content (iteration_count s) [])
    as [[[[complete confidence] missing] suggested] t1|];
    [|eexists; reflexivity].
  destruct (truthy complete); [destruct (formats_as_float confidence)|];
    eexists; reflexivity.
Qed.

Lemma tool_execution_node_calls w s c t :
  0 <= AgentConfig.max_tool_calls_per_iteration (agent c) ->
  let t' := trace_of (tool_execution_node w s c t) in
  Z.of_nat (llm_calls t') <= Z.of_nat (llm_calls t) + 1 /\
  Z.of_nat (tool_invocations t')
  <= Z.of_nat (tool_invocations t)
     + AgentConfig.max_tool_calls_per_iteration (agent c).
Proof.
  intros Hm t'. subst t'.
  destruct (tool_execution_node_trace w s c t)
    as (new & pre & -> & Hnew & Hlen & Hpre).
  specialize (Hlen Hm).
  destruct (engine_owned_tools _ _ Hnew) as [Hl Ht].
  rewrite llm_calls_app, tool_invocations_app, Hl, Ht.
  rewrite llm_calls_app, tool_invocations_app.
  destruct Hpre as [->|(_ & ev & -> & Hev)]; cbn [filter List.length].
  - lia.
  - destruct ev as [[]|]; try contradiction. cbn. lia.
Qed.

(** Decides the tests on closed strings that the routers leave. *)
Ltac decide_routes :=
  repeat match goal with
  | |- context [String.eqb ?a ?b] =>
      let v := eval vm_compute in (String.eqb a b) in
      change (String.eqb a b) with v
  end;
  cbn match.

(** One more call to the model. *)
Ltac llm_step r t :=
  change (llm_calls (ELlm r :: t)) with (S (llm_calls t));
  change (tool_invocations (ELlm r :: t)) with (tool_invocations t);
  rewrite ?Nat2Z.inj_succ.

Lemma calls_step w c n s t :
  let N := AgentConfig.max_iterations (agent c) in
  let m := AgentConfig.max_tool_calls_per_iteration (agent c) in
  0 <= m ->
  node_invariant N (Some n) s t ->
  calls_invariant N m (Some n) s t ->
  match node_function w c n s t with
  | Ret new t' =>
      calls_invariant N m (next_node n (apply_update s new))
        (apply_update s new) t'
  | Exc _ t' => calls_bound N m t'
  end.
Proof.
  intros N m Hm Hinv Hcalls.
  assert (0 <= iteration_count s) as Hpos
    by (destruct Hinv as (_ & <- & _); lia).
  destruct Hinv as (Hmax & Hlen & Hsyn & Hmsg & Hn).
  unfold calls_invariant, calls_bound in *. cbn zeta in *.
  destruct n; cbn [node_function]; destruct Hcalls as [Hcl Hct].
  - destruct (init_node w s c t) as [new t'|e t'] eqn:E.
    + apply init_node_frame in E as (Fi & _ & _ & _ & -> & Fs).
      destruct (apply_update_fields s new) as (Ei & _ & _ & Es & _ & _).
      unfold next_node, _check_error. rewrite Es, Ei, Fi, Hn.
      destruct Fs as [[_ ->]|[_ ->]]; decide_routes; nia.
    + assert (t' = t) as ->.
      { revert E. unfold init_node.
        destruct (path_exists w (repo_path s)); cbn [negb]; [|discriminate].
        destruct (get_directory_tree w (repo_path s)); [discriminate|].
        unfold raise. intros H; now inv H. }
      nia.
  - pose proof (generate_doc_node_trace w s c t) as Ht.
    destruct (generate_doc_node w s c t) as [new t'|e t'] eqn:E;
      cbn [trace_of] in Ht.
    + apply generate_doc_node_frame in E as (Fi & _ & _ & _ & Fs & _).
      destruct (apply_update_fields s new) as (Ei & _ & _ & Es & _ & _).
      unfold next_node, _check_error. rewrite Es, Ei, Fs, Fi. decide_routes.
      destruct Ht as [->|[r ->]].
      * nia.
      * llm_step r t. nia.
    + destruct Ht as [->|[r ->]].
      * nia.
      * llm_step r t. nia.
  - pose proof (check_completeness_node_trace w s c t) as Ht.
    destruct (check_completeness_node w s c t) as [new t'|e t'] eqn:E;
      cbn [trace_of] in Ht.
    + apply check_completeness_node_frame in E as (Fi & _ & _ & _ & _ & Fs).
      destruct (apply_update_fields s new) as (Ei & _ & _ & Es & Ec & _).
      unfold next_node, _route_after_check. rewrite Es, Ec, Ei, Fi.
      destruct Ht as [->|(Hlt & r & ->)].
      * destruct Fs as [(_ & _ & -> & ->)|(_ & [[-> ->]|[-> ->]])];
          decide_routes; cbn [truthy]; cbn match; nia.
      * llm_step r t.
        destruct Fs as [(_ & _ & -> & ->)|(_ & [[-> ->]|[-> ->]])];
          decide_routes; cbn [truthy]; cbn match; nia.
    + destruct Ht as [->|(Hlt & r & ->)].
      * nia.
      * llm_step r t. nia.
  - pose proof (tool_execution_node_calls w s c t Hm) as [Hl Ht].
    cbn zeta in Hl, Ht. fold m in Ht.
    destruct (tool_execution_node w s c t) as [new t'|e t'] eqn:E;
      cbn [trace_of] in Hl, Ht.
    + apply tool_execution_node_frame in E as (Fi & _ & _ & _ & _ & Fs & _).
      destruct (apply_update_fields s new) as (Ei & _ & _ & Es & _ & _).
      unfold next_node, _check_error. rewrite Es, Ei, Fs, Fi. decide_routes. nia.
    + nia.
  - destruct (save_output_node w s c t) as [new t'|e t'] eqn:E.
    + apply save_output_node_frame in E as (_ & _ & _ & _ & _ & -> & _).
      cbn [next_node]. now split.
    + assert (t' = t) as ->.
      { revert E. unfold save_output_node, raise.
        destruct (make_output_dir w s c); [intros H; now inv H|].
        destruct (write_outputs w s c); discriminate. }
      now split.
Qed.

(** X7: whatever the model and the tools answer, a run with the cap N and
    a budget m >= 0 calls the model at most 3 max(N, 1) - 2 times and the
    tool handlers at most (max(N, 1) - 1) m times, also when it ends with
    an uncaught exception. *)
Theorem calls_are_bounded (w : World) (config : Config) (repo : string)
  (cp : option string) (steps : nat) :
  let N := AgentConfig.max_iterations (agent config) in
  let m := AgentConfig.max_tool_calls_per_iteration (agent config) in
  0 <= m ->
  let t := run_trace (run w config repo cp steps) in
  Z.of_nat (llm_calls t) <= 3 * Z.max 1 N - 2 /\
  Z.of_nat (tool_invocations t) <= (Z.max 1 N - 1) * m.
Proof.
  intros N m Hm t. subst t.
  pose proof (run_keeps w config
    (fun n s t => node_invariant N n s t /\ calls_invariant N m n s t)
    (calls_bound N m)) as H.
  cbn beta in H.
  assert (forall n s t,
    node_invariant N (Some n) s t /\ calls_invariant N m (Some n) s t ->
    match node_function w config n s t with
    | Ret new t' =>
        node_invariant N (next_node n (apply_update s new))
          (apply_update s new) t' /\
        calls_invariant N m (next_node n (apply_update s new))
          (apply_update s new) t'
    | Exc _ t' => calls_bound N m t'
    end) as Hstep.
  { intros n s t [Hi Hc].
    pose proof (calls_step w config n s t Hm Hi Hc) as Hs.
    destruct (node_function w config n s t) as [new t'|e t'] eqn:E;
      [|exact Hs].
    split; [exact (step_invariant w config N n s t new t' Hi E)|exact Hs]. }
  specialize (H Hstep (fun s t H => proj2 H) repo cp steps).
  fold N in H.
  assert (calls_invariant N m (Some init) (create_initial_state repo cp N) [])
    as H0 by (split; reflexivity).
  specialize (H (conj (initial_invariant repo cp N) H0)).
  destruct (run w config repo cp steps) as [s t|e t|n s t]; cbn [run_trace].
  - apply H.
  - apply H.
  - destruct H as [(Hmax & Hlen & _ & _ & Hn) Hc].
    assert (0 <= iteration_count s) by lia.
    unfold calls_invariant in Hc. cbn zeta in Hc.
    destruct n; nia.
Qed.

Lemma calls_are_bounded_witness :
  let t := run_trace (run sample_world (Sample.config 3 2) "/repo" None 10) in
  Z.of_nat (llm_calls t) <= 7 /\ Z.of_nat (tool_invocations t) <= 4.
Proof.
  apply (calls_are_bounded sample_world (Sample.config 3 2) "/repo" None 10).
  cbn. lia.
Defined.

(** ** Characters *)

Lemma chars_aux_spec s :
  all_continuation (fst (chars_aux s)) = true /\
  Forall (fun x => is_char x = true) (snd (chars_aux s)).
Proof.
  induction s as [|c s [IHp IHl]]; cbn [chars_aux]; [auto|].
  destruct (chars_aux s) as [p l]. cbn [fst snd] in *.
  destruct (is_continuation c) eqn:Ec; cbn [fst snd].
  - cbn. now rewrite Ec, IHp.
  - split; [reflexivity|]. constructor; [|exact IHl]. cbn. now rewrite Ec, IHp.
Qed.

Lemma chars_aux_continuation p : forall r,
  all_continuation p = true ->
  chars_aux (p ++ r) = (p ++ fst (chars_aux r), snd (chars_aux r)).
Proof.
  induction p as [|c p IH]; intros r Hp; cbn [append].
  - now destruct (chars_aux r).
  - cbn in Hp. apply andb_prop in Hp as [Hc Hp].
    cbn [chars_aux]. rewrite (IH r Hp), Hc. reflexivity.
Qed.

Lemma concat_empty_cons (x : string) l :
  String.concat "" (x :: l) = x ++ String.concat "" l.
Proof.
  destruct l as [|y l]; cbn [String.concat]; [now rewrite append_nil_r|].
  reflexivity.
Qed.

Lemma chars_of_concat l :
  Forall (fun x => is_char x = true) l ->
  chars_aux (String.concat "" l) = ("", l).
Proof.
  induction 1 as [|x l Hx _ IH]; [reflexivity|].
  rewrite concat_empty_cons.
  destruct x as [|c p]; [discriminate|]. cbn in Hx.
  apply andb_prop in Hx as [Hc Hp]. apply negb_true_iff in Hc.
  cbn [append chars_aux].
  rewrite (chars_aux_continuation p _ Hp), IH, Hc. cbn [fst snd].
  now rewrite append_nil_r.
Qed.

Lemma Forall_firstn {A : Type} (P : A -> Prop) n : forall l,
  Forall P l -> Forall P (firstn n l).
Proof.
  induction n as [|n IH]; intros l H; [constructor|].
  destruct H; cbn; constructor; auto.
Qed.

Lemma py_chars_take k s : py_chars (py_take k s) = slice_to k (py_chars s).
Proof.
  unfold py_take, py_chars at 1. rewrite chars_of_concat; [reflexivity|].
  destruct (slice_to_firstn k (py_chars s)) as [n ->].
  apply Forall_firstn, chars_aux_spec.
Qed.

(** [len(s[:k]) <= k] *)
Lemma py_len_take k s : 0 <= k -> py_len (py_take k s) <= k.
Proof.
  intros Hk. unfold py_len. rewrite py_chars_take.
  pose proof (slice_to_length k (py_chars s) Hk). lia.
Qed.

(** ** What the loop records *)

Lemma run_tools_calls w repo (P : ToolCall -> Prop) :
  (forall name args reason t call entry t',
     call_tool w repo name args reason t = Ret (call, entry) t' -> P call) ->
  forall specs calls results t c r t',
    Forall P calls ->
    run_tools w repo specs calls results t = Ret (c, r) t' ->
    Forall P c.
Proof.
  intros Hcall. induction specs as [|spec rest IH];
    intros calls results t c r t' Hcalls; cbn [run_tools].
  - intros H; now inv H.
  - destruct spec; try discriminate.
    destruct (negb (hashable _)); [discriminate|].
    destruct (registered _) as [name|]; [|now apply IH].
    unfold bind.
    destruct (call_tool w repo name _ _ t) as [[call entry] t1|] eqn:E;
      [|discriminate].
    apply IH. apply Forall_app. split; [exact Hcalls|].
    constructor; [|constructor]. exact (Hcall _ _ _ _ _ _ _ E).
Qed.

Lemma call_tool_result w repo name args reason t call entry t' :
  call_tool w repo name args reason t = Ret (call, entry) t' ->
  success call = true -> py_len (result call) <= 2000.
Proof.
  intros E Hs.
  destruct (call_tool_ret w repo name args reason t)
    as (call0 & entry0 & t0 & E0 & _ & [[_ Hf]|(d & -> & H)]);
    rewrite E in E0; injection E0 as <- <- <-.
  - congruence.
  - cbn zeta in H. destruct H as (_ & _ & H).
    destruct (tool_invoke w _ name _) as [res|e].
    + destruct H as (_ & -> & _). now apply py_len_take.
    + destruct H as (Hf & _). congruence.
Qed.

(** What a returning dispatcher step ran: the selection it sliced and the
    loop over the slice. *)
Lemma tool_execution_node_batch w s c t s' t' :
  tool_execution_node w s c t = Ret s' t' ->
  exists sel t0 (specs : list json) (calls : list ToolCall)
         (results : list string),
    py_slice_iter sel (AgentConfig.max_tool_calls_per_iteration (agent c))
    = Some specs /\
    run_tools w (repo_path s) specs [] [] t0 = Ret (calls, results) t' /\
    s' = record_batch s calls results.
Proof.
  unfold tool_execution_node, bind, execute_batch.
  destruct (if truthy _ then _ else _) as [sel t0|]; [|discriminate].
  destruct (py_slice_iter sel _) as [specs|] eqn:Es; [|discriminate].
  unfold bind.
  destruct (run_tools w _ specs [] [] t0) as [[calls results] t1|] eqn:Er;
    [|discriminate].
  intros H; injection H as <- <-.
  exists sel, t0, specs, calls, results. auto.
Qed.

(** X8: the audit record of a successful call holds at most the first
    2000 characters of what the handler returned, while the evidence entry
    handed to the next synthesis holds all of it. *)
Theorem records_are_truncated (w : World) (s : AgentState) (config : Config)
  (t : trace) :
  (forall s' t',
     tool_execution_node w s config t = Ret s' t' ->
     exists record,
       exploration_history s' = (exploration_history s ++ [record])%list /\
       Forall (fun call => success call = true -> py_len (result call) <= 2000)
         (tool_calls record))
  /\
  (forall name d reason res,
     let args := JObject (dict_set "repo_path" (JString (repo_path s)) d) in
     tool_invoke w (List.length t) name args = Returns res ->
     exists call entry,
       call_tool w (repo_path s) name (JObject d) reason t
       = Ret (call, entry) (ETool name args :: t) /\
       result call = py_take 2000 res /\
       py_chars (result call) = firstn 2000 (py_chars res) /\
       exists before after, entry = before ++ res ++ after).
Proof.
  split.
  - intros s' t' H.
    apply tool_execution_node_batch in H
      as (sel & t0 & specs & calls & results & _ & Er & ->).
    eexists. split; [reflexivity|]. cbn [tool_calls].
    apply (run_tools_calls w (repo_path s) _
             (call_tool_result w (repo_path s)) _ _ _ _ _ _ _
             (Forall_nil _) Er).
  - intros name d reason res args Hres. unfold call_tool, bind, tool_try.
    fold args. rewrite Hres. eexists. eexists. split; [reflexivity|].
    cbn [result]. split; [reflexivity|]. split.
    + rewrite py_chars_take. reflexivity.
    + unfold success_entry. eexists. exists nl.
      rewrite <- !append_assoc. reflexivity.
Qed.

Lemma records_are_truncated_witness :
  let s := Sample.awaiting_tools [Sample.outline] in
  exists record,
    exploration_history
      (record_batch s
         [mkToolCall "get_file_outline"
            (JObject [("file_path", JString "main.py");
                      ("repo_path", JString "/repo")])
            "def main(): ..." true]
         [success_entry sample_world "get_file_outline"
            (JObject [("file_path", JString "main.py");
                      ("repo_path", JString "/repo")])
            (JString "look closer") "def main(): ..."])
    = (exploration_history s ++ [record])%list /\
    Forall (fun call => success call = true -> py_len (result call) <= 2000)
      (tool_calls record).
Proof.
  intros s.
  apply (proj1 (records_are_truncated sample_world s (Sample.config 10 5) [])
           _ [ETool "get_file_outline"
                (JObject [("file_path", JString "main.py");
                          ("repo_path", JString "/repo")])]).
  vm_compute. reflexivity.
Defined.

(** ** The invocations of a batch *)

Lemma dict_get_set_other k k' v d :
  (k' =? k)%string = false ->
  dict_get k (dict_set k' v d) = dict_get k d.
Proof.
  intros Hk. induction d as [|[k0 x0] d IH]; cbn [dict_set dict_get].
  - now rewrite Hk.
  - destruct (k0 =? k')%string eqn:E0; cbn [dict_get].
    + apply String.eqb_eq in E0 as ->. now rewrite Hk.
    + now rewrite IH.
Qed.

Lemma run_tools_invocations w repo specs :
  Forall (fun spec => well_formed_spec spec = true) specs ->
  forall calls results t,
    trace_of (run_tools w repo specs calls results t)
    = (rev (flat_map (invocation repo) specs) ++ t)%list.
Proof.
  induction 1 as [|spec rest Hspec _ IH]; intros calls results t;
    [reflexivity|].
  destruct spec; try discriminate. cbn [well_formed_spec] in Hspec.
  cbn [run_tools flat_map invocation]. rewrite Hspec. cbn [negb].
  destruct (registered _) as [name|]; [|apply IH].
  unfold bind.
  destruct (get_default "args" (JObject []) d) as [| | | | | |args] eqn:Ea;
    cbn [call_tool ret]; rewrite ?IH, ?app_nil_r; try reflexivity.
  unfold bind, tool_try.
  destruct (tool_invoke w _ name _); cbn [ret]; rewrite IH;
    cbn [rev app]; now rewrite <- app_assoc.
Qed.

(** X9: on a batch of well-formed proposals the handlers a dispatcher step
    invokes are exactly the registered proposals with dict arguments among
    those the budget admits, in the order proposed, each once, with the
    proposal's own arguments and [repo_path] set to the run's repository. *)
Theorem invocations_follow_proposals (w : World) (s : AgentState)
  (config : Config) (t : trace) (l : list json) :
  let m := AgentConfig.max_tool_calls_per_iteration (agent config) in
  let batch := flat_map (invocation (repo_path s)) (slice_to m l) in
  stored_suggestions (current_tool_results s) = JList l -> l <> [] ->
  Forall (fun spec => well_formed_spec spec = true) (slice_to m l) ->
  trace_of (tool_execution_node w s config t) = (rev batch ++ t)%list /\
  (forall ev,
     In ev batch ->
     exists d name args,
       In (JObject d) (slice_to m l) /\
       registered (get_default "tool" (JString "") d) = Some name /\
       get_default "args" (JObject []) d = JObject args /\
       ev = ETool name
              (JObject (dict_set "repo_path" (JString (repo_path s)) args)) /\
       forall k,
         k <> "repo_path" ->
         dict_get k (dict_set "repo_path" (JString (repo_path s)) args)
         = dict_get k args).
Proof.
  intros m batch Hs Hl Hwf. split.
  - rewrite (tool_execution_node_stored w s config t l Hs Hl). fold m.
    unfold execute_batch. cbn [py_slice_iter]. unfold bind.
    pose proof (run_tools_invocations w (repo_path s) _ Hwf [] [] t) as Ht.
    destruct (run_tools w (repo_path s) (slice_to m l) [] [] t)
      as [[calls results] t1|e t1]; exact Ht.
  - intros ev Hin. subst batch. apply in_flat_map in Hin as (spec & Hspec & Hev).
    destruct spec as [| | | | | |d]; try contradiction.
    cbn [invocation] in Hev.
    destruct (registered _) as [name|] eqn:Er; [|contradiction].
    destruct (get_default "args" (JObject []) d) as [| | | | | |args] eqn:Ea;
      try contradiction.
    destruct Hev as [<-|[]]. exists d, name, args.
    repeat split; auto. intros k Hk. apply dict_get_set_other.
    destruct (String.eqb_spec "repo_path" k); congruence.
Qed.

Lemma invocations_follow_proposals_witness :
  trace_of
    (tool_execution_node sample_world
       (Sample.awaiting_tools [Sample.unknown; Sample.outline; Sample.search])
       (Sample.config 10 2) [])
  = [ETool "get_file_outline"
       (JObject [("file_path", JString "main.py");
                 ("repo_path", JString "/repo")])].
Proof.
  apply (proj1 (invocations_follow_proposals sample_world
           (Sample.awaiting_tools
              [Sample.unknown; Sample.outline; Sample.search])
           (Sample.config 10 2) []
           [Sample.unknown; Sample.outline; Sample.search]
           ltac:(vm_compute; reflexivity) ltac:(discriminate)
           ltac:(repeat constructor))).
Defined.

(** ** Verdicts of the wrong type *)

(** X10: a verdict of the wrong type ends the run with an exception that
    nothing catches. Below the cap, a verdict that counts as complete but
    whose confidence is not a number makes the check node raise after the
    model has answered; a verdict that counts as incomplete is stored as it
    is, and a stored [missing_parts] that counts as true but cannot be
    iterated makes the next update of the document raise before the model
    is called, and the dispatcher too when it has to select tools itself. *)
Theorem ill_typed_verdict_raises (w : World) (s : AgentState)
  (config : Config) (t : trace) :
  (forall content complete confidence missing suggested,
     iteration_count s < max_iterations s ->
     llm_invoke w (List.length t) (evaluation_request s config)
     = Returns content ->
     read_verdict content (iteration_count s) []
     = Ret (complete, confidence, missing, suggested) [] ->
     (truthy complete = true -> formats_as_float confidence = false ->
      exists e,
        check_completeness_node w s config t
        = Exc e (ELlm (evaluation_request s config) :: t)) /\
     (truthy complete = false ->
      exists s',
        check_completeness_node w s config t
        = Ret s' (ELlm (evaluation_request s config) :: t) /\
        missing_parts s' = missing /\ confidence_score s' = confidence))
  /\
  (truthy (missing_parts s) = true -> py_iter (missing_parts s) = None ->
   (iteration_count s <> 0 ->
    exists e, generate_doc_node w s config t = Exc e t) /\
   (truthy (stored_suggestions (current_tool_results s)) = false ->
    exists e, tool_execution_node w s config t = Exc e t)).
Proof.
  split.
  - intros content complete confidence missing suggested Hlt Hllm Hv.
    unfold check_completeness_node.
    destruct (Z.leb_spec (max_iterations s) (iteration_count s)); [lia|].
    unfold bind, _evaluate_completeness, bind, llm_call.
    fold (evaluation_request s config). rewrite Hllm.
    rewrite read_verdict_any_trace, Hv.
    split.
    + intros Hc Hf. rewrite Hc, Hf. eexists. reflexivity.
    + intros Hc. rewrite Hc. eexists. split; [reflexivity|]. split; reflexivity.
  - intros Ht Hi. split.
    + intros Hz. unfold generate_doc_node, bind.
      destruct (Z.eqb_spec (iteration_count s) 0); [contradiction|].
      unfold _update_document, bind, missing_str. rewrite Ht, Hi.
      eexists. reflexivity.
    + intros Hs. unfold tool_execution_node, bind. rewrite Hs.
      unfold _select_tools_with_llm, bind, missing_str. rewrite Ht, Hi.
      eexists. reflexivity.
Qed.

Lemma ill_typed_verdict_raises_witness :
  let reply :=
    json_dumps (JObject [("is_complete", JBool true);
                         ("confidence_score", JString "high")]) in
  let s :=
    set_status "doc_generated"
      (set_iteration_count 1 (create_initial_state "/repo" None 10)) in
  exists e,
    check_completeness_node (Sample.replying reply) s (Sample.config 10 5) []
    = Exc e [ELlm (evaluation_request s (Sample.config 10 5))].
Proof.
  intros reply s.
  apply (proj1 (proj1 (ill_typed_verdict_raises (Sample.replying reply) s
                         (Sample.config 10 5) [])
                  reply (JBool true) (JString "high") (JList []) (JList [])
                  ltac:(cbn; lia) eq_refl ltac:(vm_compute; reflexivity)));
    reflexivity.
Defined.

(** ** A selection that fails *)

Lemma read_selection_default (r : attempt) :
  match r with
  | Throws _ => True
  | Returns content => no_parseable_block content
  end ->
  read_selection r = default_selection.
Proof.
  destruct r as [content|e]; [|reflexivity]. unfold no_parseable_block.
  cbn [read_selection].
  destruct (search_json_block content); [|reflexivity].
  now intros ->.
Qed.

(** X11: when no proposal is stored the dispatcher asks the model once;
    if that call raises, or its reply holds no block that decodes, the
    batch is the default one: with a budget of at least one, a single call
    of [list_files_by_extension] for [.py] files of the run's repository;
    with a budget of zero or less, no call at all. *)
Theorem failed_selection_explores_by_default (w : World) (s : AgentState)
  (config : Config) (t : trace) (ms : string) :
  let m := AgentConfig.max_tool_calls_per_iteration (agent config) in
  let request :=
    ToolSelection (py_take 2000 (current_document s)) ms (directory_tree s) m in
  truthy (stored_suggestions (current_tool_results s)) = false ->
  missing_str w (missing_parts s) "无具体缺失，需要进一步探索" t = Ret ms t ->
  match llm_invoke w (List.length t) request with
  | Throws _ => True
  | Returns content => no_parseable_block content
  end ->
  (1 <= m ->
   trace_of (tool_execution_node w s config t)
   = default_invocation (repo_path s) :: ELlm request :: t) /\
  (m <= 0 ->
   tool_execution_node w s config t
   = Ret (record_batch s [] []) (ELlm request :: t)).
Proof.
  intros m request Hs Hms Hsel.
  apply read_selection_default in Hsel.
  assert (tool_execution_node w s config t
          = execute_batch w s default_selection m (ELlm request :: t)) as ->.
  { unfold tool_execution_node, bind. rewrite Hs.
    unfold _select_tools_with_llm, bind. rewrite Hms.
    unfold llm_try, ret. fold m. fold request. now rewrite Hsel. }
  unfold execute_batch, default_selection.
  cbn [py_slice_iter]. unfold slice_to. cbn [List.length].
  split; intros Hm.
  - destruct (Z.ltb_spec m 0); [lia|].
    destruct (Z.to_nat m) as [|k] eqn:Ek; [lia|]. cbn [firstn].
    rewrite firstn_nil. unfold bind. cbn [run_tools get_default dict_get String.eqb Ascii.eqb
                        Bool.eqb hashable negb].
    change (registered (JString "list_files_by_extension"))
      with (Some "list_files_by_extension").
    unfold bind, call_tool, bind, tool_try.
    destruct (tool_invoke w _ _ _); reflexivity.
  - destruct (Z.ltb_spec m 0).
    + replace (Z.to_nat (Z.of_nat 1 + m)) with 0%nat by lia. reflexivity.
    + replace (Z.to_nat m) with 0%nat by lia. reflexivity.
Qed.

Lemma failed_selection_explores_by_default_witness :
  let s := Sample.awaiting_tools [] in
  trace_of (tool_execution_node sample_world s (Sample.config 10 5) [])
  = [default_invocation "/repo";
     ELlm (ToolSelection "first draft" "无具体缺失，需要进一步探索" "" 5)].
Proof.
  intros s.
  apply (proj1 (failed_selection_explores_by_default sample_world s
                  (Sample.config 10 5) [] "无具体缺失，需要进一步探索"
                  ltac:(vm_compute; reflexivity) eq_refl I)).
  cbn. lia.
Defined.

(** ** Keys the verdict leaves out *)

(** X12: below the cap, a reply whose block decodes to a dict without the
    key [is_complete] never completes the run: the check node stores the
    defaults for the keys left out (incomplete, confidence 0.5, nothing
    missing) and routes to the dispatcher, which finds no proposal when
    [suggested_tools] is left out as well. *)
Theorem missing_keys_mean_incomplete (w : World) (s : AgentState)
  (config : Config) (t : trace) (content block : string)
  (d : list (string * json)) :
  iteration_count s < max_iterations s ->
  llm_invoke w (List.length t) (evaluation_request s config)
  = Returns content ->
  search_json_block content = Some block ->
  json_loads block = Some (JObject d) ->
  dict_get "is_complete" d = None ->
  exists s',
    check_completeness_node w s config t
    = Ret s' (ELlm (evaluation_request s config) :: t) /\
    is_complete s' = JBool false /\
    status s' = "needs_exploration" /\
    next_node check_completeness (apply_update s s') = Some execute_tools /\
    (dict_get "confidence_score" d = None ->
     confidence_score s' = JFloat "0.5") /\
    (dict_get "missing_parts" d = None -> missing_parts s' = JList []) /\
    (dict_get "suggested_tools" d = None ->
     stored_suggestions (current_tool_results (apply_update s s'))
     = JList []).
Proof.
  intros Hlt Hllm Hb Hd Hc. unfold check_completeness_node.
  destruct (Z.leb_spec (max_iterations s) (iteration_count s)); [lia|].
  unfold bind, _evaluate_completeness, bind, llm_call.
  fold (evaluation_request s config). rewrite Hllm.
  unfold read_verdict. rewrite Hb, Hd. unfold ret, verdict_of, get_default.
  rewrite Hc. cbn [truthy].
  eexists. split; [reflexivity|]. split; [reflexivity|].
  split; [reflexivity|]. split; [reflexivity|].
  cbn [confidence_score missing_parts current_tool_results apply_update
         set_messages set_current_tool_results set_status set_missing_parts
         set_confidence_score set_is_complete].
  split; [now intros ->|]. split; [now intros ->|]. now intros ->.
Qed.

Lemma missing_keys_mean_incomplete_witness :
  let s :=
    set_status "doc_generated"
      (set_iteration_count 1 (create_initial_state "/repo" None 10)) in
  exists s',
    check_completeness_node (Sample.replying "Nothing to add: {}") s
      (Sample.config 10 5) []
    = Ret s' [ELlm (evaluation_request s (Sample.config 10 5))] /\
    is_complete s' = JBool false /\
    status s' = "needs_exploration" /\
    next_node check_completeness (apply_update s s') = Some execute_tools /\
    (dict_get "confidence_score" [] = None ->
     confidence_score s' = JFloat "0.5") /\
    (dict_get "missing_parts" [] = None -> missing_parts s' = JList []) /\
    (dict_get "suggested_tools" [] = None ->
     stored_suggestions (current_tool_results (apply_update s s'))
     = JList []).
Proof.
  intros s.
  apply (missing_keys_mean_incomplete (Sample.replying "Nothing to add: {}") s
           (Sample.config 10 5) [] "Nothing to add: {}" "{}" []).
  - cbn. lia.
  - reflexivity.
  - vm_compute. reflexivity.
  - vm_compute. reflexivity.
  - reflexivity.
Defined.

(* ================================================================== *)
(** * Further properties of the save node *)
(* ================================================================== *)

(** The graph's save node, in the hosted world. *)
Lemma hosted_save_output_node w h model state config t :
  node_function (SaveNode.hosted w h model) config save_output state t
  = match SaveNode.save_output_node w h state config model with
    | SaveNode.Returned state' _ => Ret state' t
    | SaveNode.Uncaught e => Exc e t
    end.
Proof.
  cbn [node_function]. unfold save_output_node, SaveNode.save_output_node.
  cbn [make_output_dir write_outputs SaveNode.hosted].
  destruct (SaveNode.mkdir h true _); [reflexivity|].
  destruct (SaveNode.try_block w h state config model _ _) as [disk [e|]];
    reflexivity.
Qed.

Lemma document_unchanged w c n s t s' t' :
  n <> generate_doc ->
  node_function w c n s t = Ret s' t' ->
  current_document s' = current_document s.
Proof.
  intros Hn. destruct n; cbn [node_function]; [|congruence| | |].
  - unfold init_node. destruct (path_exists w (repo_path s)); cbn [negb];
      [|intros H; now inv H].
    destruct (get_directory_tree w (repo_path s)); intros H; now inv H.
  - unfold check_completeness_node.
    destruct (max_iterations s <=? iteration_count s); [intros H; now inv H|].
    unfold bind. destruct (_evaluate_completeness w _ _ _ _ t)
      as [[[[complete confidence] missing] suggested] t1|]; [|discriminate].
    destruct (truthy complete); [destruct (formats_as_float confidence)|];
      intros H; now inv H.
  - intros H. apply tool_execution_node_ret in H
      as (specs & calls & results & _ & _ & _ & ->). reflexivity.
  - unfold save_output_node.
    destruct (make_output_dir w s c); [discriminate|].
    destruct (write_outputs w s c); intros H; now inv H.
Qed.

Section Saving.
Import SaveNode.

Lemma write_versions_done h dir versions : forall i disk disk',
  write_versions h dir i versions disk = (disk', None) ->
  disk' = (disk ++ version_writes h dir i versions)%list.
Proof.
  induction versions as [|v rest IH]; intros i disk disk';
    cbn [write_versions].
  - intros H; injection H as <-. unfold version_writes. cbn.
    now rewrite app_nil_r.
  - unfold write_text.
    destruct (open_write h (List.length disk) _ v); [discriminate|].
    intros H. apply IH in H as ->. unfold version_writes.
    cbn [List.length seq combine map fst snd]. now rewrite <- app_assoc.
Qed.


(** What a save that ends with status completed has written. *)
Lemma completed_save w h state config model state' disk :
  let out :=
    joinpath h (repo_path state) (OutputConfig.output_dir (output config)) in
  let name := OutputConfig.filename (output config) in
  let inter := joinpath h out "intermediate" in
  save_output_node w h state config model = Returned state' disk ->
  status state' = "completed" ->
  exists report,
    _generate_report w h state config model = Returns report /\
    disk
    = ([Mkdir out;
        Write (joinpath h out name) (current_document state);
        Write (joinpath h out (timestamp h ++ "_" ++ name))
          (current_document state);
        Write (joinpath h out (timestamp h ++ "_report.md")) report]
       ++ (if OutputConfig.save_intermediate (output config)
           then Mkdir inter
                :: version_writes h inter 0 (document_versions state)
           else []))%list /\
    state' = set_status "completed" state.
Proof.
  intros out name inter Hsave Hstatus.
  unfold save_output_node in Hsave. fold out in Hsave.
  destruct (mkdir h true out); [discriminate|].
  destruct (try_block w h state config model out [Mkdir out])
    as [disk0 [e|]] eqn:Et;
    injection Hsave as <- <-; [discriminate|].
  unfold try_block, write_text in Et. fold name in Et.
  destruct (open_write h _ (joinpath h out name) _); [discriminate|].
  destruct (open_write h _ (joinpath h out (timestamp h ++ "_" ++ name)) _);
    [discriminate|].
  destruct (_generate_report w h state config model) as [report|];
    [|discriminate].
  destruct (open_write h _ (joinpath h out (timestamp h ++ "_report.md")) _);
    [discriminate|].
  exists report. split; [reflexivity|].
  destruct (OutputConfig.save_intermediate (output config)).
  - fold inter in Et. destruct (mkdir h false inter); [discriminate|].
    apply write_versions_done in Et as ->. cbn [app]. split; reflexivity.
  - injection Et as <-. split; reflexivity.
Qed.

(** X13: a save that ends with status completed has written, in this
    order and nothing else: the output directory, the current document
    under the configured name, the same document under the stamped name,
    the report, and, when intermediate results are kept, the directory
    [intermediate] and one file per version of the document, numbered from
    one in the order of the versions, each holding its version. *)
Theorem files_of_a_save (w : World) (h : Host) (state : AgentState)
  (config : Config) (model : string) (state' : AgentState)
  (disk : list effect) :
  let out :=
    joinpath h (repo_path state) (OutputConfig.output_dir (output config)) in
  let name := OutputConfig.filename (output config) in
  let inter := joinpath h out "intermediate" in
  save_output_node w h state config model = Returned state' disk ->
  status state' = "completed" ->
  exists report,
    _generate_report w h state config model = Returns report /\
    disk
    = ([Mkdir out;
        Write (joinpath h out name) (current_document state);
        Write (joinpath h out (timestamp h ++ "_" ++ name))
          (current_document state);
        Write (joinpath h out (timestamp h ++ "_report.md")) report]
       ++ (if OutputConfig.save_intermediate (output config)
           then Mkdir inter
                :: version_writes h inter 0 (document_versions state)
           else []))%list /\
    state' = set_status "completed" state /\
    forall t,
      node_function (hosted w h model) config save_output state t
      = Ret state' t.
Proof.
  intros out name inter Hsave Hstatus.
  destruct (completed_save w h state config model state' disk Hsave Hstatus)
    as (report & Hreport & Hdisk & Hstate).
  exists report. repeat split; try assumption.
  intros t. rewrite hosted_save_output_node. now rewrite Hsave.
Qed.

Lemma files_of_a_save_witness :
  let state := sample_final_state in
  let out := "/repo/./repo2doc-output" in
  exists report,
    _generate_report sample_world sample_host state default_config "qwen3-max"
    = Returns report /\
    fst (try_block sample_world sample_host state default_config "qwen3-max"
           out [Mkdir out])
    = ([Mkdir out;
        Write (out ++ "/requirements.md") "revised draft";
        Write (out ++ "/2024-05-01_12-00-00_requirements.md") "revised draft";
        Write (out ++ "/2024-05-01_12-00-00_report.md") report]
       ++ [Mkdir (out ++ "/intermediate");
           Write (out ++ "/intermediate/version_1.md") "first draft";
           Write (out ++ "/intermediate/version_2.md") "revised draft"])%list
    /\
    set_status "completed" state = set_status "completed" state /\
    forall t,
      node_function (hosted sample_world sample_host "qwen3-max")
        default_config save_output state t
      = Ret (set_status "completed" state) t.
Proof.
  intros state out.
  apply (files_of_a_save sample_world sample_host state default_config
           "qwen3-max" (set_status "completed" state)
           (fst (try_block sample_world sample_host state default_config
                   "qwen3-max" out [Mkdir out]))).
  - vm_compute. reflexivity.
  - reflexivity.
Defined.


Lemma save_output_node_cases w h state config model state' disk :
  save_output_node w h state config model = Returned state' disk ->
  state' = set_status "completed" state
  \/ exists e,
       state'
       = set_error (Some ("保存输出失败: " ++ e)) (set_status "error" state).
Proof.
  unfold save_output_node. destruct (mkdir h true _); [discriminate|].
  destruct (try_block w h state config model _ _) as [disk0 [e|]];
    intros H; injection H as <- <-; [right; now exists e|now left].
Qed.

Lemma saved_step w h model c N n s t new t' :
  node_invariant N (Some n) s t ->
  saved_invariant w h model c (Some n) s ->
  node_function (hosted w h model) c n s t = Ret new t' ->
  saved_invariant w h model c (next_node n (apply_update s new))
    (apply_update s new).
Proof.
  intros (_ & Hlen & _) Hn Hrun.
  assert (0 <= iteration_count s) as Hpos by lia.
  destruct (apply_update_fields s new) as (Ei & Ev & _ & Es & Ec & _).
  assert (current_document (apply_update s new) = current_document new) as Ed
    by reflexivity.
  assert (n <> generate_doc ->
          last (document_versions s) "" = current_document s ->
          last (document_versions (apply_update s new)) ""
          = current_document (apply_update s new)) as Hkeep.
  { intros Hg Hl. rewrite Ev, Ed.
    rewrite (document_unchanged _ c n s t new t' Hg Hrun), <- Hl.
    f_equal. destruct n; cbn [node_function] in Hrun; [|congruence| | |].
    - now apply init_node_frame in Hrun as (_ & -> & _).
    - now apply check_completeness_node_frame in Hrun as (_ & -> & _).
    - now apply tool_execution_node_frame in Hrun as (_ & -> & _).
    - now apply save_output_node_frame in Hrun as (_ & -> & _). }
  destruct n; cbn [saved_invariant] in Hn.
  - cbn [node_function] in Hrun.
    apply init_node_frame in Hrun as (_ & _ & _ & _ & _ & Fs).
    unfold next_node, _check_error. rewrite Es.
    destruct Fs as [[_ Fs]|[_ Fs]]; rewrite Fs; cbn.
    + intros Hd. cbn in Hd. congruence.
    + exact I.
  - cbn [node_function] in Hrun.
    apply generate_doc_node_frame in Hrun as (Fi & Fd & _ & _ & Fs & _).
    unfold next_node, _check_error. rewrite Es, Fs. cbn [String.eqb].
    change (saved_invariant w h model c (Some check_completeness)
              (apply_update s new)).
    cbn [saved_invariant]. rewrite Ei, Ev, Ed, Fd, last_last. split; [lia|reflexivity].
  - destruct Hn as [Hone Hlast].
    specialize (Hkeep ltac:(discriminate) Hlast).
    cbn [node_function] in Hrun.
    apply check_completeness_node_frame in Hrun as (Fi & _ & _ & _ & _ & Fs).
    unfold next_node, _route_after_check. rewrite Es, Ec.
    destruct Fs as [(_ & _ & -> & ->)|(_ & [[-> ->]|[-> ->]])];
      cbn [String.eqb Ascii.eqb Bool.eqb truthy saved_invariant];
      cbn match; cbn [saved_invariant]; (split; [lia|exact Hkeep]).
  - cbn [node_function] in Hrun.
    apply tool_execution_node_frame in Hrun as (Fi & _ & _ & _ & _ & Fs & _).
    unfold next_node, _check_error. rewrite Es, Fs. cbn. exact I.
  - destruct Hn as [Hone Hlast].
    specialize (Hkeep ltac:(discriminate) Hlast).
    rewrite hosted_save_output_node in Hrun.
    destruct (save_output_node w h s c model) as [state' disk|e] eqn:Esave;
      [|discriminate].
    injection Hrun as <- <-. cbn [next_node saved_invariant].
    rewrite Es, Ei. intros Hdone.
    destruct (save_output_node_cases _ _ _ _ _ _ _ Esave) as [->|[e ->]];
      [|discriminate].
    split; [exact Hone|]. split; [exact Hkeep|].
    exists disk, s. split; [exact Esave|reflexivity].
Qed.

Lemma saved_run w h model c repo cp steps :
  match run (hosted w h model) c repo cp steps with
  | Finished s t =>
      node_invariant (AgentConfig.max_iterations (agent c)) None s t /\
      saved_invariant w h model c None s
  | _ => True
  end.
Proof.
  set (N := AgentConfig.max_iterations (agent c)).
  pose proof (run_keeps (hosted w h model) c
    (fun n s t => node_invariant N n s t /\ saved_invariant w h model c n s)
    (fun _ => True)) as H.
  cbn beta in H.
  assert (forall n s t,
    node_invariant N (Some n) s t /\ saved_invariant w h model c (Some n) s ->
    match node_function (hosted w h model) c n s t with
    | Ret new t' =>
        node_invariant N (next_node n (apply_update s new))
          (apply_update s new) t' /\
        saved_invariant w h model c (next_node n (apply_update s new))
          (apply_update s new)
    | Exc _ _ => True
    end) as Hstep.
  { intros n s t [Hi Hs].
    destruct (node_function (hosted w h model) c n s t) as [new t'|e t'] eqn:E;
      [|exact I].
    split; [exact (step_invariant _ c N n s t new t' Hi E)
           |exact (saved_step w h model c N n s t new t' Hi Hs E)]. }
  specialize (H Hstep (fun _ _ _ => I) repo cp steps).
  fold N in H.
  specialize (H (conj (initial_invariant repo cp N) I)).
  destruct (run (hosted w h model) c repo cp steps) as [s t|e t|n s t];
    [exact H|exact I|exact I].
Qed.

(** X19: a run that reaches [END] with status completed was ended by the
    save node, after at least one synthesis, and has left on the disk, in
    this order and nothing else: the output directory, the final document
    under the configured name and under the stamped name, the report, and,
    when intermediate results are kept, one file per synthesis, the last
    of them holding the final document as well. *)
Theorem completed_run_has_saved_its_document (w : World) (h : Host)
  (model : string) (config : Config) (repo : string) (cp : option string)
  (steps : nat) (s : AgentState) (t : trace) :
  run (hosted w h model) config repo cp steps = Finished s t ->
  status s = "completed" ->
  let out :=
    joinpath h (repo_path s) (OutputConfig.output_dir (output config)) in
  let name := OutputConfig.filename (output config) in
  let inter := joinpath h out "intermediate" in
  exists disk report,
    saved_by w h model config s disk /\
    _generate_report w h s config model = Returns report /\
    disk
    = ([Mkdir out;
        Write (joinpath h out name) (current_document s);
        Write (joinpath h out (timestamp h ++ "_" ++ name))
          (current_document s);
        Write (joinpath h out (timestamp h ++ "_report.md")) report]
       ++ (if OutputConfig.save_intermediate (output config)
           then Mkdir inter :: version_writes h inter 0 (document_versions s)
           else []))%list /\
    1 <= iteration_count s /\
    Z.of_nat (List.length (document_versions s)) = iteration_count s /\
    last (document_versions s) "" = current_document s.
Proof.
  intros Hrun Hdone out name inter.
  pose proof (saved_run w h model config repo cp steps) as H.
  rewrite Hrun in H. destruct H as [(_ & Hlen & _) Hsaved].
  destruct (Hsaved Hdone) as (Hone & Hlast & disk & s0 & Hsave & Es).
  destruct (completed_save w h s0 config model _ disk Hsave eq_refl)
    as (report & Hreport & Hdisk & _).
  exists disk, report. split; [now exists s0|].
  split; [|split; [|auto]]; subst s; assumption.
Qed.

Lemma completed_run_has_saved_its_document_witness :
  match run (hosted sample_world sample_host "qwen3-max") (Sample.config 2 5)
          "/repo" None 10 with
  | Finished s _ =>
      exists disk report,
        saved_by sample_world sample_host "qwen3-max" (Sample.config 2 5) s
          disk /\
        _generate_report sample_world sample_host s (Sample.config 2 5)
          "qwen3-max"
        = Returns report /\
        map is_write disk = [false; true; true; true; false; true; true] /\
        iteration_count s = 2
  | _ => False
  end.
Proof.
  destruct (run (hosted sample_world sample_host "qwen3-max")
              (Sample.config 2 5) "/repo" None 10) as [s t|e t|n s t] eqn:E.
  - assert (status s = "completed" /\ iteration_count s = 2 /\
            List.length (document_versions s) = 2%nat) as (Hdone & Hi & Hv)
      by (vm_compute in E; injection E as <- _; repeat split).
    destruct (completed_run_has_saved_its_document sample_world sample_host
                "qwen3-max" (Sample.config 2 5) "/repo" None 10 s t E Hdone)
      as (disk & report & Hsaved & Hreport & Hdisk & _).
    exists disk, report. split; [exact Hsaved|]. split; [exact Hreport|].
    split; [|exact Hi]. rewrite Hdisk. cbn [OutputConfig.save_intermediate
      output Sample.config app map is_write]. do 5 f_equal.
    unfold version_writes. rewrite Hv. cbn [seq]. 
    destruct (document_versions s) as [|a [|b [|]]]; try discriminate.
    reflexivity.
  - vm_compute in E. discriminate.
  - vm_compute in E. discriminate.
Defined.

End Saving.

(* ================================================================== *)
(** * Properties of the file tools *)
(* ================================================================== *)

(** ** The tools on a sample repository *)

Example sample_tree :
  FileTools.get_directory_tree FileTools.sample_os
    (Some FileTools.sample_repo) "/work/repo" "repo" 2 true
  = String.concat nl
      ["repo/";
       "├── secret/";
       "├── src/";
       "│   ├── deep/";
       "│   ├── main.py";
       "│   └── Util.py";
       "├── README.md";
       "└── setup.py"].
Proof. vm_compute. reflexivity. Qed.

Example sample_listing :
  FileTools.collected FileTools.sample_os FileTools.sample_repo "py" 3
  = ["setup.py"; "src/main.py"; "src/Util.py"] /\
  FileTools.collected FileTools.sample_os FileTools.sample_repo ".py" 0
  = ["setup.py"].
Proof. vm_compute. split; reflexivity. Qed.

(** ** The order of strings *)

Lemma string_leb_trans (a b c : string) :
  (a <=? b)%string = true -> (b <=? c)%string = true ->
  (a <=? c)%string = true.
Proof.
  unfold String.leb. revert b c.
  induction a as [|x a IH]; intros [|y b] [|z c]; cbn [String.compare];
    try reflexivity; try discriminate.
  unfold Ascii.compare.
  destruct (N.compare_spec (N_of_ascii x) (N_of_ascii y)) as [Exy|Exy|Exy];
    try discriminate;
    destruct (N.compare_spec (N_of_ascii y) (N_of_ascii z)) as [Eyz|Eyz|Eyz];
    try discriminate;
    destruct (N.compare_spec (N_of_ascii x) (N_of_ascii z)) as [Exz|Exz|Exz];
    try reflexivity; try lia; try apply IH.
Qed.

Section DirectoryTree.
Import FileTools.
Variable os : Os.

(** ** Sorting and filtering *)

Lemma key_le_total x y : key_le os x y = true \/ key_le os y x = true.
Proof.
  unfold key_le. destruct (is_file x), (is_file y); auto;
    apply String.leb_total.
Qed.

Lemma key_le_trans x y z :
  key_le os x y = true -> key_le os y z = true -> key_le os x z = true.
Proof.
  unfold key_le. destruct (is_file x), (is_file y), (is_file z);
    try discriminate; try reflexivity; apply string_leb_trans.
Qed.

Lemma insert_first x l :
  Forall (fun z => key_le os x z = true) l -> insert os x l = x :: l.
Proof. destruct 1 as [|y r Hy _]; cbn [insert]; [|rewrite Hy]; reflexivity. Qed.

Lemma insert_In x l z : In z (insert os x l) -> z = x \/ In z l.
Proof.
  induction l as [|y r IH]; cbn [insert].
  - intros [<-|[]]. now left.
  - destruct (key_le os x y).
    + intros [<-|H]; auto.
    + intros [<-|H]; [right; now left|].
      destruct (IH H); [now left|right; now right].
Qed.

Lemma insert_sorted x l :
  StronglySorted (fun a b => key_le os a b = true) l ->
  StronglySorted (fun a b => key_le os a b = true) (insert os x l).
Proof.
  induction 1 as [|y r Hr IH Hy]; cbn [insert].
  - constructor; constructor.
  - destruct (key_le os x y) eqn:Exy.
    + constructor; [now constructor|]. constructor; [exact Exy|].
      eapply Forall_impl; [|exact Hy]. intros z Hz.
      now apply (key_le_trans x y z).
    + constructor; [exact IH|]. apply Forall_forall. intros z Hz.
      apply insert_In in Hz as [->|Hz].
      * destruct (key_le_total x y); congruence.
      * rewrite Forall_forall in Hy. now apply Hy.
Qed.

Lemma sorted_sorted l :
  StronglySorted (fun a b => key_le os a b = true) (sorted os l).
Proof.
  unfold sorted. induction l as [|x l IH]; cbn [fold_right];
    [constructor|now apply insert_sorted].
Qed.

Lemma filter_insert (p : entry -> bool) x l :
  StronglySorted (fun a b => key_le os a b = true) l ->
  filter p (insert os x l)
  = if p x then insert os x (filter p l) else filter p l.
Proof.
  induction 1 as [|y r Hr IH Hy]; cbn [insert filter].
  - destruct (p x); reflexivity.
  - destruct (key_le os x y) eqn:Exy; cbn [filter].
    + destruct (p x) eqn:Ex; [|reflexivity].
      destruct (p y); [cbn [insert]; now rewrite Exy|].
      rewrite insert_first; [reflexivity|].
      apply Forall_forall. intros z Hz. apply filter_In in Hz as [Hz _].
      rewrite Forall_forall in Hy. apply (key_le_trans x y z Exy), Hy, Hz.
    + rewrite IH. destruct (p x), (p y); cbn [insert]; rewrite ?Exy;
        reflexivity.
Qed.

Lemma filter_sorted (p : entry -> bool) l :
  filter p (sorted os l) = sorted os (filter p l).
Proof.
  induction l as [|x l IH]; [reflexivity|].
  change (sorted os (x :: l)) with (insert os x (sorted os l)).
  rewrite filter_insert by apply sorted_sorted. rewrite IH. cbn [filter].
  destruct (p x); reflexivity.
Qed.

Lemma insert_map (f : entry -> entry) x l :
  (forall a b, key_le os (f a) (f b) = key_le os a b) ->
  insert os (f x) (map f l) = map f (insert os x l).
Proof.
  intros Hf. induction l as [|y r IH]; cbn [map insert]; [reflexivity|].
  rewrite Hf. destruct (key_le os x y); cbn [map]; [reflexivity|].
  now rewrite IH.
Qed.

Lemma sorted_map (f : entry -> entry) l :
  (forall a b, key_le os (f a) (f b) = key_le os a b) ->
  sorted os (map f l) = map f (sorted os l).
Proof.
  intros Hf. unfold sorted. induction l as [|x l IH]; cbn [map fold_right];
    [reflexivity|].
  now rewrite IH, insert_map.
Qed.

Lemma filter_map_same (f : entry -> entry) (p : entry -> bool) l :
  (forall a, p (f a) = p a) ->
  filter p (map f l) = map f (filter p l).
Proof.
  intros Hf. induction l as [|x l IH]; cbn [map filter]; [reflexivity|].
  rewrite Hf, IH. destruct (p x); reflexivity.
Qed.

Lemma filtered_entries_map f include_files parts entries :
  same_face f ->
  filtered_entries os include_files parts (map f entries)
  = map f (filtered_entries os include_files parts entries).
Proof.
  intros Hf. unfold filtered_entries.
  rewrite sorted_map.
  - apply filter_map_same. intros a. destruct (Hf a) as (-> & -> & _).
    reflexivity.
  - intros a b. unfold key_le.
    destruct (Hf a) as (-> & -> & _), (Hf b) as (-> & -> & _). reflexivity.
Qed.

End DirectoryTree.

Section DirectoryTreeShown.
Import FileTools.
Variable os : Os.

(** ** What the tree shows *)

Lemma add_entries_ext below1 below2 parts prefix l :
  (forall x p, In x l ->
     below1 (parts ++ [name_of x])%list x p
     = below2 (parts ++ [name_of x])%list x p) ->
  add_entries below1 parts prefix l = add_entries below2 parts prefix l.
Proof.
  induction l as [|x rest IH]; intros H; cbn [add_entries]; [reflexivity|].
  rewrite IH by (intros y p Hy; apply H; now right).
  rewrite (H x _ (or_introl eq_refl)). reflexivity.
Qed.

Lemma add_entries_map f below parts prefix l :
  same_face f ->
  add_entries below parts prefix (map f l)
  = add_entries (fun p x pre => below p (f x) pre) parts prefix l.
Proof.
  intros Hf. induction l as [|x rest IH]; cbn [map add_entries];
    [reflexivity|].
  destruct (Hf x) as (-> & _ & ->). rewrite IH.
  destruct rest; reflexivity.
Qed.

Lemma prune_face levels : same_face (prune levels).
Proof. intros a. destruct levels, a; cbn; auto. Qed.

Lemma add_tree_prune include_files fuel : forall parts x prefix,
  add_tree os include_files fuel parts (prune fuel x) prefix
  = add_tree os include_files fuel parts x prefix.
Proof.
  induction fuel as [|fuel IH]; intros parts x prefix; [reflexivity|].
  destruct x; try reflexivity. cbn [prune add_tree].
  rewrite (filtered_entries_map os (prune fuel)) by apply prune_face.
  rewrite add_entries_map by apply prune_face.
  apply add_entries_ext. intros y p _. apply IH.
Qed.

Lemma height_prune levels : forall x, (height (prune levels x) <= levels)%nat.
Proof.
  induction levels as [|levels IH]; intros x.
  - destruct x; cbn; lia.
  - destruct x; cbn [prune height]; try lia.
    induction entries as [|y r IHr]; cbn [map fold_right]; [lia|].
    specialize (IH y). lia.
Qed.

(** X15: the tree shows [max_depth] levels of the repository and does not
    look below them: its text is that of the repository cut after
    [max_depth] levels, where a directory of the last level is listed as
    empty whether or not it can be read; with [max_depth] zero or less the
    text is the line of the repository alone. *)
Theorem tree_is_cut_at_max_depth (repo : option entry)
  (repo_path repo_name : string) (max_depth : Z) (include_files : bool) :
  let cut := option_map (prune (Z.to_nat max_depth)) repo in
  get_directory_tree os repo repo_path repo_name max_depth include_files
  = get_directory_tree os cut repo_path repo_name max_depth include_files /\
  (forall root, cut = Some root -> Z.of_nat (height root) <= Z.max 0 max_depth)
  /\
  (forall root,
     repo = Some root -> max_depth <= 0 ->
     get_directory_tree os repo repo_path repo_name max_depth include_files
     = repo_name ++ "/").
Proof.
  intros cut. subst cut. split; [|split].
  - destruct repo as [root|]; [|reflexivity]. cbn [option_map].
    unfold get_directory_tree. now rewrite add_tree_prune.
  - intros root H. destruct repo as [r|]; [|discriminate].
    injection H as <-. pose proof (height_prune (Z.to_nat max_depth) r). lia.
  - intros root -> Hd. unfold get_directory_tree.
    replace (Z.to_nat max_depth) with 0%nat by lia. reflexivity.
Qed.

(** ** Excluded names *)

Lemma clean_entries entries :
  flat_map (fun y => if excluded_name (name_of y) then [] else [clean y])
    entries
  = map clean (filter (fun y => negb (excluded_name (name_of y))) entries).
Proof.
  induction entries as [|y r IH]; cbn [flat_map filter map]; [reflexivity|].
  rewrite IH. destruct (excluded_name (name_of y)); reflexivity.
Qed.

Lemma clean_face : same_face clean.
Proof. intros a. destruct a; cbn; auto. Qed.

Lemma should_exclude_snoc parts name :
  existsb excluded_name parts = false ->
  _should_exclude os (parts ++ [name]) [] = excluded_name name.
Proof.
  intros Hp. unfold _should_exclude.
  change (fun part => existsb (String.eqb part) default_excludes)
    with excluded_name.
  rewrite existsb_app, Hp. cbn [existsb orb]. rewrite orb_false_r.
  destruct (excluded_name name); reflexivity.
Qed.

Lemma filter_filter {A : Type} (p q : A -> bool) l :
  (forall x, p x = true -> q x = true) ->
  filter p (filter q l) = filter p l.
Proof.
  intros H. induction l as [|x l IH]; cbn [filter]; [reflexivity|].
  destruct (q x) eqn:Eq; cbn [filter]; rewrite IH; [reflexivity|].
  destruct (p x) eqn:Ep; [|reflexivity]. apply H in Ep. congruence.
Qed.

Lemma filtered_entries_clean include_files parts entries :
  existsb excluded_name parts = false ->
  filtered_entries os include_files parts
    (filter (fun y => negb (excluded_name (name_of y))) entries)
  = filtered_entries os include_files parts entries /\
  Forall (fun x => excluded_name (name_of x) = false)
    (filtered_entries os include_files parts entries).
Proof.
  intros Hp. unfold filtered_entries. split.
  - rewrite <- filter_sorted. apply filter_filter. intros x Hx.
    apply andb_prop in Hx as [Hx _].
    now rewrite should_exclude_snoc in Hx.
  - apply Forall_forall. intros x Hx. apply filter_In in Hx as [_ Hx].
    apply andb_prop in Hx as [Hx _]. rewrite should_exclude_snoc in Hx by exact Hp.
    now apply negb_true_iff in Hx.
Qed.

Lemma add_tree_clean include_files fuel : forall parts x prefix,
  existsb excluded_name parts = false ->
  add_tree os include_files fuel parts (clean x) prefix
  = add_tree os include_files fuel parts x prefix.
Proof.
  induction fuel as [|fuel IH]; intros parts x prefix Hp; [reflexivity|].
  destruct x; try reflexivity. cbn [clean add_tree].
  rewrite clean_entries.
  rewrite (filtered_entries_map os clean) by apply clean_face.
  destruct (filtered_entries_clean include_files parts entries Hp) as [-> Hall].
  rewrite add_entries_map by apply clean_face.
  apply add_entries_ext. intros y p Hy. apply IH.
  rewrite existsb_app, Hp. cbn [existsb orb]. rewrite orb_false_r.
  rewrite Forall_forall in Hall. now apply Hall.
Qed.

Lemma is_clean_clean x : is_clean (clean x) = true.
Proof.
  induction x as [| |name link entries IH| |] using entry_induction;
    try reflexivity.
  cbn [clean is_clean]. rewrite clean_entries.
  apply forallb_forall. intros y Hy. apply in_map_iff in Hy as (z & <- & Hz).
  apply filter_In in Hz as [Hz Hn].
  destruct (clean_face z) as (-> & _). rewrite Hn. cbn [andb].
  rewrite Forall_forall in IH. now apply IH.
Qed.

(** X16: an entry whose name is one of the excluded names ([.git],
    [node_modules], ...) is never shown and never entered: the text of
    the tree is that of the repository without every such entry, so that
    an excluded directory that cannot be read does not make the tool
    fail. *)
Theorem excluded_entries_are_not_shown (repo : option entry)
  (repo_path repo_name : string) (max_depth : Z) (include_files : bool) :
  get_directory_tree os repo repo_path repo_name max_depth include_files
  = get_directory_tree os (option_map clean repo) repo_path repo_name
      max_depth include_files /\
  (forall root, option_map clean repo = Some root -> is_clean root = true) /\
  (forall name link before after e,
     repo = Some (Dir name link (before ++ Broken ".git" false e :: after)) ->
     get_directory_tree os repo repo_path repo_name max_depth include_files
     = get_directory_tree os (Some (Dir name link (before ++ after)))
         repo_path repo_name max_depth include_files).
Proof.
  assert (forall r,
    get_directory_tree os r repo_path repo_name max_depth include_files
    = get_directory_tree os (option_map clean r) repo_path repo_name
        max_depth include_files) as Hclean.
  { intros [root|]; [|reflexivity]. cbn [option_map].
    unfold get_directory_tree. now rewrite add_tree_clean. }
  split; [apply Hclean|split].
  - intros root H. destruct repo as [r|]; [|discriminate].
    injection H as <-. apply is_clean_clean.
  - intros name link before after e ->.
    rewrite Hclean. rewrite (Hclean (Some (Dir name link (before ++ after)))).
    cbn [option_map clean]. rewrite !flat_map_app. reflexivity.
Qed.

End DirectoryTreeShown.

Section ListFiles.
Import FileTools.
Variable os : Os.

(** ** The files listed *)

Lemma firstn_app_short {A : Type} n (a b : list A) :
  (n <= List.length a)%nat -> firstn n (a ++ b) = firstn n a.
Proof.
  intros H. rewrite firstn_app.
  replace (n - List.length a)%nat with 0%nat by lia.
  cbn [firstn]. apply app_nil_r.
Qed.

(** The inner loop stops at the first file that makes [max_files]. *)
Lemma scan_names_spec extension max_files parts filenames : forall files,
  1 <= max_files ->
  Z.of_nat (List.length files) < max_files ->
  let found :=
    map (rel_path parts) (filter (fun f => ends_with f extension) filenames) in
  fst (scan_names extension max_files parts filenames files)
  = firstn (Z.to_nat max_files) (files ++ found).
Proof.
  induction filenames as [|f rest IH]; intros files Hmax Hlen found;
    subst found; cbn [scan_names filter map].
  - cbn [fst]. rewrite app_nil_r, firstn_all2; [reflexivity|lia].
  - destruct (ends_with f extension); [|now apply IH].
    cbn [map]. destruct (Z.leb_spec max_files
                           (Z.of_nat (List.length (files ++ [rel_path parts f]))))
      as [Hfull|Hroom]; cbn [fst].
    + rewrite length_app in Hfull. cbn [List.length] in Hfull.
      match goal with
      | |- _ = firstn _ (files ++ ?x :: ?l) =>
          replace (files ++ x :: l)%list with ((files ++ [x]) ++ l)%list
            by (now rewrite <- app_assoc)
      end.
      rewrite firstn_app_short
        by (rewrite length_app; cbn [List.length]; lia).
      rewrite firstn_all2; [reflexivity|].
      rewrite length_app. cbn [List.length]. lia.
    + rewrite IH by assumption.
      now rewrite <- app_assoc.
Qed.

Lemma scan_dirs_spec extension max_files dirs : forall files,
  1 <= max_files ->
  Z.of_nat (List.length files) < max_files ->
  scan_dirs os extension max_files dirs files
  = firstn (Z.to_nat max_files) (files ++ matching os extension dirs).
Proof.
  induction dirs as [|[parts filenames] rest IH]; intros files Hmax Hlen;
    cbn [scan_dirs matching flat_map fst snd].
  - rewrite app_nil_r, firstn_all2; [reflexivity|lia].
  - destruct (_should_exclude os parts []); [now apply IH|].
    pose proof (scan_names_spec extension max_files parts filenames files
                  Hmax Hlen) as Hs.
    cbn zeta in Hs.
    destruct (scan_names extension max_files parts filenames files)
      as [files' stopped]. cbn [fst] in Hs. subst files'.
    set (found := map (rel_path parts)
                    (filter (fun f => ends_with f extension) filenames)).
    fold (matching os extension rest).
    destruct (Z.leb_spec max_files
                (Z.of_nat
                   (List.length (firstn (Z.to_nat max_files) (files ++ found)))))
      as [Hfull|Hroom].
    + rewrite app_assoc. symmetry. apply firstn_app_short.
      rewrite length_firstn in Hfull. lia.
    + rewrite length_firstn in Hroom.
      assert (List.length (files ++ found) < Z.to_nat max_files)%nat as Hshort
        by lia.
      rewrite firstn_all2 by lia. rewrite IH; [|lia|lia].
      now rewrite app_assoc.
Qed.

(** With a bound of zero or less the outer loop ends after the first
    directory that is not excluded, and the inner one after its first
    match. *)
Lemma scan_names_nonpositive extension max_files parts filenames :
  max_files <= 0 ->
  fst (scan_names extension max_files parts filenames [])
  = firstn 1
      (map (rel_path parts) (filter (fun f => ends_with f extension) filenames)).
Proof.
  intros Hmax. induction filenames as [|f rest IH];
    cbn [scan_names filter map]; [reflexivity|].
  destruct (ends_with f extension); [|exact IH].
  cbn [app List.length].
  destruct (Z.leb_spec max_files (Z.of_nat 1)); [reflexivity|lia].
Qed.

(** X17: with a bound of at least one, [list_files_by_extension] collects
    exactly the first [max_files] files whose name ends with the extension
    (a dot put before it when it has none), among those of the directories
    of the walk that have no excluded name on their path, in the order of
    the walk; with a bound of zero or less it looks at the top directory
    only and takes its first match, one file more than was asked for. *)
Theorem listing_is_the_first_matches (root : entry) (extension : string)
  (max_files : Z) :
  let wanted := normalized extension in
  (1 <= max_files ->
   collected os root extension max_files
   = firstn (Z.to_nat max_files) (matching os wanted (walk [] root))) /\
  (max_files <= 0 ->
   forall name link entries,
     root = Dir name link entries ->
     collected os root extension max_files
     = firstn 1
         (filter (fun f => ends_with f wanted)
            (map name_of (filter (fun x => negb (is_dir x)) entries)))) /\
  Z.of_nat (List.length (collected os root extension max_files))
  <= Z.max 1 max_files.
Proof.
  intros wanted.
  assert (1 <= max_files ->
          collected os root extension max_files
          = firstn (Z.to_nat max_files) (matching os wanted (walk [] root)))
    as Hpos.
  { intros Hmax. unfold collected. fold wanted.
    now rewrite scan_dirs_spec by (cbn; lia). }
  assert (max_files <= 0 ->
          forall name link entries,
            root = Dir name link entries ->
            collected os root extension max_files
            = firstn 1
                (filter (fun f => ends_with f wanted)
                   (map name_of (filter (fun x => negb (is_dir x)) entries))))
    as Hneg.
  { intros Hmax name link entries ->. unfold collected. fold wanted.
    cbn [walk scan_dirs]. change (_should_exclude os [] []) with false.
    cbn match.
    pose proof (scan_names_nonpositive wanted max_files []
                  (map name_of (filter (fun x => negb (is_dir x)) entries))
                  Hmax) as Hs.
    destruct (scan_names wanted max_files [] _ []) as [files stopped].
    cbn [fst] in Hs. subst files.
    destruct (Z.leb_spec max_files
                (Z.of_nat (List.length
                   (firstn 1 (map (rel_path [])
                      (filter (fun f => ends_with f wanted)
                         (map name_of
                            (filter (fun x => negb (is_dir x)) entries))))))));
      [|lia].
    f_equal. unfold rel_path. cbn [app String.concat]. apply map_id. }
  split; [exact Hpos|split; [exact Hneg|]].
  destruct (Z.leb_spec 1 max_files) as [Hmax|Hmax].
  - rewrite (Hpos Hmax), length_firstn. lia.
  - destruct root; try (cbn; lia).
    rewrite (Hneg ltac:(lia) _ _ _ eq_refl), length_firstn. lia.
Qed.

End ListFiles.

(* ================================================================== *)
(** * Properties of the search *)
(* ================================================================== *)

(** ** Lists that are cut when they are full *)

Lemma firstn_full {A : Type} (n : nat) (a b : list A) :
  (n <= List.length (firstn n a))%nat -> firstn n (a ++ b) = firstn n a.
Proof.
  intros H. rewrite length_firstn in H. rewrite firstn_app.
  replace (n - List.length a)%nat with 0%nat by lia.
  cbn [firstn]. apply app_nil_r.
Qed.

Lemma firstn_not_full {A : Type} (n : nat) (a : list A) :
  (List.length (firstn n a) < n)%nat ->
  firstn n a = a /\ (List.length a < n)%nat.
Proof.
  intros H. rewrite length_firstn in H.
  split; [apply firstn_all2|]; lia.
Qed.

(** ** The search on a sample disk *)

Example sample_search :
  SearchTools.found SearchTools.sample_os FileTools.sample_repo "IMPORT"
    None 2
  = inr [SearchTools.mkHit "setup.py" 1 "from setuptools import setup";
         SearchTools.mkHit "README.md" 1 "How to import it"] /\
  SearchTools.found SearchTools.sample_os FileTools.sample_repo "util"
    (Some "") 20
  = inr [SearchTools.mkHit "src/main.py" 1 "import util";
         SearchTools.mkHit "src/main.py" 2 "util.run()"] /\
  SearchTools.search_code SearchTools.sample_os (Some FileTools.sample_repo)
    "import" "/work/repo" (Some "*.py") 20
  = "未找到包含 " ++ quoted "import" ++ " 的代码" /\
  SearchTools.search_code SearchTools.sample_os (Some FileTools.sample_repo)
    "import" "/work/repo" (Some "*") 20
  = "错误：搜索失败: empty pattern".
Proof. vm_compute. repeat split; reflexivity. Qed.

Section Search.
Import SearchTools.
Variable os : Os.

(** ** The results of a search *)

Lemma search_lines_spec query rel max_results lines : forall i results,
  1 <= max_results ->
  Z.of_nat (List.length results) < max_results ->
  scan_lines os query rel max_results i lines results
  = firstn (Z.to_nat max_results)
      (results ++ line_hits os query rel i lines).
Proof.
  unfold line_hits.
  induction lines as [|text rest IH]; intros i results Hmax Hlen;
    cbn [scan_lines List.length seq combine flat_map fst snd].
  - rewrite app_nil_r, firstn_all2; [reflexivity|lia].
  - destruct (contains (lower os query) (lower os text)); [|now apply IH].
    cbn [app].
    set (h := mkHit rel (i + 1) (py_take 100 (strip os text))).
    replace (results ++ h :: flat_map _ _)%list
      with ((results ++ [h]) ++
            flat_map (fun il : nat * string =>
                        if contains (lower os query) (lower os (snd il))
                        then [mkHit rel (fst il + 1)
                                (py_take 100 (strip os (snd il)))]
                        else [])
              (combine (seq (S i) (List.length rest)) rest))%list
      by (now rewrite <- app_assoc).
    assert (List.length (results ++ [h]) = S (List.length results)) as El
      by (rewrite length_app; cbn [List.length]; lia).
    destruct (Z.leb_spec max_results (Z.of_nat (List.length (results ++ [h]))))
      as [Hfull|Hroom].
    + rewrite firstn_full by (rewrite length_firstn; lia).
      rewrite firstn_all2; [reflexivity|lia].
    + now apply IH.
Qed.

Lemma search_files_spec query file_pattern max_results parts filenames :
  forall results,
  1 <= max_results ->
  Z.of_nat (List.length results) < max_results ->
  (forall f e, In f filenames -> passes os file_pattern f <> inl e) ->
  scan_files os query file_pattern max_results parts filenames results
  = inr (firstn (Z.to_nat max_results)
           (results ++ flat_map (file_hits os query file_pattern parts)
                         filenames)).
Proof.
  induction filenames as [|f rest IH]; intros results Hmax Hlen Hok;
    cbn [scan_files flat_map].
  - rewrite app_nil_r, firstn_all2; [reflexivity|lia].
  - assert (forall f0 e, In f0 rest -> passes os file_pattern f0 <> inl e)
      as Hrest by (intros f0 e H0; apply Hok; now right).
    unfold file_hits at 1.
    destruct (passes os file_pattern f) as [e|[|]] eqn:Ep.
    + exfalso. exact (Hok f e (or_introl eq_refl) Ep).
    + destruct (read os parts f) as [text|]; [|now apply IH].
      rewrite search_lines_spec by assumption.
      rewrite app_assoc.
      set (scanned := (results ++ line_hits os query _ 0 _)%list).
      destruct (Z.leb_spec max_results
                  (Z.of_nat
                     (List.length (firstn (Z.to_nat max_results) scanned))))
        as [Hfull|Hroom].
      * now rewrite firstn_full by lia.
      * destruct (firstn_not_full (Z.to_nat max_results) scanned) as [-> Hs];
          [lia|].
        apply IH; [assumption|lia|assumption].
    + now apply IH.
Qed.

Lemma candidates_cons parts filenames dirs f :
  _should_exclude parts = false ->
  In f filenames -> In f (candidates ((parts, filenames) :: dirs)).
Proof.
  intros Hx Hf. unfold candidates. cbn [flat_map fst snd]. rewrite Hx.
  apply in_or_app. now left.
Qed.

Lemma candidates_tail d dirs f :
  In f (candidates dirs) -> In f (candidates (d :: dirs)).
Proof.
  intros Hf. unfold candidates. cbn [flat_map]. apply in_or_app. now right.
Qed.

Lemma search_dirs_spec query file_pattern max_results dirs : forall results,
  1 <= max_results ->
  Z.of_nat (List.length results) < max_results ->
  (forall f e, In f (candidates dirs) -> passes os file_pattern f <> inl e) ->
  scan_dirs os query file_pattern max_results dirs results
  = inr (firstn (Z.to_nat max_results)
           (results ++ all_hits os query file_pattern dirs)).
Proof.
  induction dirs as [|[parts filenames] rest IH]; intros results Hmax Hlen Hok;
    cbn [scan_dirs].
  - unfold all_hits. cbn [flat_map].
    rewrite app_nil_r, firstn_all2; [reflexivity|lia].
  - assert (forall f e, In f (candidates rest) ->
                        passes os file_pattern f <> inl e) as Hrest
      by (intros f e H0; apply Hok; now apply candidates_tail).
    unfold all_hits. cbn [flat_map fst snd]. fold (all_hits os query file_pattern rest).
    destruct (_should_exclude parts) eqn:Ex; [now apply IH|].
    rewrite search_files_spec; [|assumption|assumption|].
    2: { intros f e Hf. apply Hok. now apply candidates_cons. }
    rewrite app_assoc.
    set (scanned :=
           (results ++ flat_map (file_hits os query file_pattern parts)
                         filenames)%list).
    destruct (Z.leb_spec max_results
                (Z.of_nat
                   (List.length (firstn (Z.to_nat max_results) scanned))))
      as [Hfull|Hroom].
    + now rewrite firstn_full by lia.
    + destruct (firstn_not_full (Z.to_nat max_results) scanned) as [-> Hs];
        [lia|].
      apply IH; [assumption|lia|assumption].
Qed.

(** ** The number of results *)

Lemma search_lines_bound query rel max_results lines : forall i results,
  Z.of_nat (List.length results) < Z.max 1 max_results ->
  Z.of_nat (List.length (scan_lines os query rel max_results i lines results))
  <= Z.max 1 max_results.
Proof.
  induction lines as [|text rest IH]; intros i results Hlen;
    cbn [scan_lines]; [lia|].
  destruct (contains (lower os query) (lower os text)); [|now apply IH].
  assert (List.length (results ++ [mkHit rel (i + 1)
                                     (py_take 100 (strip os text))])
          = S (List.length results)) as El
    by (rewrite length_app; cbn [List.length]; lia).
  destruct (Z.leb_spec max_results (Z.of_nat (List.length
              (results ++ [mkHit rel (i + 1) (py_take 100 (strip os text))]))))
    as [Hfull|Hroom]; [lia|].
  apply IH. lia.
Qed.

Lemma search_files_bound query file_pattern max_results parts filenames :
  forall results found,
  Z.of_nat (List.length results) < Z.max 1 max_results ->
  scan_files os query file_pattern max_results parts filenames results
  = inr found ->
  Z.of_nat (List.length found) <= Z.max 1 max_results.
Proof.
  induction filenames as [|f rest IH]; intros results found Hlen;
    cbn [scan_files].
  - intros H; injection H as <-. lia.
  - destruct (passes os file_pattern f) as [e|[|]];
      [discriminate| |now apply IH].
    destruct (read os parts f) as [text|]; [|now apply IH].
    pose proof (search_lines_bound query (FileTools.rel_path parts f)
                  max_results (splitlines os text) 0 results Hlen) as Hb.
    destruct (Z.leb_spec max_results (Z.of_nat (List.length
                (scan_lines os query (FileTools.rel_path parts f) max_results
                   0 (splitlines os text) results)))) as [Hfull|Hroom].
    + intros H; injection H as <-. exact Hb.
    + apply IH. lia.
Qed.

Lemma search_dirs_bound query file_pattern max_results dirs :
  forall results found,
  Z.of_nat (List.length results) < Z.max 1 max_results ->
  scan_dirs os query file_pattern max_results dirs results = inr found ->
  Z.of_nat (List.length found) <= Z.max 1 max_results.
Proof.
  induction dirs as [|[parts filenames] rest IH]; intros results found Hlen;
    cbn [scan_dirs].
  - intros H; injection H as <-. lia.
  - destruct (_should_exclude parts); [now apply IH|].
    destruct (scan_files os query file_pattern max_results parts filenames
                results) as [e|scanned] eqn:Es; [discriminate|].
    apply search_files_bound in Es as Hb; [|exact Hlen].
    destruct (Z.leb_spec max_results (Z.of_nat (List.length scanned)))
      as [Hfull|Hroom].
    + intros H; injection H as <-. exact Hb.
    + apply IH. lia.
Qed.

(** ** Patterns *)

Lemma lstrip_star_idempotent p : lstrip_star (lstrip_star p) = lstrip_star p.
Proof.
  induction p as [|c r IH]; [reflexivity|]. cbn [lstrip_star].
  destruct (c =? "*")%char eqn:E; [exact IH|]. cbn [lstrip_star].
  now rewrite E.
Qed.

Lemma passes_stripped p f :
  lstrip_star p <> "" ->
  passes os (Some p) f = passes os (Some (lstrip_star p)) f.
Proof.
  intros Hp. unfold passes.
  destruct p as [|c r]; [contradiction|].
  destruct (lstrip_star (String c r)) as [|c' r'] eqn:E; [contradiction|].
  rewrite <- E. now rewrite lstrip_star_idempotent.
Qed.

Lemma search_files_ext query p q max_results parts filenames : forall results,
  (forall f, passes os p f = passes os q f) ->
  scan_files os query p max_results parts filenames results
  = scan_files os query q max_results parts filenames results.
Proof.
  intros results H. revert results.
  induction filenames as [|f rest IH]; intros results; cbn [scan_files];
    [reflexivity|].
  rewrite H. destruct (passes os q f) as [e|[|]]; [reflexivity| |apply IH].
  destruct (read os parts f); [|apply IH]. now rewrite IH.
Qed.

Lemma search_dirs_ext query p q max_results dirs : forall results,
  (forall f, passes os p f = passes os q f) ->
  scan_dirs os query p max_results dirs results
  = scan_dirs os query q max_results dirs results.
Proof.
  intros results H. revert results.
  induction dirs as [|[parts filenames] rest IH]; intros results;
    cbn [scan_dirs]; [reflexivity|].
  destruct (_should_exclude parts); [apply IH|].
  rewrite (search_files_ext query p q) by exact H.
  destruct (scan_files os query q max_results parts filenames results);
    [reflexivity|]. now rewrite IH.
Qed.

(** The first file looked at ends the search when the pattern cannot be
    matched. *)
Lemma search_dirs_raises query file_pattern max_results e dirs :
  1 <= max_results ->
  (forall f, passes os file_pattern f = inl e) ->
  candidates dirs <> [] ->
  scan_dirs os query file_pattern max_results dirs [] = inl e.
Proof.
  intros Hmax Hp. induction dirs as [|[parts filenames] rest IH];
    intros Hc; [contradiction|].
  cbn [scan_dirs]. unfold candidates in Hc. cbn [flat_map fst snd] in Hc.
  destruct (_should_exclude parts); [now apply IH|].
  destruct filenames as [|f files].
  - cbn [scan_files List.length].
    destruct (Z.leb_spec max_results (Z.of_nat 0)); [lia|]. now apply IH.
  - cbn [scan_files]. now rewrite Hp.
Qed.

(** X18: with [max_results] of at least one and a pattern that can be
    matched against every file looked at, [search_code] collects exactly
    the first [max_results] matching lines, in the order of the walk, of
    the files that pass the pattern and can be read; it never collects
    more than max([max_results], 1) results. The pattern is matched
    without its leading asterisks, so [*.py] selects the files that
    [Path.match] selects for [.py]; when a pattern of asterisks alone makes
    [Path.match] raise, the search fails at the first file it looks at. *)
Theorem search_collects_the_first_matches (root : FileTools.entry)
  (query : string) (file_pattern : option string) (max_results : Z) :
  let dirs := FileTools.walk [] root in
  (1 <= max_results ->
   (forall f e, In f (candidates dirs) -> passes os file_pattern f <> inl e) ->
   found os root query file_pattern max_results
   = inr (firstn (Z.to_nat max_results)
            (all_hits os query file_pattern dirs)))
  /\
  (forall results,
     found os root query file_pattern max_results = inr results ->
     Z.of_nat (List.length results) <= Z.max 1 max_results)
  /\
  (forall p,
     lstrip_star p <> "" ->
     found os root query (Some p) max_results
     = found os root query (Some (lstrip_star p)) max_results)
  /\
  (forall p e,
     1 <= max_results -> p <> "" -> lstrip_star p = "" ->
     (forall f, path_match os f "" = inl e) ->
     candidates dirs <> [] ->
     found os root query (Some p) max_results = inl e).
Proof.
  intros dirs. unfold found. fold dirs. split; [|split; [|split]].
  - intros Hmax Hok. now rewrite search_dirs_spec by (cbn; lia || assumption).
  - intros results H. apply search_dirs_bound in H; [exact H|cbn; lia].
  - intros p Hp. apply search_dirs_ext. intros f. now apply passes_stripped.
  - intros p e Hmax Hp Hs Hraise Hc. apply search_dirs_raises; try assumption.
    intros f. unfold passes. destruct p as [|c r]; [contradiction|].
    rewrite Hs. apply Hraise.
Qed.

End Search.
